(** * StrasBoard server: freshness-aware response cache and aggregator

    A shallow embedding of the Go sources under [server/]: the [Response]
    envelope ([source.go]), the response cache ([cache.go]), fetch-with-cache
    and the concurrent fan-out ([main.go]), the cutoff-based freshness policies
    of the electricity and tempo sources, and the live path of the transport
    source.

    Conventions.
    - A [time.Time] is the instant it denotes, an integer number of
      nanoseconds since the Unix epoch; a [time.Duration] is a number of
      nanoseconds.  The [*time.Location] a Go value carries only matters to
      the calendar accessors, so it is passed where the source reads the
      calendar.
    - Pointers that may be [nil] are [option]s; a Go [map] is a [gmap].
    - Everything the program reads from outside (the clock, the upstream
      HTTP services) is threaded through an explicit world of type [W]. *)

From stdpp Require Import gmap strings list sorting.
From Stdlib Require Import ZArith Lia Ascii String DecimalString.

Local Open Scope Z_scope.

(** ** The part of Go's [time] package the server uses *)

Module GoTime.

Definition Time : Type := Z.
Definition Duration : Type := Z.

Definition Nanosecond : Duration := 1.
Definition Second : Duration := 1000000000 * Nanosecond.
Definition Minute : Duration := 60 * Second.
Definition Hour : Duration := 60 * Minute.

Definition secondsPerDay : Z := 86400.
Definition secondsPerHour : Z := 3600.

Definition Add (t : Time) (d : Duration) : Time := t + d.
Definition Sub (t u : Time) : Duration := t - u.
Definition After (t u : Time) : bool := u <? t.
Definition Before (t u : Time) : bool := t <? u.

(** Days since 1970-01-01 of a proleptic Gregorian date, and back.  The day
    count is linear in [d], so that day 0 or day 32 of a month overflow
    into the neighbouring month as [time.Date] documents. *)
Definition days_from_civil (y m d : Z) : Z :=
  let y := if m <=? 2 then y - 1 else y in
  let era := y / 400 in
  let yoe := y - era * 400 in
  let mp := if 2 <? m then m - 3 else m + 9 in
  let doy := (153 * mp + 2) / 5 + d - 1 in
  let doe := yoe * 365 + yoe / 4 - yoe / 100 + doy in
  era * 146097 + doe - 719468.

Definition civil_from_days (z : Z) : Z * Z * Z :=
  let z := z + 719468 in
  let era := z / 146097 in
  let doe := z - era * 146097 in
  let yoe := (doe - doe / 1460 + doe / 36524 - doe / 146096) / 365 in
  let doy := doe - (365 * yoe + yoe / 4 - yoe / 100) in
  let mp := (5 * doy + 2) / 153 in
  let d := doy - (153 * mp + 2) / 5 + 1 in
  let m := if mp <? 10 then mp + 3 else mp - 9 in
  (if m <=? 2 then yoe + era * 400 + 1 else yoe + era * 400, m, d).

(** 1970-01-01 was a Thursday; Sunday is 0. *)
Definition weekday (day : Z) : Z := (day + 4) mod 7.

(** A location maps a Unix time in seconds to the offset east of UTC in
    force and to the bounds [start, end) of that zone period, like
    [Location.lookup]. *)
Record Location := mkLocation { zone_lookup : Z -> Z * Z * Z }.

Definition UTC : Location :=
  mkLocation (fun _ => (0, - 2 ^ 63, 2 ^ 63 - 1)).

(** Europe/Paris under the rule in force since 1996 (and the one Go
    extends into the future): CET is UTC+1, CEST is UTC+2 from the last
    Sunday of March 01:00 UTC to the last Sunday of October 01:00 UTC. *)
Definition last_sunday (y m : Z) : Z :=
  let d := days_from_civil y m 31 in d - weekday d.

Definition dst_start (y : Z) : Z := last_sunday y 3 * secondsPerDay + secondsPerHour.
Definition dst_end (y : Z) : Z := last_sunday y 10 * secondsPerDay + secondsPerHour.

Definition paris_lookup (u : Z) : Z * Z * Z :=
  let y := fst (fst (civil_from_days (u / secondsPerDay))) in
  if u <? dst_start y then (3600, dst_end (y - 1), dst_start y)
  else if u <? dst_end y then (7200, dst_start y, dst_end y)
  else (3600, dst_end y, dst_start (y + 1)).

Definition Paris : Location := mkLocation paris_lookup.

(** Calendar accessors of an instant read in a location. *)
Definition unixSec (t : Time) : Z := t / Second.
Definition nsecOf (t : Time) : Z := t mod Second.

Definition zoneOffset (loc : Location) (t : Time) : Z :=
  fst (fst (zone_lookup loc (unixSec t))).

(** Seconds of local wall-clock time since the epoch. *)
Definition localSec (loc : Location) (t : Time) : Z := unixSec t + zoneOffset loc t.
Definition localDay (loc : Location) (t : Time) : Z := localSec loc t / secondsPerDay.
Definition secOfDay (loc : Location) (t : Time) : Z := localSec loc t mod secondsPerDay.

Definition YearOf (loc : Location) (t : Time) : Z := fst (fst (civil_from_days (localDay loc t))).
Definition MonthOf (loc : Location) (t : Time) : Z := snd (fst (civil_from_days (localDay loc t))).
Definition DayOf (loc : Location) (t : Time) : Z := snd (civil_from_days (localDay loc t)).
Definition HourOf (loc : Location) (t : Time) : Z := secOfDay loc t / secondsPerHour.
Definition MinuteOf (loc : Location) (t : Time) : Z := (secOfDay loc t mod secondsPerHour) / 60.
Definition SecondOf (loc : Location) (t : Time) : Z := secOfDay loc t mod 60.

(** [norm hi lo base]: carry [lo] into [hi] so that [0 <= lo < base]. *)
Definition norm (hi lo base : Z) : Z * Z := (hi + lo / base, lo mod base).

(** [time.Date]: normalise the fields, count the seconds of the wall-clock
    reading, then subtract the zone offset found for it. *)
Definition Date (year month day hour min sec nsec : Z) (loc : Location) : Time :=
  let '(year, m) := norm year (month - 1) 12 in
  let month := m + 1 in
  let '(sec, nsec) := norm sec nsec 1000000000 in
  let '(min, sec) := norm min sec 60 in
  let '(hour, min) := norm hour min 60 in
  let '(day, hour) := norm day hour 24 in
  let d := days_from_civil year month day in
  let unix := d * secondsPerDay + hour * secondsPerHour + min * 60 + sec in
  let '(offset, start, stop) := zone_lookup loc unix in
  let offset :=
    if offset =? 0 then 0
    else
      let utc := unix - offset in
      if (utc <? start) || (stop <=? utc)
      then fst (fst (zone_lookup loc utc))
      else offset in
  (unix - offset) * 1000000000 + nsec.

(** [t.AddDate(years, months, days)] for a [t] read in [loc]. *)
Definition AddDate (loc : Location) (t : Time) (years months days : Z) : Time :=
  Date (YearOf loc t + years) (MonthOf loc t + months) (DayOf loc t + days)
       (HourOf loc t) (MinuteOf loc t) (SecondOf loc t) (nsecOf t) loc.

(** Layouts.  Years are printed on four digits (0..9999). *)
Definition digit (n : Z) : ascii := ascii_of_N (48 + Z.to_N (n mod 10)).

Fixpoint pad (width : nat) (n : Z) (acc : string) : string :=
  match width with
  | O => acc
  | S w => pad w (n / 10) (String (digit n) acc)
  end.

Definition formatDate (day : Z) : string :=
  let '(y, m, d) := civil_from_days day in
  pad 4 y (String "-" (pad 2 m (String "-" (pad 2 d EmptyString)))).

(** [t.Format(time.DateOnly)] *)
Definition FormatDateOnly (loc : Location) (t : Time) : string :=
  formatDate (localDay loc t).

(** [t.UTC().Format(time.RFC3339)] *)
Definition FormatRFC3339 (t : Time) : string :=
  let date := formatDate (localDay UTC t) in
  let clock :=
    pad 2 (HourOf UTC t) (String ":" (pad 2 (MinuteOf UTC t)
      (String ":" (pad 2 (SecondOf UTC t) "Z")))) in
  (date ++ String "T" clock)%string.

End GoTime.

Export GoTime.


(** ** Explicit state passing *)

Definition M (S A : Type) : Type := S -> A * S.

Definition ret {S A : Type} (a : A) : M S A := fun s => (a, s).

Definition bind {S A B : Type} (m : M S A) (k : A -> M S B) : M S B :=
  fun s => let (a, s') := m s in k a s'.

Notation "'let!' x ':=' m 'in' k" := (bind m (fun x => k))
  (at level 10, x name, m at level 100, k at level 200).

(** The outside world: all the core needs from it is the wall clock.  Two
    readings of [time.Now()] are two calls, and may differ. *)
Class World (W : Type) := { time_Now : M W Time }.

(** ** Payloads ([Response.Data] is [any]; these are the shapes stored in it) *)

Record Departure := mkDeparture { dep_Time : string; dep_Realtime : bool }.

Record Destination := mkDestination {
  dest_Name : string;
  dest_Departures : list Departure
}.

Record StopData := mkStopData {
  sd_ID : Z;
  sd_Name : string;
  sd_Line : string;
  sd_Color : string;
  sd_ColorText : string;
  sd_Destinations : list Destination
}.

Record Consumption := mkConsumption {
  cons_Date : string;
  cons_HC : option Z;
  cons_HP : option Z;
  cons_BCHC : option Z;
  cons_BCHP : option Z;
  cons_BUHC : option Z;
  cons_BUHP : option Z;
  cons_RHC : option Z;
  cons_RHP : option Z
}.

Record ElectricityData := mkElectricityData {
  Days : list Consumption;
  Months : list Consumption
}.

Record TempoDay := mkTempoDay { td_Date : string; td_Color : string }.

Inductive Payload : Type :=
| TransportPayload (stops : list StopData)
| StopPayload (stop : StopData)
| ElectricityPayload (data : ElectricityData)
| TempoPayload (data : list TempoDay)
| OpaquePayload (tag : string).

(** ** source.go *)

(** [Data = None] is the nil interface: no payload at all. *)
Record Response := mkResponse {
  Data : option Payload;
  Timestamp : string;
  Error : string;
  ExpiresAt : Time
}.

(** [resp.Error != ""] *)
Definition failed (resp : Response) : bool := negb (String.eqb (Error resp) "").

Section SourceGo.
Context {W : Type} {HW : World W}.

Record Source := mkSource {
  Name : string;
  Fetch : M W Response;
  DegradedTTL : Duration
}.

Definition NewResponse (data : Payload) (ttl : Duration) : M W Response :=
  let! stamp := time_Now in
  let! now := time_Now in
  ret {| Data := Some data;
         Timestamp := FormatRFC3339 stamp;
         Error := "";
         ExpiresAt := Add now ttl |}.

Definition NewResponseUntil (data : Payload) (expiresAt : Time) : M W Response :=
  let! stamp := time_Now in
  ret {| Data := Some data;
         Timestamp := FormatRFC3339 stamp;
         Error := "";
         ExpiresAt := expiresAt |}.

Definition ErrorResponse (msg : string) (ttl : Duration) : M W Response :=
  let! stamp := time_Now in
  let! now := time_Now in
  ret {| Data := None;
         Timestamp := FormatRFC3339 stamp;
         Error := msg;
         ExpiresAt := Add now ttl |}.

Definition BackupResponse (original : Response) (degradedTTL : Duration) : M W Response :=
  let! now := time_Now in
  ret {| Data := Data original;
         Timestamp := Timestamp original;
         Error := "";
         ExpiresAt := Add now degradedTTL |}.

End SourceGo.

Arguments Source W : clear implicits.

Definition DegradedResponse (backup err : Response) : Response :=
  {| Data := Data backup;
     Timestamp := Timestamp backup;
     Error := Error err;
     ExpiresAt := ExpiresAt err |}.

(** ** cache.go *)

Record cacheItem := mkCacheItem {
  data : option Response;
  backup : option Response
}.

Record Cache := mkCache { items : gmap string cacheItem }.

Definition NewCache : Cache := mkCache ∅.

(** The state the handlers run in: the one shared [*Cache], the world, and a
    ghost log of the upstream fetches made so far (the name of the source,
    latest first). *)
Record Sys (W : Type) := mkSys {
  cache : Cache;
  world : W;
  fetches : list string
}.

Arguments mkSys {W} _ _ _.
Arguments cache {W} _.
Arguments world {W} _.
Arguments fetches {W} _.

Section CacheGo.
Context {W : Type} {HW : World W}.

(** Run a computation on the world inside the system state. *)
Definition inWorld {A : Type} (m : M W A) : M (Sys W) A :=
  fun s => let (a, w) := m (world s) in (a, mkSys (cache s) w (fetches s)).

Definition fresh (now : Time) (r : Response) : option Response :=
  if After now (ExpiresAt r) then None else Some r.

Definition Cache_Get (key : string) : M (Sys W) (option Response) :=
  fun s =>
    match items (cache s) !! key with
    | Some {| data := Some d |} =>
        (let! now := inWorld time_Now in ret (fresh now d)) s
    | _ => (None, s)
    end.

Definition Cache_GetBackup (key : string) : M (Sys W) (option Response) :=
  fun s =>
    match items (cache s) !! key with
    | Some {| backup := Some b |} =>
        (let! now := inWorld time_Now in ret (fresh now b)) s
    | _ => (None, s)
    end.

(** [item := c.items[key]] yields the zero [cacheItem] for a new key. *)
Definition Cache_Set (key : string) (resp : Response) (degradedTTL : Duration)
  : M (Sys W) unit :=
  fun s =>
    let item := default (mkCacheItem None None) (items (cache s) !! key) in
    let item := mkCacheItem (Some resp) (backup item) in
    let (item, w) :=
      if failed resp then (item, world s)
      else
        let (b, w) := BackupResponse resp degradedTTL (world s) in
        (mkCacheItem (data item) (Some b), w) in
    (tt, mkSys (mkCache (<[key := item]> (items (cache s)))) w (fetches s)).

End CacheGo.

(** ** main.go *)

Record AllData := mkAllData {
  all_Weather : option Response;
  all_Transport : option Response;
  all_Temperature : option Response;
  all_Electricity : option Response;
  all_Tempo : option Response;
  all_Timestamp : string
}.

(** A goroutine of [fetchAll] between two of its atomic actions: the locked
    cache operations, the call to the source and the locked store into
    [results]. *)
Inductive pc : Type :=
| AtGet
| AtFetch
| AtGetBackup (resp : Response)
| AtSet (resp : Response)
| AtStore (resp : Response)
| Finished.

Section MainGo.
Context {W : Type} {HW : World W}.

(** [src.Fetch()], logged. *)
Definition callFetch (src : Source W) : M (Sys W) Response :=
  fun s =>
    let (r, w) := Fetch src (world s) in
    (r, mkSys (cache s) w (Name src :: fetches s)).

Definition fetchCached (src : Source W) : M (Sys W) Response :=
  let! cached := Cache_Get (Name src) in
  match cached with
  | Some r => ret r
  | None =>
      let! resp := callFetch src in
      let! resp :=
        if failed resp then
          let! backup := Cache_GetBackup (Name src) in
          ret match backup with
              | Some b => DegradedResponse b resp
              | None => resp
              end
        else ret resp in
      let! _ := Cache_Set (Name src) resp (DegradedTTL src) in
      ret resp
  end.

(** The sources [main] registers, keyed as in its map literal. *)
Definition main_sources (weather transport temperature electricity tempo : Source W)
  : gmap string (Source W) :=
  <["weather" := weather]> (<["transport" := transport]>
    (<["temperature" := temperature]> (<["electricity" := electricity]>
      (<["tempo" := tempo]> ∅)))).

(** *** [fetchAll]: one goroutine per source, interleaved *)

Record goroutine := mkGo {
  g_name : string;
  g_src : Source W;
  g_pc : pc
}.

Record Pool := mkPool {
  sys : Sys W;
  results : gmap string Response;
  threads : list goroutine
}.

(** One atomic action of a goroutine.  Together the actions of one
    goroutine are the body [resp := fetchCached(cache, s); results[n] = resp]. *)
Definition action (g : goroutine) (s : Sys W) (res : gmap string Response)
  : pc * Sys W * gmap string Response :=
  let key := Name (g_src g) in
  match g_pc g with
  | AtGet =>
      let (cached, s') := Cache_Get key s in
      (match cached with Some r => AtStore r | None => AtFetch end, s', res)
  | AtFetch =>
      let (resp, s') := callFetch (g_src g) s in
      (if failed resp then AtGetBackup resp else AtSet resp, s', res)
  | AtGetBackup resp =>
      let (b, s') := Cache_GetBackup key s in
      (AtSet match b with Some b => DegradedResponse b resp | None => resp end, s', res)
  | AtSet resp =>
      let (_, s') := Cache_Set key resp (DegradedTTL (g_src g)) s in
      (AtStore resp, s', res)
  | AtStore resp => (Finished, s, <[g_name g := resp]> res)
  | Finished => (Finished, s, res)
  end.

Definition runnable (g : goroutine) : bool :=
  match g_pc g with Finished => false | _ => true end.

(** The scheduler lets goroutine number [i] perform its next action. *)
Definition sched (i : nat) (p : Pool) : option Pool :=
  match threads p !! i with
  | Some g =>
      if runnable g then
        let '(pc', s', res') := action g (sys p) (results p) in
        Some (mkPool s' res' (<[i := mkGo (g_name g) (g_src g) pc']> (threads p)))
      else None
  | None => None
  end.

Inductive steps : nat -> Pool -> Pool -> Prop :=
| steps_refl p : steps 0 p p
| steps_then n i p p' p'' : sched i p = Some p' -> steps n p' p'' -> steps (S n) p p''.

(** [wg.Wait()] returns once every goroutine has called [wg.Done()]. *)
Definition joined (p : Pool) : Prop :=
  Forall (fun g => g_pc g = Finished) (threads p).

Definition spawn (sources : gmap string (Source W)) : list goroutine :=
  (fun kv => mkGo (fst kv) (snd kv) AtGet) <$> map_to_list sources.

Definition start (sources : gmap string (Source W)) (s : Sys W) : Pool :=
  mkPool s ∅ (spawn sources).

(** What [fetchAll] builds once the goroutines it waited for left the pool
    in state [p]. *)
Definition assemble (p : Pool) : M (Sys W) AllData :=
  let! now := inWorld time_Now in
  ret {| all_Weather := results p !! "weather";
         all_Transport := results p !! "transport";
         all_Temperature := results p !! "temperature";
         all_Electricity := results p !! "electricity";
         all_Tempo := results p !! "tempo";
         all_Timestamp := FormatRFC3339 now |}.

(** [fetchAll] as a relation: some interleaving of the goroutines runs them
    all to completion, and the result is assembled after the join. *)
Definition fetchAll (sources : gmap string (Source W)) (s : Sys W)
    (out : AllData) (s' : Sys W) : Prop :=
  exists n p, steps n (start sources s) p /\ joined p /\ assemble p (sys p) = (out, s').

(** [fetchAll] under a given schedule, for running it: picks of goroutines
    that do not exist or have finished are skipped. *)
Fixpoint run (schedule : list nat) (p : Pool) : Pool :=
  match schedule with
  | [] => p
  | i :: rest => run rest (default p (sched i p))
  end.

Definition fetchAll_under (schedule : list nat) (sources : gmap string (Source W))
  : M (Sys W) AllData :=
  fun s => let p := run schedule (start sources s) in assemble p (sys p).

End MainGo.

(** ** source_electricity.go: freshness policy of the consumption source *)

Module Electricity.

Definition electricityRetryTTL : Duration := 1 * Hour.
Definition electricityRefreshHour : Z := 4.

(** The credentials decide whether the source is configured; the token
    and service point live behind the upstream calls, in the world. *)
Record ElectricitySource := mkElectricitySource {
  username : string;
  password : string;
  loc : Location
}.

Definition Name : string := "electricity".
Definition DegradedTTL : Duration := 48 * Hour.

(** [len(data.Days) > 0 && data.Days[len(data.Days)-1].Date >= yesterday],
    a comparison of strings. *)
Definition hasYesterday (data : ElectricityData) (yesterday : string) : bool :=
  match last (Days data) with
  | Some c => String.leb yesterday (cons_Date c)
  | None => false
  end.

Section Upstream.
Context {W : Type} {HW : World W}.

(** [s.fetchData()]: authentication and the consumption request, with
    the error rendered by [err.Error()]. *)
Variable fetchData : ElectricitySource -> M W (ElectricityData + string).

Definition Fetch (s : ElectricitySource) : M W Response :=
  if String.eqb (username s) "" || String.eqb (password s) "" then
    ErrorResponse "electricity not configured" Hour
  else
    let! fetched := fetchData s in
    match fetched with
    | inr err => ErrorResponse err (10 * Minute)
    | inl data =>
        let! now := time_Now in
        let hour := HourOf (loc s) now in
        if hour <? electricityRefreshHour then
          let expiresAt :=
            Date (YearOf (loc s) now) (MonthOf (loc s) now) (DayOf (loc s) now)
                 electricityRefreshHour 0 0 0 (loc s) in
          NewResponseUntil (ElectricityPayload data) expiresAt
        else
          let yesterday := FormatDateOnly (loc s) (AddDate (loc s) now 0 0 (-1)) in
          if hasYesterday data yesterday then
            let expiresAt :=
              AddDate (loc s)
                (Date (YearOf (loc s) now) (MonthOf (loc s) now) (DayOf (loc s) now)
                      electricityRefreshHour 0 0 0 (loc s))
                0 0 1 in
            NewResponseUntil (ElectricityPayload data) expiresAt
          else
            NewResponse (ElectricityPayload data) electricityRetryTTL
    end.

Definition source (s : ElectricitySource) : Source W :=
  mkSource Name (Fetch s) DegradedTTL.

End Upstream.

End Electricity.

(** ** The tempo source: freshness policy of the tariff calendar *)

Module Tempo.

Definition tempoRetryTTL : Duration := 1 * Hour.
Definition tempoProvisionalHour : Z := 8.
Definition tempoDefinitiveHour : Z := 11.

Record TempoSource := mkTempoSource {
  authToken : string;
  loc : Location
}.

Definition Name : string := "tempo".
Definition DegradedTTL : Duration := 24 * Hour.

Section Upstream.
Context {W : Type} {HW : World W}.

(** [s.fetchData()]: authentication and the calendar request. *)
Variable fetchData : TempoSource -> M W (list TempoDay + string).

Definition Fetch (s : TempoSource) : M W Response :=
  if String.eqb (authToken s) "" then
    ErrorResponse "tempo not configured" Hour
  else
    let! fetched := fetchData s in
    match fetched with
    | inr err => ErrorResponse err (10 * Minute)
    | inl data =>
        let! now := time_Now in
        let hour := HourOf (loc s) now in
        if hour <? tempoProvisionalHour then
          let expiresAt :=
            Date (YearOf (loc s) now) (MonthOf (loc s) now) (DayOf (loc s) now)
                 tempoProvisionalHour 0 0 0 (loc s) in
          NewResponseUntil (TempoPayload data) expiresAt
        else if tempoDefinitiveHour <=? hour then
          let expiresAt :=
            AddDate (loc s)
              (Date (YearOf (loc s) now) (MonthOf (loc s) now) (DayOf (loc s) now)
                    tempoProvisionalHour 0 0 0 (loc s))
              0 0 1 in
          NewResponseUntil (TempoPayload data) expiresAt
        else
          NewResponse (TempoPayload data) tempoRetryTTL
    end.

Definition source (s : TempoSource) : Source W :=
  mkSource Name (Fetch s) DegradedTTL.

End Upstream.

End Tempo.

(** ** The transport source: live departures of one stop *)

(** Code that may panic at run time (an index out of range): [None] is the
    panic. *)
Definition MP (S A : Type) : Type := S -> option (A * S).

Definition retP {S A : Type} (a : A) : MP S A := fun s => Some (a, s).

Definition bindP {S A B : Type} (m : MP S A) (k : A -> MP S B) : MP S B :=
  fun s => match m s with
           | Some (a, s') => k a s'
           | None => None
           end.

Definition total {S A : Type} (m : M S A) : MP S A := fun s => Some (m s).

Notation "'let?' x ':=' m 'in' k" := (bindP m (fun x => k))
  (at level 10, x name, m at level 100, k at level 200).

(** [l[i]] on a slice. *)
Definition index {A : Type} (l : list A) (i : Z) : option A :=
  if i <? 0 then None else l !! Z.to_nat i.

(** A source that owns private state of type [S] lives in the world
    [S * W]; the clock is the one of [W]. *)
#[export] Instance World_with_state {S W : Type} {HW : World W} : World (S * W) :=
  {| time_Now := fun sw => let (t, w) := time_Now (snd sw) in (t, (fst sw, w)) |}.

Module Transport.

Definition transportTTL : Duration := 2 * Minute.
Definition transportLiveTTL : Duration := 20 * Second.

Record stopInfo := mkStopInfo {
  line : string;
  name : string;
  stopRef : string;
  color : string;
  colorText : string
}.

Record departureCache := mkDepartureCache {
  destinations : list Destination;
  fetchedAt : Time
}.

Record TransportSource := mkTransportSource {
  apiURL : string;
  apiKey : string;
  stops : list stopInfo;
  ready : bool;
  cache : gmap Z departureCache
}.

Definition Name : string := "transport".
Definition DegradedTTL : Duration := Hour.

(** [strings.Contains] *)
Definition Contains (s substr : string) : bool :=
  match String.index 0 substr s with
  | Some _ => true
  | None => false
  end.

(** The answer of the stop-points discovery: a stop, the lines that call at
    it, and for each line the names of its destinations. *)
Record apiLine := mkApiLine {
  LineRef : string;
  Destinations : list (list string);
  RouteColor : string;
  RouteTextColor : string
}.

Record AnnotatedStopPointRef := mkAnnotatedStopPointRef {
  StopPointRef : string;
  StopName : string;
  Lines : list apiLine
}.

(** The loops of [resolveStop] over the lines of one stop of the answer: the
    first line with the reference of the configured stop one of whose
    destination names contains [destination]. *)
Fixpoint findLine (stop : stopInfo) (destination : string) (lines : list apiLine)
  : option apiLine :=
  match lines with
  | [] => None
  | l :: rest =>
      if negb (String.eqb (LineRef l) (line stop)) then findLine stop destination rest
      else if existsb (fun dest => existsb (fun n => Contains n destination) dest)
                      (Destinations l)
      then Some l
      else findLine stop destination rest
  end.

(** [resolveStop], on the value of [s.stops[id]]: the first stop of the
    answer whose name contains the configured name and that has such a line
    gives the reference and the colours; without one the stop is left as it
    is. *)
Fixpoint resolveStop (stop : stopInfo) (destination : string)
    (apiStops : list AnnotatedStopPointRef) : stopInfo :=
  match apiStops with
  | [] => stop
  | a :: rest =>
      if negb (Contains (StopName a) (name stop)) then resolveStop stop destination rest
      else
        match findLine stop destination (Lines a) with
        | Some l =>
            mkStopInfo (line stop) (name stop) (StopPointRef a)
                       ("#" ++ RouteColor l) ("#" ++ RouteTextColor l)
        | None => resolveStop stop destination rest
        end
  end.

(** One turn of the loop of [resolveStops]: the destination was kept in
    [stopRef] until now. *)
Definition resolved (apiStops : list AnnotatedStopPointRef) (stop : stopInfo) : stopInfo :=
  resolveStop (mkStopInfo (line stop) (name stop) "" (color stop) (colorText stop))
              (stopRef stop) apiStops.

Section Upstream.
Context {W : Type} {HW : World W}.

(** The stop-monitoring request of [fetchDepartures] for one stop and the
    grouping of its answer by destination, with the error rendered. *)
Variable stopMonitoring : TransportSource -> stopInfo -> M W (list Destination + string).

Definition self : M (TransportSource * W) TransportSource := fun sw => (fst sw, sw).

Definition upstream {A : Type} (m : M W A) : M (TransportSource * W) A :=
  fun sw => let (a, w) := m (snd sw) in (a, (fst sw, w)).

Definition fetchDepartures (id : Z) : MP (TransportSource * W) (list Destination + string) :=
  let? s := total self in
  match index (stops s) id with
  | None => fun _ => None
  | Some stop => total (upstream (stopMonitoring s stop))
  end.

(** [s.cache[id] = &departureCache{...}] *)
Definition store (id : Z) (entry : departureCache) : M (TransportSource * W) unit :=
  fun sw =>
    let s := fst sw in
    (tt, (mkTransportSource (apiURL s) (apiKey s) (stops s) (ready s)
                            (<[id := entry]> (cache s)), snd sw)).

Definition getDepartures (id : Z) (maxAge : Duration)
  : MP (TransportSource * W) (list Destination + string) :=
  let? s := total self in
  let? hit :=
    match cache s !! id with
    | Some cached =>
        let? now := total time_Now in
        retP (if Sub now (fetchedAt cached) <? maxAge
              then Some (destinations cached) else None)
    | None => retP None
    end in
  match hit with
  | Some dests => retP (inl dests)
  | None =>
      let? fetched := fetchDepartures id in
      match fetched with
      | inr err => retP (inr err)
      | inl dests =>
          let? now := total time_Now in
          let? _ := total (store id (mkDepartureCache dests now)) in
          retP (inl dests)
      end
  end.

Definition getStopData (id : Z) (maxAge : Duration)
  : MP (TransportSource * W) (option StopData) :=
  let? got := getDepartures id maxAge in
  let? s := total self in
  match got with
  | inr _ =>
      (* the log line reads s.stops[id] *)
      match index (stops s) id with
      | None => fun _ => None
      | Some _ => retP None
      end
  | inl dests =>
      match index (stops s) id with
      | None => fun _ => None
      | Some stop =>
          retP (Some (mkStopData id (name stop) (line stop) (color stop)
                                 (colorText stop) dests))
      end
  end.

Definition FetchLive (id : Z) : MP (TransportSource * W) Response :=
  let? s := total self in
  if String.eqb (apiKey s) "" then
    total (ErrorResponse "transport not configured" Hour)
  else if (id <? 0) || (Z.of_nat (List.length (stops s)) <=? id) || negb (ready s) then
    total (ErrorResponse "invalid stop" Minute)
  else
    match index (stops s) id with
    | None => fun _ => None
    | Some stop =>
        if String.eqb (stopRef stop) "" then
          total (ErrorResponse "invalid stop" Minute)
        else
          let? got := getStopData id transportLiveTTL in
          match got with
          | None => total (ErrorResponse "fetch failed" Minute)
          | Some stopData => total (NewResponse (StopPayload stopData) transportLiveTTL)
          end
    end.

(** The stop-points discovery request of [resolveStops], with the error
    rendered. *)
Variable stopPointsDiscovery : TransportSource -> M W (list AnnotatedStopPointRef + string).

(** [resolveStops]: [Some err] is the error returned. *)
Definition resolveStops : M (TransportSource * W) (option string) :=
  let! s := self in
  let! answer := upstream (stopPointsDiscovery s) in
  match answer with
  | inr err => ret (Some err)
  | inl apiStops =>
      fun sw =>
        (None, (mkTransportSource (apiURL s) (apiKey s) (resolved apiStops <$> stops s)
                                  true (cache s), snd sw))
  end.

(** The loop of [Fetch] over the indices of [s.stops]. *)
Fixpoint collect (ids : list Z) (acc : list StopData)
  : MP (TransportSource * W) (list StopData) :=
  match ids with
  | [] => retP acc
  | i :: rest =>
      let? s := total self in
      match index (stops s) i with
      | None => fun _ => None
      | Some stop =>
          if String.eqb (stopRef stop) "" then collect rest acc
          else
            let? got := getStopData i transportTTL in
            collect rest match got with
                         | Some stopData => acc ++ [stopData]
                         | None => acc
                         end
      end
  end.

Definition Fetch : MP (TransportSource * W) Response :=
  let? s := total self in
  if String.eqb (apiKey s) "" then
    total (ErrorResponse "transport not configured" Hour)
  else if (List.length (stops s) =? 0)%nat then
    total (ErrorResponse "no stops configured" Hour)
  else
    let? err := if ready s then retP None else total resolveStops in
    match err with
    | Some err => total (ErrorResponse ("resolve: " ++ err) Hour)
    | None =>
        let? s := total self in
        let? found := collect (Z.of_nat <$> seq 0 (List.length (stops s))) [] in
        match found with
        | [] => total (ErrorResponse "no departure data" (5 * Minute))
        | _ => total (NewResponse (TransportPayload found) transportTTL)
        end
    end.

End Upstream.

End Transport.

(** *** The [/api/transport/live] handler of [main], after [strconv.Atoi]. *)

Section LiveEndpoint.
Context {W : Type} {HW : World W}.
Variable stopMonitoring :
  Transport.TransportSource -> Transport.stopInfo -> M W (list Destination + string).

Definition liveHandler (id : Z)
  : MP (Sys (Transport.TransportSource * W)) Response :=
  fun s =>
    match Transport.FetchLive stopMonitoring id (world s) with
    | Some (r, w) => Some (r, mkSys (cache s) w (fetches s))
    | None => None
    end.

(** The live fetch as the specification words it: the fetch-with-cache
    algorithm of the core, on the core's cache, for a source whose fetch is
    the fetch of the one stop and whose name is a sub-identity derived from
    the source name and the stop id. *)
Definition spec_liveSource (derive : string -> Z -> string) (id : Z)
  : Source (Transport.TransportSource * W) :=
  mkSource (derive Transport.Name id)
           (fun w =>
              match Transport.FetchLive stopMonitoring id w with
              | Some rw => rw
              | None => (mkResponse None "" "panic" 0, w)
              end)
           Transport.DegradedTTL.

Definition spec_liveHandler (derive : string -> Z -> string) (id : Z)
  : M (Sys (Transport.TransportSource * W)) Response :=
  fetchCached (spec_liveSource derive id).

End LiveEndpoint.

(** ** Specification vocabulary *)

(** The instant [t] reads [hour]:00:00.000000000 on the wall clock of [loc],
    on local calendar day number [day]. *)
Definition atClock (loc : Location) (day hour : Z) (t : Time) : Prop :=
  localDay loc t = day /\ secOfDay loc t = hour * secondsPerHour /\ nsecOf t = 0.

(** ** A scripted world, to run the model on concrete inputs *)

(** A clock that shows [reading] and advances by [tick] at every reading. *)
Record Clock := mkClock { reading : Time; tick : Duration }.

#[export] Instance World_Clock : World Clock :=
  {| time_Now := fun c => (reading c, mkClock (reading c + tick c) (tick c)) |}.

(** What the cache holds under a key, and the reading the clock is about to
    give. *)
Definition currentOf {W : Type} (s : Sys W) (key : string) : option Response :=
  items (cache s) !! key ≫= data.

Definition backupOf {W : Type} (s : Sys W) (key : string) : option Response :=
  items (cache s) !! key ≫= backup.

Definition clock {W : Type} {HW : World W} (s : Sys W) : Time := (time_Now (world s)).1.

(** The payload of a result and the timestamp of its production. *)
Definition origin (r : Response) : option Payload * string := (Data r, Timestamp r).

(** A history of writes to one key, and the latest success among them. *)
Fixpoint setAll {W : Type} {HW : World W} (key : string)
    (writes : list (Response * Duration)) : M (Sys W) unit :=
  match writes with
  | [] => ret tt
  | (resp, ttl) :: rest => let! _ := Cache_Set key resp ttl in setAll key rest
  end.

Definition latestSuccess (writes : list (Response * Duration)) : option Response :=
  last (filter (fun r => failed r = false) (writes.*1)).

(** *** Scenarios *)

Definition t0 : Time := 1730430000 * Second.

(** A source that answers [P1], fresh for two minutes; the same source once
    its upstream times out. *)
Definition alpha_ok : Source Clock :=
  mkSource "alpha" (NewResponse (OpaquePayload "P1") (2 * Minute)) (48 * Hour).

Definition alpha_down : Source Clock :=
  mkSource "alpha" (ErrorResponse "timeout" Minute) (48 * Hour).

Definition alpha_cold : Sys Clock := mkSys NewCache (mkClock t0 1) [].

(** The state [s], some time [d] after [t0]. *)
Definition later (d : Duration) (s : Sys Clock) : Sys Clock :=
  mkSys (cache s) (mkClock (t0 + d) 1) (fetches s).

(** An entry read at the very instant it expires. *)
Definition boundary_response : Response :=
  mkResponse (Some (OpaquePayload "P1")) "2024-11-01T03:00:00Z" "" 1000.

Definition boundary_sys : Sys Clock :=
  mkSys (mkCache {[ "alpha" := mkCacheItem (Some boundary_response) (Some boundary_response) ]})
        (mkClock 1000 1) [].

(** "Today at [hour]:00" as the sources compute it from the reading [now]. *)
Definition todayAt (loc : Location) (now : Time) (hour : Z) : Time :=
  Date (YearOf loc now) (MonthOf loc now) (DayOf loc now) hour 0 0 0 loc.

(** *** Scenarios for the freshness policies

    2024-11-01 at 02:30, 10:00 and 12:00 in Paris. *)
Definition night : Time := 1730424600 * Second.
Definition morning : Time := 1730451600 * Second.
Definition noon : Time := 1730458800 * Second.
Definition sample_days : ElectricityData :=
  mkElectricityData
    [mkConsumption "2024-10-30" (Some 4) (Some 7) None None None None None None;
     mkConsumption "2024-10-31" (Some 5) (Some 6) None None None None None None] [].
Definition stale_days : ElectricityData :=
  mkElectricityData
    [mkConsumption "2024-10-30" (Some 4) (Some 7) None None None None None None] [].
Definition sample_tempo : list TempoDay :=
  [mkTempoDay "2024-11-01" "blue"; mkTempoDay "2024-11-02" "white"].
Definition electricity_paris : Electricity.ElectricitySource :=
  Electricity.mkElectricitySource "user" "secret" Paris.
Definition tempo_paris : Tempo.TempoSource := Tempo.mkTempoSource "token" Paris.
Definition answers {S A E : Type} (a : A) : S -> M Clock (A + E) := fun _ w => (inl a, w).

(** *** Bookkeeping of the fan-out *)

(** The actions a goroutine at [c] has left, at most. *)
Definition remaining (c : pc) : nat :=
  match c with
  | AtGet => 5
  | AtFetch => 4
  | AtGetBackup _ => 3
  | AtSet _ => 2
  | AtStore _ => 1
  | Finished => 0
  end.

Definition work {W : Type} (p : Pool (W := W)) : nat :=
  sum_list ((fun g => remaining (g_pc g)) <$> threads p).

(** What holds of a pool throughout [fetchAll]: the goroutines are those
    spawned, and each one that has finished has stored its result. *)
Definition stored {W : Type} (p : Pool (W := W)) : Prop :=
  Forall (fun g => g_pc g = Finished -> is_Some (results p !! g_name g)) (threads p).

Definition names {W : Type} (p : Pool (W := W)) : list string := g_name <$> threads p.

Definition joinedb {W : Type} (p : Pool (W := W)) : bool :=
  forallb (fun g => negb (runnable g)) (threads p).

(** Five sources, two of them failing, and a fair schedule for them. *)
Definition demo_weather : Source Clock :=
  mkSource "weather" (NewResponse (OpaquePayload "sunny") (15 * Minute)) (24 * Hour).
Definition demo_transport : Source Clock :=
  mkSource "transport" (ErrorResponse "no departure data" (5 * Minute)) Hour.
Definition demo_temperature : Source Clock :=
  mkSource "temperature" (NewResponse (OpaquePayload "21.5") (24 * Hour)) (4 * Hour).
Definition demo_electricity : Source Clock :=
  mkSource "electricity" (ErrorResponse "electricity not configured" Hour) (48 * Hour).
Definition demo_tempo : Source Clock :=
  mkSource "tempo" (NewResponse (OpaquePayload "blue") Hour) (24 * Hour).

Definition demo_sources : gmap string (Source Clock) :=
  main_sources demo_weather demo_transport demo_temperature demo_electricity demo_tempo.

Definition round_robin : list nat :=
  [0; 1; 2; 3; 4; 0; 1; 2; 3; 4; 0; 1; 2; 3; 4; 0; 1; 2; 3; 4; 0; 1; 2; 3; 4]%nat.

Definition alone : Pool (W := Clock) := mkPool alpha_cold ∅ [mkGo "alpha" alpha_ok AtGet].

(** *** Vocabulary for the transport source *)

(** [for i := range s.stops] *)
Definition indices (s : Transport.TransportSource) : list Z :=
  Z.of_nat <$> seq 0 (List.length (Transport.stops s)).

(** The stop data [d] is the one [getStopData] builds from the state [s]:
    the static fields of a resolved stop and the departures cached for it. *)
Definition builtFrom (s : Transport.TransportSource) (d : StopData) : Prop :=
  exists stop fetched,
    index (Transport.stops s) (sd_ID d) = Some stop
    /\ Transport.stopRef stop <> ""%string
    /\ d = mkStopData (sd_ID d) (Transport.name stop) (Transport.line stop)
                      (Transport.color stop) (Transport.colorText stop)
                      (sd_Destinations d)
    /\ Transport.cache s !! sd_ID d
       = Some (Transport.mkDepartureCache (sd_Destinations d) fetched).

(** The stop [a] of the discovery answer and its line [l] fit the configured
    stop: the names, the line reference, and a destination of the line. *)
Definition fits (stop : Transport.stopInfo) (destination : string)
    (a : Transport.AnnotatedStopPointRef) (l : Transport.apiLine) : Prop :=
  Transport.Contains (Transport.StopName a) (Transport.name stop) = true
  /\ l ∈ Transport.Lines a
  /\ Transport.LineRef l = Transport.line stop
  /\ exists dest n, dest ∈ Transport.Destinations l /\ n ∈ dest
                    /\ Transport.Contains n destination = true.

(** *** A tram stop, before and after its first fetch *)

Definition to_stadium : list Destination :=
  [mkDestination "Parc des Sports" [mkDeparture "2024-11-01T03:04:00Z" true]].

Definition tram_cold : Transport.TransportSource :=
  Transport.mkTransportSource "https://api.example" "key"
    [Transport.mkStopInfo "A" "Homme de Fer" "Parc des Sports" "" "";
     Transport.mkStopInfo "C" "Gare Centrale" "Neuhof" "" ""]
    false ∅.

Definition homme_de_fer : Transport.stopInfo :=
  Transport.mkStopInfo "A" "Homme de Fer" "ref-1" "#e10d19" "#ffffff".

Definition tram_warm : Transport.TransportSource :=
  Transport.mkTransportSource "https://api.example" "key"
    [homme_de_fer; Transport.mkStopInfo "C" "Gare Centrale" "" "" ""]
    true {[ 0 := Transport.mkDepartureCache to_stadium t0 ]}.

Definition homme_de_fer_data : StopData :=
  mkStopData 0 "Homme de Fer" "A" "#e10d19" "#ffffff" to_stadium.

Definition discovery_answer : list Transport.AnnotatedStopPointRef :=
  [Transport.mkAnnotatedStopPointRef "ref-1" "Homme de Fer"
     [Transport.mkApiLine "D" [["Kehl"]] "007a3d" "ffffff";
      Transport.mkApiLine "A" [["Graffenstaden"]; ["Parc des Sports"]] "e10d19" "ffffff"]].

Definition cts_discovery
  : Transport.TransportSource -> M Clock (list Transport.AnnotatedStopPointRef + string) :=
  fun _ w => (inl discovery_answer, w).

Definition cts_up
  : Transport.TransportSource -> Transport.stopInfo -> M Clock (list Destination + string) :=
  fun _ _ w => (inl to_stadium, w).

Definition cts_down
  : Transport.TransportSource -> Transport.stopInfo -> M Clock (list Destination + string) :=
  fun _ _ w => (inr "timeout"%string, w).
(** A source whose upstream works for the first minute after [t0] and times
    out afterwards. *)
Definition alpha_flaky : Source Clock :=
  mkSource "alpha"
    (fun c => if reading c <? t0 + Minute
              then NewResponse (OpaquePayload "P1") (2 * Minute) c
              else ErrorResponse "timeout" Minute c)
    (48 * Hour).

(** *** The [/api/transport/live] handler of [main], from the query string *)

(** [strconv.Atoi] on a 64-bit platform: an optional sign, then decimal
    digits only, and a value that fits [int]; [None] is the error. *)
Definition digitValue (c : ascii) : option Z :=
  let n := Z.of_N (N_of_ascii c) in
  if (48 <=? n) && (n <=? 57) then Some (n - 48) else None.

Fixpoint parseDigits (s : string) (acc : Z) : option Z :=
  match s with
  | EmptyString => Some acc
  | String c rest =>
      match digitValue c with
      | Some d => parseDigits rest (10 * acc + d)
      | None => None
      end
  end.

Definition parseUnsigned (s : string) : option Z :=
  match s with
  | EmptyString => None
  | _ => parseDigits s 0
  end.

Definition Atoi (s : string) : option Z :=
  let parsed :=
    match s with
    | String "+" rest => parseUnsigned rest
    | String "-" rest => Z.opp <$> parseUnsigned rest
    | _ => parseUnsigned s
    end in
  match parsed with
  | Some n => if (- 2 ^ 63 <=? n) && (n <? 2 ^ 63) then Some n else None
  | None => None
  end.

Section LiveQuery.
Context {W : Type} {HW : World W}.
Variable stopMonitoring :
  Transport.TransportSource -> Transport.stopInfo -> M W (list Destination + string).

(** The handler: [idStr] is [r.URL.Query().Get("id")]. *)
Definition liveEndpoint (idStr : string)
  : MP (Sys (Transport.TransportSource * W)) Response :=
  match Atoi idStr with
  | None => total (inWorld (ErrorResponse "invalid id" Minute))
  | Some id => liveHandler stopMonitoring id
  end.

End LiveQuery.


(** A goroutine that has its response has it from the cache: the response is
    the current entry of its source, and once stored it is the entry of
    [results] under the goroutine's key. *)
Definition settled {W : Type} (s : Sys W) (res : gmap string Response)
    (g : goroutine (W := W)) : Prop :=
  match g_pc g with
  | AtStore r => currentOf s (Name (g_src g)) = Some r
  | Finished =>
      exists r, res !! g_name g = Some r /\ currentOf s (Name (g_src g)) = Some r
  | _ => True
  end.

(** No two goroutines share a key of [results] or a key of the cache. *)
Definition apart {W : Type} (l : list (goroutine (W := W))) : Prop :=
  forall i j g g', l !! i = Some g -> l !! j = Some g' -> i <> j ->
    g_name g <> g_name g' /\ Name (g_src g) <> Name (g_src g').

(** ** [strings], [sort] and [fmt], as far as the sources use them *)

Module Strings.

(** [strings.Split(s, sep)] for a separator of one byte: the pieces of [s]
    between the occurrences of [sep]; the result is never empty. *)
Fixpoint Split (s : string) (sep : ascii) : list string :=
  match s with
  | EmptyString => [EmptyString]
  | String c r =>
      if Ascii.eqb c sep then EmptyString :: Split r sep
      else match Split r sep with
           | h :: t => String c h :: t
           | [] => [String c EmptyString]
           end
  end.

(** The order of [sort.Strings] and of [<=] on strings: byte by byte. *)
Definition le (a b : string) : Prop := String.leb a b = true.
Definition lt (a b : string) : Prop := String.ltb a b = true.

#[export] Instance le_dec : RelDecision le := fun a b => decide (String.leb a b = true).

(** [sort.Strings(keys)]: the sorted permutation of [keys], which is unique
    since strings that compare equal are equal. *)
Definition sortStrings (keys : list string) : list string := merge_sort le keys.

(** [%d] *)
Definition formatInt (n : Z) : string := NilZero.string_of_int (Z.to_int n).

(** [%02d]: zeros up to a width of two, the sign counted in the width. *)
Definition formatInt02 (n : Z) : string :=
  if (0 <=? n) && (n <? 10) then String "0" (formatInt n) else formatInt n.

(** [strings.SplitN(s, sep, n)] for a separator of one byte and [n >= 0]: at
    most [n] pieces, the last one the rest of [s]. *)
Fixpoint cut (s : string) (sep : ascii) : option (string * string) :=
  match s with
  | EmptyString => None
  | String c r =>
      if Ascii.eqb c sep then Some (EmptyString, r)
      else match cut r sep with
           | Some (a, b) => Some (String c a, b)
           | None => None
           end
  end.

Fixpoint SplitN (s : string) (sep : ascii) (n : nat) : list string :=
  match n with
  | O => []
  | S O => [s]
  | S n' =>
      match cut s sep with
      | None => [s]
      | Some (a, b) => a :: SplitN b sep n'
      end
  end.

(** [strings.Join(elems, sep)] *)
Fixpoint Join (elems : list string) (sep : string) : string :=
  match elems with
  | [] => EmptyString
  | [a] => a
  | a :: rest => a ++ sep ++ Join rest sep
  end.

(** The table [asciiSpace] and the bound [utf8.RuneSelf]. *)
Definition asciiSpace (c : ascii) : bool :=
  let n := N_of_ascii c in
  ((9 <=? n) && (n <=? 13) || (n =? 32))%N.

Definition isASCII (c : ascii) : bool := (N_of_ascii c <? 128)%N.

Section TrimSpace.

(** [strings.TrimFunc(s, unicode.IsSpace)] and
    [strings.TrimRightFunc(s, unicode.IsSpace)], which [TrimSpace] falls back
    on when it meets a byte that is not ASCII. *)
Variable TrimFunc_IsSpace : string -> string.
Variable TrimRightFunc_IsSpace : string -> string.

(** The second loop of [TrimSpace], on the bytes of [s[start:stop]] from the
    last one. *)
Fixpoint trimEnd (bytes : list ascii) : string :=
  match bytes with
  | [] => EmptyString
  | c :: front =>
      if negb (isASCII c) then
        TrimRightFunc_IsSpace (string_of_list_ascii (rev bytes))
      else if asciiSpace c then trimEnd front
      else string_of_list_ascii (rev bytes)
  end.

Fixpoint TrimSpace (s : string) : string :=
  match s with
  | EmptyString => EmptyString
  | String c r =>
      if negb (isASCII c) then TrimFunc_IsSpace s
      else if asciiSpace c then TrimSpace r
      else trimEnd (rev (list_ascii_of_string s))
  end.

End TrimSpace.

End Strings.

(** ** source_electricity.go: the consumption history *)

Module Consumptions.

Section Parse.

(** [float64], with [toInt value] for [int(value + 0.5)]. *)
Variable float64 : Type.
Variable toInt : float64 -> Z.

(** The order in which [range] goes through a map. *)
Variable order : forall A : Type, gmap string A -> list (string * A).

Record journaliere := mkJournaliere {
  j_Date : string;
  j_Consommation : option float64
}.

Record mensuelle := mkMensuelle {
  m_Annee : Z;
  m_Mois : Z;
  m_Consommation : float64
}.

Record poste := mkPoste {
  Mnemo : string;
  ConsommationsJournalieres : list journaliere;
  ConsommationsMensuelles : list mensuelle
}.

(** [contract.BlocFournisseur.PostesHorosaisonnier] *)
Definition consumptionPeriod : Type := list poste.

(** The [switch tariff] of [aggregateConsumption]. *)
Definition assign (tariff : string) (v : Z) (c : Consumption) : Consumption :=
  if String.eqb tariff "HC" then
    mkConsumption (cons_Date c) (Some v) (cons_HP c) (cons_BCHC c) (cons_BCHP c)
                  (cons_BUHC c) (cons_BUHP c) (cons_RHC c) (cons_RHP c)
  else if String.eqb tariff "HP" then
    mkConsumption (cons_Date c) (cons_HC c) (Some v) (cons_BCHC c) (cons_BCHP c)
                  (cons_BUHC c) (cons_BUHP c) (cons_RHC c) (cons_RHP c)
  else if String.eqb tariff "BCHC" then
    mkConsumption (cons_Date c) (cons_HC c) (cons_HP c) (Some v) (cons_BCHP c)
                  (cons_BUHC c) (cons_BUHP c) (cons_RHC c) (cons_RHP c)
  else if String.eqb tariff "BCHP" then
    mkConsumption (cons_Date c) (cons_HC c) (cons_HP c) (cons_BCHC c) (Some v)
                  (cons_BUHC c) (cons_BUHP c) (cons_RHC c) (cons_RHP c)
  else if String.eqb tariff "BUHC" then
    mkConsumption (cons_Date c) (cons_HC c) (cons_HP c) (cons_BCHC c) (cons_BCHP c)
                  (Some v) (cons_BUHP c) (cons_RHC c) (cons_RHP c)
  else if String.eqb tariff "BUHP" then
    mkConsumption (cons_Date c) (cons_HC c) (cons_HP c) (cons_BCHC c) (cons_BCHP c)
                  (cons_BUHC c) (Some v) (cons_RHC c) (cons_RHP c)
  else if String.eqb tariff "RHC" then
    mkConsumption (cons_Date c) (cons_HC c) (cons_HP c) (cons_BCHC c) (cons_BCHP c)
                  (cons_BUHC c) (cons_BUHP c) (Some v) (cons_RHP c)
  else if String.eqb tariff "RHP" then
    mkConsumption (cons_Date c) (cons_HC c) (cons_HP c) (cons_BCHC c) (cons_BCHP c)
                  (cons_BUHC c) (cons_BUHP c) (cons_RHC c) (Some v)
  else c.

(** The loop over [m[k]]. *)
Definition fill (entries : list (string * float64)) (c : Consumption) : Consumption :=
  foldl (fun c e => let v := toInt e.2 in if v =? 0 then c else assign e.1 v c)
        c entries.

(** [keys[len(keys)-limit:]] panics when [limit] is negative. *)
Definition aggregateConsumption (m : gmap string (gmap string float64)) (limit : Z) : option (list Consumption) :=
  let keys := Strings.sortStrings (order _ m).*1 in
  let n := Z.of_nat (List.length keys) in
  let kept :=
    if limit <? n then
      if limit <? 0 then None else Some (drop (Z.to_nat (n - limit)) keys)
    else Some keys in
  match kept with
  | None => None
  | Some keys =>
      Some ((fun k => fill (order _ (default ∅ (m !! k)))
                           (mkConsumption k None None None None None None None None))
              <$> keys)
  end.

(** [if m[key] == nil { m[key] = make(...) }; m[key][tariff] = value] *)
Definition put (key tariff : string) (value : float64) (m : gmap string (gmap string float64)) : gmap string (gmap string float64) :=
  <[key := <[tariff := value]> (default ∅ (m !! key))]> m.

Definition journee (tariff : string) (daily : gmap string (gmap string float64)) (c : journaliere) : gmap string (gmap string float64) :=
  match j_Consommation c with
  | None => daily
  | Some value =>
      match Strings.Split (j_Date c) "/" with
      | [d; m; y] => put (y ++ "-" ++ m ++ "-" ++ d) tariff value daily
      | _ => daily
      end
  end.

Definition mois (tariff : string) (monthly : gmap string (gmap string float64)) (c : mensuelle) : gmap string (gmap string float64) :=
  put (Strings.formatInt (m_Annee c) ++ "-" ++ Strings.formatInt02 (m_Mois c))
      tariff (m_Consommation c) monthly.

Definition releve (acc 
  : gmap string (gmap string float64) * gmap string (gmap string float64)) (p : poste) 
  : gmap string (gmap string float64) * gmap string (gmap string float64) :=
  if String.eqb (Mnemo p) "" then acc
  else (foldl (journee (Mnemo p)) acc.1 (ConsommationsJournalieres p),
        foldl (mois (Mnemo p)) acc.2 (ConsommationsMensuelles p)).

(** The two maps [daily] and [monthly] after the loops. *)
Definition gather (contracts : list consumptionPeriod) 
  : gmap string (gmap string float64) * gmap string (gmap string float64) :=
  foldl (fun acc contract => foldl releve acc contract) (∅, ∅) contracts.

Definition parseConsumption (contracts : list consumptionPeriod) : option ElectricityData :=
  let maps := gather contracts in
  match aggregateConsumption maps.1 14 with
  | None => None
  | Some days =>
      match aggregateConsumption maps.2 2 with
      | None => None
      | Some months => Some (mkElectricityData days months)
      end
  end.

End Parse.

Arguments mkJournaliere {float64}.
Arguments mkMensuelle {float64}.
Arguments mkPoste {float64}.
Arguments j_Date {float64}.
Arguments j_Consommation {float64}.
Arguments Mnemo {float64}.
Arguments ConsommationsJournalieres {float64}.
Arguments ConsommationsMensuelles {float64}.

(** The tariffs a point has a field for, and the field of a tariff. *)
Definition tariffs : list string :=
  ["HC"; "HP"; "BCHC"; "BCHP"; "BUHC"; "BUHP"; "RHC"; "RHP"]%string.

Definition tariffOf (c : Consumption) (tariff : string) : option Z :=
  if String.eqb tariff "HC" then cons_HC c
  else if String.eqb tariff "HP" then cons_HP c
  else if String.eqb tariff "BCHC" then cons_BCHC c
  else if String.eqb tariff "BCHP" then cons_BCHP c
  else if String.eqb tariff "BUHC" then cons_BUHC c
  else if String.eqb tariff "BUHP" then cons_BUHP c
  else if String.eqb tariff "RHC" then cons_RHC c
  else if String.eqb tariff "RHP" then cons_RHP c
  else None.

(** The order of the points of a list. *)
Definition by_date (a b : Consumption) : Prop :=
  Strings.lt (cons_Date a) (cons_Date b).

(** What a point shows for a tariff: the rounded reading, unless it is 0. *)
Definition rounded {float64 : Type} (toInt : float64 -> Z)
    (inner : gmap string float64) (tariff : string) : option Z :=
  x ← inner !! tariff; if toInt x =? 0 then None else Some (toInt x).

(** [range] goes through the entries of a map, each once, in some order. *)
Definition ranges (order : forall A : Type, gmap string A -> list (string * A)) : Prop :=
  forall (A : Type) (m : gmap string A), order A m ≡ₚ map_to_list m.

(** The date, as [parseConsumption] writes it, of a daily reading that is
    kept: one with a value and a date of three parts. *)
Definition dateOf {float64 : Type} (c : journaliere float64) : list string :=
  match j_Consommation c, Strings.Split (j_Date c) "/" with
  | Some _, [d; m; y] => [(y ++ "-" ++ m ++ "-" ++ d)%string]
  | _, _ => []
  end.

Definition datesOf {float64 : Type} (p : poste float64) : list string :=
  if String.eqb (Mnemo p) "" then [] else ConsommationsJournalieres p ≫= dateOf.

(** The dates of the daily readings kept: those of the tariffs with a name. *)
Definition readingDates {float64 : Type} (contracts : list (consumptionPeriod float64))
  : list string :=
  contract ← contracts; p ← contract; datesOf p.

End Consumptions.

(** A history to run the parser on: readings in whole units, for which
    [int(value + 0.5)] is the value itself, and two orders of [range]. *)
Definition whole (value : Z) : Z := value.

Definition forwards (A : Type) (m : gmap string A) : list (string * A) :=
  map_to_list m.

Definition backwards (A : Type) (m : gmap string A) : list (string * A) :=
  reverse (map_to_list m).

Definition sample_readings : gmap string (gmap string Z) :=
  {[ "2024-03-01"%string := {[ "HC"%string := 3; "HP"%string := 0 ]};
     "2024-03-02"%string := {[ "HP"%string := 7; "EJP"%string := 4 ]};
     "2024-02-29"%string := {[ "HC"%string := 1 ]} ]}.

Definition sample_contracts : list (Consumptions.consumptionPeriod Z) :=
  [[Consumptions.mkPoste "HC"
      [Consumptions.mkJournaliere "01/03/2024" (Some 3);
       Consumptions.mkJournaliere "29/02/2024" (Some 1);
       Consumptions.mkJournaliere "2024-03-04" (Some 5);
       Consumptions.mkJournaliere "02/03/2024" None]
      [Consumptions.mkMensuelle 2024 3 40; Consumptions.mkMensuelle 2024 2 35;
       Consumptions.mkMensuelle 2023 12 50];
    Consumptions.mkPoste ""
      [Consumptions.mkJournaliere "05/03/2024" (Some 9)] []]].


(** ** The configuration of the transport source *)

Module TransportConfig.

(** The fields of [Config] that [NewTransportSource] reads. *)
Record Config := mkConfig {
  TransportAPIURL : string;
  TransportAPIKey : string;
  TransportStops : string
}.

Section New.

Variable TrimFunc_IsSpace : string -> string.
Variable TrimRightFunc_IsSpace : string -> string.

(** The body of the loop over the entries. *)
Definition addStop (stops : list Transport.stopInfo) (entry : string)
  : list Transport.stopInfo :=
  match Strings.SplitN
          (Strings.TrimSpace TrimFunc_IsSpace TrimRightFunc_IsSpace entry) "," 3 with
  | [line; name; stopRef] =>
      stops ++ [Transport.mkStopInfo line name stopRef EmptyString EmptyString]
  | _ => stops
  end.

Definition NewTransportSource (cfg : Config) : Transport.TransportSource :=
  Transport.mkTransportSource
    (TransportAPIURL cfg) (TransportAPIKey cfg)
    (foldl addStop [] (Strings.Split (TransportStops cfg) ";"))
    false ∅.

End New.

(** An entry of [TRANSPORT_STOPS] as one writes it: line, stop name and
    destination, with blanks before and after. *)
Record entry := mkEntry {
  e_before : string;
  e_line : string;
  e_name : string;
  e_destination : string;
  e_after : string
}.

Definition body (e : entry) : string :=
  (e_line e ++ "," ++ e_name e ++ "," ++ e_destination e)%string.

Definition render (e : entry) : string :=
  (e_before e ++ body e ++ e_after e)%string.

Fixpoint hasByte (c : ascii) (s : string) : bool :=
  match s with
  | EmptyString => false
  | String x r => Ascii.eqb x c || hasByte c r
  end.

Fixpoint blank (s : string) : bool :=
  match s with
  | EmptyString => true
  | String x r => Strings.asciiSpace x && blank r
  end.

(** A byte [TrimSpace] stops at: ASCII, and not a space. *)
Definition solid (c : ascii) : bool :=
  Strings.isASCII c && negb (Strings.asciiSpace c).

Definition firstSolid (s : string) : bool :=
  match s with
  | EmptyString => false
  | String c _ => solid c
  end.

Definition lastSolid (s : string) : bool :=
  match rev (list_ascii_of_string s) with
  | [] => false
  | c :: _ => solid c
  end.

(** Line and name without [,] and [;], a destination without [;], blanks of
    ASCII around, and a first and a last byte that are ASCII. *)
Definition wellFormed (e : entry) : bool :=
  blank (e_before e) && blank (e_after e)
  && negb (hasByte "," (e_line e)) && negb (hasByte ";" (e_line e))
  && negb (hasByte "," (e_name e)) && negb (hasByte ";" (e_name e))
  && negb (hasByte ";" (e_destination e))
  && firstSolid (body e) && lastSolid (body e).

Definition stopOf (e : entry) : Transport.stopInfo :=
  Transport.mkStopInfo (e_line e) (e_name e) (e_destination e) EmptyString EmptyString.

Definition sample_entries : list entry :=
  [mkEntry "" "A" "Homme de Fer" "Parc des Sports" "";
   mkEntry " " "C1" "Gare Centrale" "Neuhof, Rodolphe Reuss" " "].

End TransportConfig.


(** ** source_electricity.go: authentication *)

Module ElectricityAuth.

(** The fields of [ElectricitySource] that authentication keeps. *)
Record session := mkSession {
  accessToken : string;
  tokenExpiry : Time;
  servicePointID : string
}.

(** The answer of the token endpoint. *)
Record tokenResponse := mkTokenResponse {
  tr_AccessToken : string;
  tr_TokenType : string;
  tr_ExpiresIn : Z;
  tr_Error : string
}.

Section Upstream.
Context {W : Type} {HW : World W}.

(** The requests, each with its decoded answer or [err.Error()]:
    [generatePKCE()], [s.login()], [s.authorize(cookie, challenge)], the
    [PostForm] of [exchangeToken] (code, verifier), the [GetJSON] of
    [fetchServicePoint] with the IDs it lists (authorization header), and
    [s.fetchConsumption()]. *)
Variable generatePKCE : M W (string * string).
Variable login : M W (string + string).
Variable authorize : string -> string -> M W (string + string).
Variable postToken : string -> string -> M W (tokenResponse + string).
Variable getServicePoints : string -> M W (list string + string).
Variable fetchConsumption : session -> M W (ElectricityData + string).

Definition self : M (session * W) session := fun sw => (fst sw, sw).

Definition upstream {A : Type} (m : M W A) : M (session * W) A :=
  fun sw => let (a, w) := m (snd sw) in (a, (fst sw, w)).

Definition put (s : session) : M (session * W) unit := fun sw => (tt, (s, snd sw)).

(** An [error] is [None] for [nil]. *)
Definition exchangeToken (code verifier : string) : M (session * W) (option string) :=
  let! posted := upstream (postToken code verifier) in
  match posted with
  | inr err => ret (Some err)
  | inl resp =>
      if negb (String.eqb (tr_Error resp) "") then ret (Some (tr_Error resp))
      else
        let! s := self in
        let! now := time_Now in
        let! _ := put (mkSession (tr_TokenType resp ++ " " ++ tr_AccessToken resp)
                                 (Add now (tr_ExpiresIn resp * Second))
                                 (servicePointID s)) in
        ret None
  end.

Definition fetchServicePoint : M (session * W) (option string) :=
  let! s := self in
  let! listed := upstream (getServicePoints (accessToken s)) in
  match listed with
  | inr err => ret (Some err)
  | inl [] => ret (Some "no service point found"%string)
  | inl (id :: _) =>
      let! _ := put (mkSession (accessToken s) (tokenExpiry s) id) in
      ret None
  end.

Definition ensureAuth : M (session * W) (option string) :=
  let! s := self in
  let! valid :=
    if negb (String.eqb (accessToken s) "") then
      let! now := time_Now in
      ret (Before (Add now (5 * Minute)) (tokenExpiry s))
    else ret false in
  if valid then ret None
  else
    let! pkce := upstream generatePKCE in
    let! cookie := upstream login in
    match cookie with
    | inr err => ret (Some ("login: " ++ err)%string)
    | inl cookie =>
        let! code := upstream (authorize cookie (snd pkce)) in
        match code with
        | inr err => ret (Some ("authorize: " ++ err)%string)
        | inl code =>
            let! failed := exchangeToken code (fst pkce) in
            match failed with
            | Some err => ret (Some ("token: " ++ err)%string)
            | None =>
                (* the log line reads the clock: [time.Until(s.tokenExpiry)] *)
                let! _ := time_Now in
                let! s := self in
                if String.eqb (servicePointID s) "" then
                  let! failed := fetchServicePoint in
                  match failed with
                  | Some err => ret (Some ("service point: " ++ err)%string)
                  | None => ret None
                  end
                else ret None
            end
        end
    end.

(** [ensureAuth] past the check of the token, to state what signing in
    does. *)
Definition signIn : M (session * W) (option string) :=
  let! pkce := upstream generatePKCE in
  let! cookie := upstream login in
  match cookie with
  | inr err => ret (Some ("login: " ++ err)%string)
  | inl cookie =>
      let! code := upstream (authorize cookie (snd pkce)) in
      match code with
      | inr err => ret (Some ("authorize: " ++ err)%string)
      | inl code =>
          let! failed := exchangeToken code (fst pkce) in
          match failed with
          | Some err => ret (Some ("token: " ++ err)%string)
          | None =>
              let! _ := time_Now in
              let! s := self in
              if String.eqb (servicePointID s) "" then
                let! failed := fetchServicePoint in
                match failed with
                | Some err => ret (Some ("service point: " ++ err)%string)
                | None => ret None
                end
              else ret None
          end
      end
  end.

Definition fetchData : M (session * W) (ElectricityData + string) :=
  let! failed := ensureAuth in
  match failed with
  | Some err => ret (inr ("auth: " ++ err)%string)
  | None =>
      let! s := self in
      upstream (fetchConsumption s)
  end.

End Upstream.

(** A newly created source. *)
Definition fresh_session : session := mkSession "" 0 "".

(** An upstream that signs in and gives a token for an hour, but fails to
    list the service points. *)
Definition pkce_ok : M Clock (string * string) := ret ("verifier"%string, "challenge"%string).
Definition login_ok : M Clock (string + string) := ret (inl "cookie"%string).
Definition authorize_ok (cookie challenge : string) : M Clock (string + string) :=
  ret (inl "code"%string).
Definition token_ok (code verifier : string) : M Clock (tokenResponse + string) :=
  ret (inl (mkTokenResponse "abc" "Bearer" 3600 "")).
Definition points_down (token : string) : M Clock (list string + string) :=
  ret (inr "request failed"%string).
Definition consumption_of (s : session) : M Clock (ElectricityData + string) :=
  ret (inr ("no data for [" ++ servicePointID s ++ "]")%string).

End ElectricityAuth.

(** ** The Tempo calendar request (fetchData of the tempo source) *)

Module TempoData.

(** An element of [tempo_like_calendars.values]. *)
Record calendarValue := mkCalendarValue {
  StartDate : string;
  Value : string
}.

(** [s[:10]], which panics on a string of fewer than ten bytes. *)
Definition first10 (s : string) : option string :=
  if (String.length s <? 10)%nat then None else Some (substring 0 10 s).

Section Upstream.
Context {W : Type} {HW : World W}.

(** [s.authenticate()]; the [GetJSON] of the calendar from [today] to
    [endDate] with a token, with the values decoded; and [strings.ToLower]. *)
Variable authenticate : Tempo.TempoSource -> M W (string + string).
Variable getCalendars :
  Tempo.TempoSource -> Time -> Time -> string -> M W (list calendarValue + string).
Variable ToLower : string -> string.

(** The loop that fills [data]. *)
Fixpoint days (values : list calendarValue) (data : list TempoDay)
  : option (list TempoDay) :=
  match values with
  | [] => Some data
  | v :: rest =>
      match first10 (StartDate v) with
      | None => None
      | Some date => days rest (data ++ [mkTempoDay date (ToLower (Value v))])
      end
  end.

Definition fetchData (s : Tempo.TempoSource) : MP W (list TempoDay + string) :=
  let? token := total (authenticate s) in
  match token with
  | inr err => retP (inr ("auth: " ++ err)%string)
  | inl token =>
      let? now := total time_Now in
      let today :=
        Date (YearOf (Tempo.loc s) now) (MonthOf (Tempo.loc s) now)
             (DayOf (Tempo.loc s) now) 0 0 0 0 (Tempo.loc s) in
      let endDate := AddDate (Tempo.loc s) today 0 0 2 in
      let? got := total (getCalendars s today endDate token) in
      match got with
      | inr err => retP (inr err)
      | inl values =>
          if (List.length values =? 0)%nat then retP (inr "no tempo data"%string)
          else fun w =>
                 match days values [] with
                 | None => None
                 | Some data => Some (inl data, w)
                 end
      end
  end.

End Upstream.

(** The day of a value, when its date is long enough. *)
Definition dayOf (ToLower : string -> string) (v : calendarValue) (d : TempoDay) : Prop :=
  String.length (td_Date d) = 10%nat
  /\ String.prefix (td_Date d) (StartDate v) = true
  /\ td_Color d = ToLower (Value v).

End TempoData.

(** * Proofs *)

(** ** The calendar *)

Section Calendar.

Lemma doe_range z :
  0 <= z + 719468 - (z + 719468) / 146097 * 146097 <= 146096.
Proof. Z.div_mod_to_equations. lia. Qed.

Lemma yoe_range doe :
  0 <= doe <= 146096 ->
  0 <= (doe - doe / 1460 + doe / 36524 - doe / 146096) / 365 < 400.
Proof. intros Hd. Z.div_mod_to_equations. lia. Qed.

Lemma doy_range doe :
  0 <= doe <= 146096 ->
  let yoe := (doe - doe / 1460 + doe / 36524 - doe / 146096) / 365 in
  0 <= doe - (365 * yoe + yoe / 4 - yoe / 100) <= 365.
Proof. intros Hd. cbv zeta. Z.div_mod_to_equations. lia. Qed.

(** The date of a day number counts back to that day number. *)
Lemma days_from_civil_from_days z :
  days_from_civil (civil_from_days z).1.1 (civil_from_days z).1.2 (civil_from_days z).2 = z.
Proof.
  unfold civil_from_days.
  set (z' := z + 719468).
  set (era := z' / 146097).
  set (doe := z' - era * 146097).
  pose proof (doe_range z) as Hdoe. fold z' era doe in Hdoe.
  pose proof (yoe_range doe Hdoe) as Hyoe.
  pose proof (doy_range doe Hdoe) as Hdoy. cbv zeta in Hdoy.
  set (yoe := (doe - doe / 1460 + doe / 36524 - doe / 146096) / 365) in *.
  set (doy := doe - (365 * yoe + yoe / 4 - yoe / 100)) in *.
  set (mp := (5 * doy + 2) / 153).
  assert (Hmp : 0 <= mp <= 11) by (subst mp; Z.div_mod_to_equations; lia).
  cbv zeta. cbn [fst snd]. unfold days_from_civil.
  destruct (Z.ltb_spec mp 10) as [Hlt | Hge].
  - replace (mp + 3 <=? 2) with false by (symmetry; apply Z.leb_gt; lia).
    replace (2 <? mp + 3) with true by (symmetry; apply Z.ltb_lt; lia).
    replace ((yoe + era * 400) / 400) with era by (Z.div_mod_to_equations; lia).
    replace (mp + 3 - 3) with mp by lia.
    replace (yoe + era * 400 - era * 400) with yoe by lia.
    unfold doy, doe, z'. lia.
  - replace (mp - 9 <=? 2) with true by (symmetry; apply Z.leb_le; lia).
    replace (2 <? mp - 9) with false by (symmetry; apply Z.ltb_ge; lia).
    replace (yoe + era * 400 + 1 - 1) with (yoe + era * 400) by lia.
    replace ((yoe + era * 400) / 400) with era by (Z.div_mod_to_equations; lia).
    replace (mp - 9 + 9) with mp by lia.
    replace (yoe + era * 400 - era * 400) with yoe by lia.
    unfold doy, doe, z'. lia.
Qed.

Lemma month_range z : 1 <= (civil_from_days z).1.2 <= 12.
Proof.
  unfold civil_from_days.
  set (z' := z + 719468).
  set (era := z' / 146097).
  set (doe := z' - era * 146097).
  pose proof (doe_range z) as Hdoe. fold z' era doe in Hdoe.
  pose proof (doy_range doe Hdoe) as Hdoy. cbv zeta in Hdoy.
  set (yoe := (doe - doe / 1460 + doe / 36524 - doe / 146096) / 365) in *.
  set (doy := doe - (365 * yoe + yoe / 4 - yoe / 100)) in *.
  set (mp := (5 * doy + 2) / 153).
  assert (Hmp : 0 <= mp <= 11) by (subst mp; Z.div_mod_to_equations; lia).
  cbn [fst snd].
  destruct (Z.ltb_spec mp 10); lia.
Qed.

(** [days_from_civil] is linear in the day of the month. *)
Lemma days_from_civil_shift y m d k :
  days_from_civil y m (d + k) = days_from_civil y m d + k.
Proof. unfold days_from_civil. lia. Qed.

(** From 01:00 UTC to midnight UTC of one day, Paris is in one zone
    period: its transitions happen at 01:00 UTC. *)
Lemma paris_window n u :
  n * secondsPerDay + secondsPerHour <= u < (n + 1) * secondsPerDay ->
  paris_lookup u = paris_lookup (n * secondsPerDay + secondsPerHour).
Proof.
  unfold secondsPerDay, secondsPerHour. intros Hu.
  unfold paris_lookup, secondsPerDay.
  replace (u / 86400) with n by (Z.div_mod_to_equations; lia).
  replace ((n * 86400 + 3600) / 86400) with n by (Z.div_mod_to_equations; lia).
  set (y := (civil_from_days n).1.1).
  unfold dst_start, dst_end, secondsPerDay, secondsPerHour.
  generalize (last_sunday y 3) (last_sunday y 10).
  generalize (last_sunday (y - 1) 10) (last_sunday (y + 1) 3).
  intros c d a b.
  destruct (Z.ltb_spec u (a * 86400 + 3600)),
           (Z.ltb_spec (n * 86400 + 3600) (a * 86400 + 3600));
    try lia; try reflexivity.
  destruct (Z.ltb_spec u (b * 86400 + 3600)),
           (Z.ltb_spec (n * 86400 + 3600) (b * 86400 + 3600));
    try lia; try reflexivity.
Qed.

Lemma paris_offset u :
  (paris_lookup u).1.1 = 3600 \/ (paris_lookup u).1.1 = 7200.
Proof.
  unfold paris_lookup.
  destruct (_ <? _); [left; reflexivity|].
  destruct (_ <? _); [right | left]; reflexivity.
Qed.

(** [time.Date] on the hour, once the fields are in range. *)
Lemma Date_on_the_hour y m d h loc :
  1 <= m <= 12 -> 0 <= h <= 23 ->
  Date y m d h 0 0 0 loc =
    let unix := days_from_civil y m d * secondsPerDay + h * secondsPerHour in
    let '(offset, start, stop) := zone_lookup loc unix in
    (unix - (if offset =? 0 then 0
             else if (unix - offset <? start) || (stop <=? unix - offset)
                  then (zone_lookup loc (unix - offset)).1.1
                  else offset)) * 1000000000.
Proof.
  intros Hm Hh.
  unfold Date, norm. cbv beta iota zeta.
  replace (y + (m - 1) / 12) with y by (Z.div_mod_to_equations; lia).
  replace ((m - 1) mod 12 + 1) with m by (Z.div_mod_to_equations; lia).
  change (0 + 0 / 1000000000) with 0.
  change (0 mod 1000000000) with 0.
  change ((0 + 0 / 60) mod 60) with 0.
  change (0 mod 60) with 0.
  change ((0 + 0 / 60) / 60) with 0.
  replace (d + (h + 0) / 24) with d by (Z.div_mod_to_equations; lia).
  replace ((h + 0) mod 24) with h by (Z.div_mod_to_equations; lia).
  replace (days_from_civil y m d * secondsPerDay + h * secondsPerHour + 0 * 60 + 0)
    with (days_from_civil y m d * secondsPerDay + h * secondsPerHour) by lia.
  destruct (zone_lookup loc _) as [[o start] stop]. lia.
Qed.

(** In Paris, a wall-clock reading from 03:00 on exists once, and
    [time.Date] returns the instant that shows it. *)
Lemma Date_Paris_wall y m d h :
  1 <= m <= 12 -> 3 <= h <= 23 ->
  let t := Date y m d h 0 0 0 Paris in
  localSec Paris t = days_from_civil y m d * secondsPerDay + h * secondsPerHour
  /\ nsecOf t = 0.
Proof.
  intros Hm Hh. cbv zeta.
  rewrite Date_on_the_hour by lia. cbv zeta.
  set (n := days_from_civil y m d).
  set (unix := n * secondsPerDay + h * secondsPerHour).
  cbn [zone_lookup Paris].
  assert (Hw : forall o, o = 3600 \/ o = 7200 ->
                         paris_lookup (unix - o) = paris_lookup unix).
  { intros o Ho.
    rewrite (paris_window n (unix - o)), (paris_window n unix); [reflexivity| |];
      unfold unix, secondsPerDay, secondsPerHour; lia. }
  pose proof (paris_offset unix) as Ho.
  destruct (paris_lookup unix) as [[o start] stop] eqn:Hl. cbn [fst snd] in Ho.
  assert (Hoff : (if o =? 0 then 0
                  else if (unix - o <? start) || (stop <=? unix - o)
                       then (paris_lookup (unix - o)).1.1 else o) = o).
  { destruct (Z.eqb_spec o 0); [lia|].
    destruct (_ || _); [|reflexivity]. rewrite (Hw o Ho). reflexivity. }
  rewrite Hoff.
  unfold localSec, zoneOffset, unixSec, nsecOf, Second, Nanosecond.
  cbn [zone_lookup Paris].
  replace ((unix - o) * 1000000000 / (1000000000 * 1)) with (unix - o)
    by (Z.div_mod_to_equations; lia).
  rewrite (Hw o Ho). cbn [fst]. split; [lia|].
  Z.div_mod_to_equations; lia.
Qed.

End Calendar.

(** ** The cache *)

Section CacheFacts.
Context {W : Type} {HW : World W}.
Implicit Types (s : Sys W) (key : string) (r : Response).

Lemma fresh_Some now r r' : fresh now r = Some r' <-> r' = r /\ now <= ExpiresAt r.
Proof.
  unfold fresh, After. destruct (Z.ltb_spec (ExpiresAt r) now); split.
  - discriminate.
  - intros [_ ?]. lia.
  - intros [= <-]. split; [reflexivity | lia].
  - intros [-> _]. reflexivity.
Qed.

Lemma Cache_Get_Some key s r :
  (Cache_Get key s).1 = Some r <->
  exists item, items (cache s) !! key = Some item /\ data item = Some r
               /\ clock s <= ExpiresAt r.
Proof.
  unfold Cache_Get, clock, bind, ret, inWorld.
  destruct (items (cache s) !! key) as [[[d|] b]|] eqn:Hk; cbn [fst snd].
  - destruct (time_Now (world s)) as [now w]. cbn [fst].
    rewrite fresh_Some. split.
    + intros [-> Hle]. eexists. split; [reflexivity|]. split; [reflexivity | exact Hle].
    + intros (item & [= <-] & Hd & Hle). cbn in Hd. injection Hd as ->. split; [reflexivity | exact Hle].
  - split; [discriminate|]. intros (item & [= <-] & Hd & _). discriminate.
  - split; [discriminate|]. intros (item & Hd & _). discriminate.
Qed.

Lemma Cache_GetBackup_Some key s r :
  (Cache_GetBackup key s).1 = Some r <->
  exists item, items (cache s) !! key = Some item /\ backup item = Some r
               /\ clock s <= ExpiresAt r.
Proof.
  unfold Cache_GetBackup, clock, bind, ret, inWorld.
  destruct (items (cache s) !! key) as [[d [b|]]|] eqn:Hk; cbn [fst snd].
  - destruct (time_Now (world s)) as [now w]. cbn [fst].
    rewrite fresh_Some. split.
    + intros [-> Hle]. eexists. split; [reflexivity|]. split; [reflexivity | exact Hle].
    + intros (item & [= <-] & Hd & Hle). cbn in Hd. injection Hd as ->. split; [reflexivity | exact Hle].
  - split; [discriminate|]. intros (item & [= <-] & Hd & _). discriminate.
  - split; [discriminate|]. intros (item & Hd & _). discriminate.
Qed.

Lemma Cache_Get_frame key s :
  cache (Cache_Get key s).2 = cache s /\ fetches (Cache_Get key s).2 = fetches s.
Proof.
  unfold Cache_Get, bind, ret, inWorld.
  destruct (items (cache s) !! key) as [[[d|] b]|]; cbn [fst snd]; try (split; reflexivity).
  destruct (time_Now (world s)). split; reflexivity.
Qed.

Lemma Cache_GetBackup_frame key s :
  cache (Cache_GetBackup key s).2 = cache s /\ fetches (Cache_GetBackup key s).2 = fetches s.
Proof.
  unfold Cache_GetBackup, bind, ret, inWorld.
  destruct (items (cache s) !! key) as [[d [b|]]|]; cbn [fst snd]; try (split; reflexivity).
  destruct (time_Now (world s)). split; reflexivity.
Qed.
End CacheFacts.

Section SetFacts.
Context {W : Type} {HW : World W}.
Implicit Types (s : Sys W) (key : string) (r resp : Response).

Lemma Cache_Set_item key resp ttl s :
  items (cache (Cache_Set key resp ttl s).2) !! key =
    Some (mkCacheItem (Some resp)
            (if failed resp then backupOf s key
             else Some (mkResponse (Data resp) (Timestamp resp) "" (Add (clock s) ttl)))).
Proof.
  unfold Cache_Set, backupOf, clock, BackupResponse, bind, ret.
  destruct (failed resp).
  - cbn. rewrite lookup_insert_eq.
    destruct (items (cache s) !! key) as [item|]; reflexivity.
  - destruct (time_Now (world s)) as [now w]. cbn. rewrite lookup_insert_eq. reflexivity.
Qed.

Lemma Cache_Set_other key resp ttl s k :
  k <> key -> items (cache (Cache_Set key resp ttl s).2) !! k = items (cache s) !! k.
Proof.
  intros Hk. unfold Cache_Set, BackupResponse, bind, ret.
  destruct (failed resp).
  - cbn. rewrite lookup_insert_ne by congruence. reflexivity.
  - destruct (time_Now (world s)) as [now w]. cbn.
    rewrite lookup_insert_ne by congruence. reflexivity.
Qed.

Lemma Cache_Set_fetches key resp ttl s :
  fetches (Cache_Set key resp ttl s).2 = fetches s.
Proof.
  unfold Cache_Set, BackupResponse, bind, ret.
  destruct (failed resp); [reflexivity|].
  destruct (time_Now (world s)). reflexivity.
Qed.

Lemma Cache_Set_backup_origin key resp ttl s :
  origin <$> backupOf (Cache_Set key resp ttl s).2 key =
    if failed resp then origin <$> backupOf s key else Some (origin resp).
Proof.
  unfold backupOf at 1. rewrite Cache_Set_item. cbn.
  destruct (failed resp); reflexivity.
Qed.

Lemma setAll_app key ops1 ops2 s :
  setAll key (ops1 ++ ops2) s = setAll key ops2 (setAll key ops1 s).2.
Proof.
  revert s. induction ops1 as [|[resp ttl] ops1 IH]; intros s; [reflexivity|].
  cbn [app setAll]. unfold bind.
  destruct (Cache_Set key resp ttl s) as [[] s1]. apply IH.
Qed.

Lemma latestSuccess_snoc ops resp ttl :
  latestSuccess (ops ++ [(resp, ttl)]) =
    if failed resp then latestSuccess ops else Some resp.
Proof.
  unfold latestSuccess. rewrite fmap_app, filter_app. cbn [fmap list_fmap fst].
  destruct (failed resp) eqn:Hf.
  - rewrite filter_cons_False by (rewrite Hf; discriminate).
    rewrite filter_nil, app_nil_r. reflexivity.
  - rewrite filter_cons_True by exact Hf.
    rewrite filter_nil. apply last_snoc.
Qed.

(** Whatever is written to a key, in any order, the backup kept under it
    carries the payload and the production timestamp of the latest
    success written, or is the backup there was when none succeeded. *)
Lemma setAll_backup key ops s :
  origin <$> backupOf (setAll key ops s).2 key =
    match latestSuccess ops with
    | Some r => Some (origin r)
    | None => origin <$> backupOf s key
    end.
Proof.
  induction ops as [|[resp ttl] ops IH] using rev_ind; [reflexivity|].
  rewrite setAll_app, latestSuccess_snoc. cbn [setAll]. unfold bind.
  destruct (Cache_Set key resp ttl _) as [[] s1] eqn:Hs. cbn [ret snd].
  replace s1 with (Cache_Set key resp ttl (setAll key ops s).2).2 by (rewrite Hs; reflexivity).
  rewrite Cache_Set_backup_origin.
  destruct (failed resp); [exact IH | reflexivity].
Qed.
End SetFacts.

(** ** Fetch-with-cache *)

Section FetchCachedFacts.
Context {W : Type} {HW : World W}.
Implicit Types (s : Sys W) (key : string) (r resp b : Response) (src : Source W).

Lemma Cache_GetBackup_frame_backup key s k :
  backupOf (Cache_GetBackup key s).2 k = backupOf s k.
Proof. unfold backupOf. destruct (Cache_GetBackup_frame key s) as [-> _]. reflexivity. Qed.

Lemma callFetch_frame src s :
  cache (callFetch src s).2 = cache s /\ fetches (callFetch src s).2 = Name src :: fetches s.
Proof. unfold callFetch. destruct (Fetch src (world s)). split; reflexivity. Qed.

Lemma Cache_GetBackup_valid key s b :
  backupOf s key = Some b -> clock s <= ExpiresAt b ->
  (Cache_GetBackup key s).1 = Some b.
Proof.
  intros Hb Hc. apply Cache_GetBackup_Some.
  unfold backupOf in Hb. destruct (items (cache s) !! key) as [item|]; [|discriminate].
  exists item. auto.
Qed.

Lemma Cache_GetBackup_invalid key s :
  backupOf s key = None \/ (exists b, backupOf s key = Some b /\ ExpiresAt b < clock s) ->
  (Cache_GetBackup key s).1 = None.
Proof.
  intros H. destruct (Cache_GetBackup key s).1 as [r|] eqn:Hr; [|reflexivity].
  apply Cache_GetBackup_Some in Hr as (item & Hi & Hb & Hc).
  unfold backupOf in H. rewrite Hi in H. cbn in H. rewrite Hb in H.
  destruct H as [H | (b & [= <-] & H)]; [discriminate | lia].
Qed.

Lemma failed_Degraded b r : failed (DegradedResponse b r) = failed r.
Proof. reflexivity. Qed.

(** The three ways through [fetchCached]. *)
Lemma fetchCached_hit src s r :
  (Cache_Get (Name src) s).1 = Some r ->
  fetchCached src s = (r, (Cache_Get (Name src) s).2).
Proof.
  intros H. unfold fetchCached, bind.
  destruct (Cache_Get (Name src) s) as [c s1]. cbn in H. subst c. reflexivity.
Qed.

Lemma fetchCached_success src s s1 s2 r :
  Cache_Get (Name src) s = (None, s1) -> callFetch src s1 = (r, s2) ->
  failed r = false ->
  fetchCached src s = (r, (Cache_Set (Name src) r (DegradedTTL src) s2).2).
Proof.
  intros H1 H2 H3. unfold fetchCached, bind. rewrite H1, H2, H3. unfold ret.
  destruct (Cache_Set _ _ _ _) as [[] s3]. reflexivity.
Qed.

Lemma fetchCached_failure src s s1 s2 r :
  Cache_Get (Name src) s = (None, s1) -> callFetch src s1 = (r, s2) ->
  failed r = true ->
  let got := Cache_GetBackup (Name src) s2 in
  let resp := match got.1 with Some b => DegradedResponse b r | None => r end in
  fetchCached src s = (resp, (Cache_Set (Name src) resp (DegradedTTL src) got.2).2).
Proof.
  intros H1 H2 H3. cbv zeta. unfold fetchCached, bind. rewrite H1, H2, H3. unfold ret.
  destruct (Cache_GetBackup (Name src) s2) as [got s3]. cbn [fst snd].
  destruct (Cache_Set _ _ _ _) as [[] s4]. reflexivity.
Qed.
End FetchCachedFacts.

Section FetchCachedStores.
Context {W : Type} {HW : World W}.
Implicit Types (s : Sys W) (key : string) (r resp b : Response) (src : Source W).

Lemma Cache_Get_valid key s r :
  currentOf s key = Some r -> clock s <= ExpiresAt r ->
  (Cache_Get key s).1 = Some r.
Proof.
  intros Hr Hc. apply Cache_Get_Some.
  unfold currentOf in Hr. destruct (items (cache s) !! key) as [item|]; [|discriminate].
  exists item. auto.
Qed.

Lemma Cache_Get_current key s r :
  (Cache_Get key s).1 = Some r -> currentOf s key = Some r.
Proof.
  intros (item & Hi & Hd & _)%Cache_Get_Some. unfold currentOf. rewrite Hi. exact Hd.
Qed.

(** Whatever way [fetchCached] takes, what it returns is the current
    entry of the source afterwards. *)
Lemma fetchCached_stores src s :
  currentOf (fetchCached src s).2 (Name src) = Some (fetchCached src s).1.
Proof.
  destruct (Cache_Get (Name src) s) as [[r|] s1] eqn:H1.
  - rewrite (fetchCached_hit src s r) by (rewrite H1; reflexivity).
    cbn [fst snd]. unfold currentOf.
    destruct (Cache_Get_frame (Name src) s) as [-> _].
    apply Cache_Get_current. rewrite H1. reflexivity.
  - destruct (callFetch src s1) as [r s2] eqn:H2.
    destruct (failed r) eqn:H3.
    + rewrite (fetchCached_failure src s s1 s2 r H1 H2 H3). cbn [fst snd].
      unfold currentOf. rewrite Cache_Set_item. reflexivity.
    + rewrite (fetchCached_success src s s1 s2 r H1 H2 H3). cbn [fst snd].
      unfold currentOf. rewrite Cache_Set_item. reflexivity.
Qed.
End FetchCachedStores.

(** ** The claims about the cache and fetch-with-cache *)

(** C1: when the cache has no fresh current entry for the source, its
    [Fetch] fails and the cache holds a backup under its name that has not
    expired, [fetchCached] returns the degraded result: payload and
    production timestamp of the backup, error message and expiry of the
    failure.  That result becomes the current entry; the backup stays. *)
Theorem fetchCached_degraded (W : Type) (HW : World W) (src : Source W)
    (s s1 s2 : Sys W) (r b : Response) :
  Cache_Get (Name src) s = (None, s1) ->
  callFetch src s1 = (r, s2) ->
  failed r = true ->
  backupOf s2 (Name src) = Some b ->
  clock s2 <= ExpiresAt b ->
  let out := fetchCached src s in
  Data out.1 = Data b /\ Timestamp out.1 = Timestamp b
  /\ Error out.1 = Error r /\ ExpiresAt out.1 = ExpiresAt r
  /\ currentOf out.2 (Name src) = Some out.1
  /\ backupOf out.2 (Name src) = Some b.
Proof.
  intros H1 H2 H3 Hb Hc. cbv zeta.
  rewrite (fetchCached_failure src s s1 s2 r H1 H2 H3).
  rewrite (Cache_GetBackup_valid _ _ _ Hb Hc). cbn [fst snd].
  unfold currentOf, backupOf at 1. rewrite Cache_Set_item, failed_Degraded, H3.
  rewrite Cache_GetBackup_frame_backup, Hb. cbn. auto 10.
Qed.

Lemma fetchCached_degraded_witness :
  let s := later (5 * Minute) (fetchCached alpha_ok alpha_cold).2 in
  Data (fetchCached alpha_down s).1 = Some (OpaquePayload "P1")
  /\ Error (fetchCached alpha_down s).1 = "timeout"%string
  /\ ExpiresAt (fetchCached alpha_down s).1 = t0 + 5 * Minute + 2 + Minute.
Proof.
  pose (s := later (5 * Minute) (fetchCached alpha_ok alpha_cold).2).
  pose (b := mkResponse (Some (OpaquePayload "P1")) "2024-11-01T03:00:00Z" "" (t0 + 2 + 48 * Hour)).
  destruct (fetchCached_degraded Clock _ alpha_down s (Cache_Get "alpha" s).2
              (callFetch alpha_down (Cache_Get "alpha" s).2).2
              (callFetch alpha_down (Cache_Get "alpha" s).2).1 b)
    as (Hd & _ & He & Hx & _); try reflexivity.
  - vm_compute. discriminate.
  - cbv zeta. fold s. rewrite Hd, He, Hx. repeat split; reflexivity.
Defined.

(** C2: [Cache_Set] always makes the result the current entry of the key; it
    replaces the backup exactly when the result is a success, by a copy with
    the same payload and production timestamp that expires [degradedTTL]
    after now; a failure leaves the backup as it was, as it leaves every
    other key.  Over any history of writes the backup therefore reflects the
    latest success. *)
Theorem Cache_Set_spec (W : Type) (HW : World W) (key : string) (resp : Response)
    (degradedTTL : Duration) (s : Sys W) :
  let s' := (Cache_Set key resp degradedTTL s).2 in
  currentOf s' key = Some resp
  /\ backupOf s' key =
       (if failed resp then backupOf s key
        else Some {| Data := Data resp; Timestamp := Timestamp resp; Error := "";
                     ExpiresAt := Add (clock s) degradedTTL |})
  /\ (forall k, k <> key -> items (cache s') !! k = items (cache s) !! k)
  /\ (forall ops : list (Response * Duration),
        origin <$> backupOf (setAll key ops s).2 key =
          match latestSuccess ops with
          | Some r => Some (origin r)
          | None => origin <$> backupOf s key
          end).
Proof.
  cbv zeta. unfold currentOf. unfold backupOf at 1. rewrite Cache_Set_item. cbn.
  split; [reflexivity|]. split; [reflexivity|].
  split; [intros k Hk; apply Cache_Set_other; exact Hk|].
  intros ops. apply setAll_backup.
Qed.

(** C3: once a first [fetchCached] has returned [r1], a second call made
    while the cache still holds that entry and the clock has not passed
    [ExpiresAt r1] returns [r1], fetches nothing and leaves the cache as it
    is. *)
Theorem fetchCached_twice (W : Type) (HW : World W) (src : Source W)
    (s s1 s2 : Sys W) (r1 : Response) :
  fetchCached src s = (r1, s1) ->
  currentOf s2 (Name src) = currentOf s1 (Name src) ->
  clock s2 <= ExpiresAt r1 ->
  (fetchCached src s2).1 = r1
  /\ fetches (fetchCached src s2).2 = fetches s2
  /\ cache (fetchCached src s2).2 = cache s2.
Proof.
  intros H1 Hsame Hc.
  pose proof (fetchCached_stores src s) as Hst. rewrite H1 in Hst. cbn [fst snd] in Hst.
  rewrite <- Hsame in Hst.
  rewrite (fetchCached_hit src s2 r1) by (apply Cache_Get_valid; assumption).
  cbn [fst snd]. destruct (Cache_Get_frame (Name src) s2) as [-> ->]. auto.
Qed.

Lemma fetchCached_twice_witness :
  let first := fetchCached alpha_ok alpha_cold in
  let second := fetchCached alpha_ok (later (30 * Second) first.2) in
  second.1 = first.1 /\ fetches second.2 = ["alpha"%string].
Proof.
  cbv zeta.
  destruct (fetchCached_twice Clock _ alpha_ok alpha_cold (fetchCached alpha_ok alpha_cold).2
              (later (30 * Second) (fetchCached alpha_ok alpha_cold).2)
              (fetchCached alpha_ok alpha_cold).1) as (Hr & Hf & _).
  - reflexivity.
  - reflexivity.
  - vm_compute. discriminate.
  - split; [exact Hr | rewrite Hf; reflexivity].
Defined.

(** C6: when [Fetch] fails with a result built by [ErrorResponse] and the
    cache has no backup for the source, or one that has expired,
    [fetchCached] returns the error and no payload at all. *)
Theorem fetchCached_failure_without_backup (W : Type) (HW : World W) (src : Source W)
    (s s1 s2 : Sys W) (r : Response) (msg : string) (ttl : Duration) (w : W) :
  Cache_Get (Name src) s = (None, s1) ->
  callFetch src s1 = (r, s2) ->
  ErrorResponse msg ttl w = (r, world s2) ->
  msg <> ""%string ->
  backupOf s2 (Name src) = None
    \/ (exists b, backupOf s2 (Name src) = Some b /\ ExpiresAt b < clock s2) ->
  let out := fetchCached src s in
  Error out.1 = msg /\ Data out.1 = None
  /\ currentOf out.2 (Name src) = Some out.1
  /\ backupOf out.2 (Name src) = backupOf s (Name src).
Proof.
  intros H1 H2 He Hmsg Hb. cbv zeta.
  assert (Hr : Error r = msg /\ Data r = None).
  { unfold ErrorResponse, bind, ret in He.
    destruct (time_Now w) as [t1 w1]. destruct (time_Now w1) as [t2 w2].
    injection He as <- _. split; reflexivity. }
  destruct Hr as [Hre Hrd].
  assert (H3 : failed r = true).
  { unfold failed. rewrite Hre. destruct (String.eqb_spec msg ""); [contradiction | reflexivity]. }
  rewrite (fetchCached_failure src s s1 s2 r H1 H2 H3).
  rewrite (Cache_GetBackup_invalid _ _ Hb). cbn [fst snd].
  unfold currentOf, backupOf at 1. rewrite Cache_Set_item, H3.
  rewrite Cache_GetBackup_frame_backup. cbn.
  split; [exact Hre|]. split; [exact Hrd|]. split; [reflexivity|].
  unfold backupOf.
  pose proof (callFetch_frame src s1) as [Hc _]. rewrite H2 in Hc. cbn in Hc. rewrite Hc.
  pose proof (Cache_Get_frame (Name src) s) as [Hc' _]. rewrite H1 in Hc'. cbn in Hc'.
  rewrite Hc'. destruct (items (cache s) !! Name src); reflexivity.
Qed.

Lemma fetchCached_failure_without_backup_witness :
  Error (fetchCached alpha_down alpha_cold).1 = "timeout"%string
  /\ Data (fetchCached alpha_down alpha_cold).1 = None.
Proof.
  destruct (fetchCached_failure_without_backup Clock _ alpha_down alpha_cold alpha_cold
              (callFetch alpha_down alpha_cold).2 (callFetch alpha_down alpha_cold).1
              "timeout" Minute (mkClock t0 1)) as (He & Hd & _).
  - reflexivity.
  - reflexivity.
  - reflexivity.
  - discriminate.
  - left. reflexivity.
  - split; assumption.
Defined.

(** C8 (as stated): the entry would stop being served at the instant it
    expires.  It does not: at [now = ExpiresAt] it is still returned. *)
Lemma Cache_Get_at_expiry :
  ~ (forall (key : string) (s : Sys Clock) (r : Response),
       (Cache_Get key s).1 = Some r <->
       exists item, items (cache s) !! key = Some item /\ data item = Some r
                    /\ clock s < ExpiresAt r).
Proof.
  intros H.
  destruct (proj1 (H "alpha" boundary_sys boundary_response)) as (item & _ & _ & Hlt).
  - reflexivity.
  - vm_compute in Hlt. discriminate.
Qed.

(** C8 (amended): [Cache_Get] returns the current entry exactly when there is
    one and now is not after its expiry ([now <= ExpiresAt]), and likewise
    [Cache_GetBackup] for the backup; neither touches the cache nor fetches. *)
Theorem Cache_reads (W : Type) (HW : World W) (key : string) (s : Sys W) :
  (forall r, (Cache_Get key s).1 = Some r <->
     exists item, items (cache s) !! key = Some item /\ data item = Some r
                  /\ clock s <= ExpiresAt r)
  /\ (forall r, (Cache_GetBackup key s).1 = Some r <->
     exists item, items (cache s) !! key = Some item /\ backup item = Some r
                  /\ clock s <= ExpiresAt r)
  /\ cache (Cache_Get key s).2 = cache s /\ fetches (Cache_Get key s).2 = fetches s
  /\ cache (Cache_GetBackup key s).2 = cache s
  /\ fetches (Cache_GetBackup key s).2 = fetches s.
Proof.
  split; [intros r; apply Cache_Get_Some|].
  split; [intros r; apply Cache_GetBackup_Some|].
  pose proof (Cache_Get_frame key s) as [? ?].
  pose proof (Cache_GetBackup_frame key s) as [? ?]. auto.
Qed.

(** ** The freshness policies of the electricity and tempo sources *)

Section Cutoffs.

Lemma atClock_fields loc day h t :
  0 <= h <= 23 -> atClock loc day h t ->
  YearOf loc t = (civil_from_days day).1.1 /\ MonthOf loc t = (civil_from_days day).1.2
  /\ DayOf loc t = (civil_from_days day).2 /\ HourOf loc t = h
  /\ MinuteOf loc t = 0 /\ SecondOf loc t = 0 /\ nsecOf t = 0.
Proof.
  intros Hh (Hd & Hs & Hn).
  unfold YearOf, MonthOf, DayOf, HourOf, MinuteOf, SecondOf. rewrite Hd, Hs.
  unfold secondsPerHour.
  split; [reflexivity|]. split; [reflexivity|]. split; [reflexivity|].
  split; [apply Z.div_mul; lia|].
  split; [rewrite Z.mod_mul by lia; reflexivity|].
  split; [|exact Hn].
  replace (h * 3600) with (h * 60 * 60) by lia. apply Z.mod_mul. lia.
Qed.

Lemma atClock_of_localSec loc day h t :
  0 <= h <= 23 ->
  localSec loc t = day * secondsPerDay + h * secondsPerHour -> nsecOf t = 0 ->
  atClock loc day h t.
Proof.
  intros Hh Hs Hn. unfold atClock, localDay, secOfDay. rewrite Hs.
  unfold secondsPerDay, secondsPerHour.
  split; [|split; [|exact Hn]]; Z.div_mod_to_equations; lia.
Qed.

Lemma todayAt_Paris now h :
  3 <= h <= 23 -> atClock Paris (localDay Paris now) h (todayAt Paris now h).
Proof.
  intros Hh. unfold todayAt, YearOf, MonthOf, DayOf.
  set (n := localDay Paris now).
  destruct (Date_Paris_wall (civil_from_days n).1.1 (civil_from_days n).1.2
              (civil_from_days n).2 h (month_range n) Hh) as [Hs Hn].
  rewrite days_from_civil_from_days in Hs.
  apply atClock_of_localSec; [lia | exact Hs | exact Hn].
Qed.

Lemma tomorrowAt_Paris now h :
  3 <= h <= 23 ->
  atClock Paris (localDay Paris now + 1) h (AddDate Paris (todayAt Paris now h) 0 0 1).
Proof.
  intros Hh.
  pose proof (todayAt_Paris now h Hh) as Ht.
  set (n := localDay Paris now) in *.
  destruct (atClock_fields Paris n h _ ltac:(lia) Ht) as (Hy & Hm & Hd & Hh' & Hmi & Hse & Hns).
  unfold AddDate. rewrite Hy, Hm, Hd, Hh', Hmi, Hse, Hns.
  rewrite !Z.add_0_r.
  destruct (Date_Paris_wall (civil_from_days n).1.1 (civil_from_days n).1.2
              ((civil_from_days n).2 + 1) h (month_range n) Hh) as [Hs Hn].
  rewrite days_from_civil_shift, days_from_civil_from_days in Hs.
  apply atClock_of_localSec; [lia | exact Hs | exact Hn].
Qed.

Lemma zoneOffset_Paris t : zoneOffset Paris t = 3600 \/ zoneOffset Paris t = 7200.
Proof. apply paris_offset. Qed.

Lemma localSec_split loc t :
  localSec loc t = localDay loc t * secondsPerDay + secOfDay loc t
  /\ 0 <= secOfDay loc t < secondsPerDay.
Proof.
  unfold localDay, secOfDay, secondsPerDay. split.
  - rewrite Z.mul_comm. apply Z.div_mod. lia.
  - apply Z.mod_pos_bound. lia.
Qed.

Lemma unixSec_lt t u : nsecOf u = 0 -> unixSec t < unixSec u -> t < u.
Proof.
  unfold nsecOf, unixSec, Second, Nanosecond. intros Hn Hlt.
  change (1000000000 * 1) with 1000000000 in *.
  pose proof (Z.div_mod t 1000000000 ltac:(lia)) as Ht.
  pose proof (Z.div_mod u 1000000000 ltac:(lia)) as Hu.
  pose proof (Z.mod_pos_bound t 1000000000 ltac:(lia)) as Hb.
  lia.
Qed.

(** Before the hour [h] of the local day, that hour of the day is still to come. *)
Lemma todayAt_Paris_future now h :
  3 <= h <= 23 -> HourOf Paris now < h -> now < todayAt Paris now h.
Proof.
  intros Hh Hnow.
  destruct (todayAt_Paris now h Hh) as (Hd & Hs & Hn).
  destruct (localSec_split Paris now) as [HL1 Hb1].
  destruct (localSec_split Paris (todayAt Paris now h)) as [HL2 _]. rewrite Hd, Hs in HL2.
  generalize dependent (todayAt Paris now h). intros e Hd Hs Hn HL2.
  generalize dependent (localDay Paris now). intros n HL1 Hd HL2.
  assert (Hsod : secOfDay Paris now < h * 3600).
  { unfold HourOf, secondsPerHour in Hnow.
    pose proof (Z.div_mod (secOfDay Paris now) 3600 ltac:(lia)).
    pose proof (Z.mod_pos_bound (secOfDay Paris now) 3600 ltac:(lia)). lia. }
  unfold secondsPerDay, secondsPerHour in *.
  unfold localSec in HL1, HL2.
  pose proof (zoneOffset_Paris now) as Ho1.
  pose proof (zoneOffset_Paris e) as Ho2.
  apply unixSec_lt; [exact Hn|].
  destruct (Z.lt_ge_cases (unixSec now) (n * 86400 + 3600)) as [Hearly | Hlate]; [lia|].
  assert (Hsame : zoneOffset Paris now = zoneOffset Paris e).
  { unfold zoneOffset. cbn [zone_lookup Paris].
    rewrite (paris_window n (unixSec now)), (paris_window n (unixSec e)); [reflexivity| |];
      unfold secondsPerDay, secondsPerHour; lia. }
  lia.
Qed.

(** [time.Date] with every field in range. *)
Lemma Date_in_range y m d h mi s ns loc :
  1 <= m <= 12 -> 0 <= h <= 23 -> 0 <= mi <= 59 -> 0 <= s <= 59 -> 0 <= ns < 1000000000 ->
  Date y m d h mi s ns loc =
    let unix := days_from_civil y m d * secondsPerDay + h * secondsPerHour + mi * 60 + s in
    let '(offset, start, stop) := zone_lookup loc unix in
    (unix - (if offset =? 0 then 0
             else if (unix - offset <? start) || (stop <=? unix - offset)
                  then (zone_lookup loc (unix - offset)).1.1
                  else offset)) * 1000000000 + ns.
Proof.
  intros Hm Hh Hmi Hs Hns.
  unfold Date, norm. cbv beta iota zeta.
  replace (y + (m - 1) / 12) with y by (Z.div_mod_to_equations; lia).
  replace ((m - 1) mod 12 + 1) with m by (Z.div_mod_to_equations; lia).
  replace (ns / 1000000000) with 0 by (Z.div_mod_to_equations; lia).
  replace (ns mod 1000000000) with ns by (Z.div_mod_to_equations; lia).
  replace (s + 0) with s by lia.
  replace (s / 60) with 0 by (Z.div_mod_to_equations; lia).
  replace (s mod 60) with s by (Z.div_mod_to_equations; lia).
  replace (mi + 0) with mi by lia.
  replace (mi / 60) with 0 by (Z.div_mod_to_equations; lia).
  replace (mi mod 60) with mi by (Z.div_mod_to_equations; lia).
  replace (h + 0) with h by lia.
  replace (h / 24) with 0 by (Z.div_mod_to_equations; lia).
  replace (h mod 24) with h by (Z.div_mod_to_equations; lia).
  replace (d + 0) with d by lia.
  reflexivity.
Qed.

(** In Paris every wall-clock reading from 03:00:00 on exists once, and
    [time.Date] returns the instant that shows it. *)
Lemma Date_Paris_reading y m d h mi s ns :
  1 <= m <= 12 -> 3 <= h <= 23 -> 0 <= mi <= 59 -> 0 <= s <= 59 -> 0 <= ns < 1000000000 ->
  let t := Date y m d h mi s ns Paris in
  localSec Paris t = days_from_civil y m d * secondsPerDay + h * secondsPerHour + mi * 60 + s
  /\ nsecOf t = ns.
Proof.
  intros Hm Hh Hmi Hs Hns. cbv zeta.
  rewrite Date_in_range by lia. cbv zeta.
  generalize (days_from_civil y m d). intros n.
  assert (Hu : n * 86400 + 3 * 3600 <=
               n * secondsPerDay + h * secondsPerHour + mi * 60 + s < (n + 1) * 86400)
    by (unfold secondsPerDay, secondsPerHour; lia).
  generalize dependent (n * secondsPerDay + h * secondsPerHour + mi * 60 + s).
  intros unix Hu.
  cbn [zone_lookup Paris].
  assert (Hw : forall o, o = 3600 \/ o = 7200 ->
                         paris_lookup (unix - o) = paris_lookup unix).
  { intros o Ho.
    rewrite (paris_window n (unix - o)), (paris_window n unix); [reflexivity| |];
      unfold secondsPerDay, secondsPerHour; lia. }
  pose proof (paris_offset unix) as Ho.
  destruct (paris_lookup unix) as [[o start] stop] eqn:Hl. cbn [fst snd] in Ho.
  assert (Hoff : (if o =? 0 then 0
                  else if (unix - o <? start) || (stop <=? unix - o)
                       then (paris_lookup (unix - o)).1.1 else o) = o).
  { destruct (Z.eqb_spec o 0); [lia|].
    destruct (_ || _); [|reflexivity]. rewrite (Hw o Ho). reflexivity. }
  rewrite Hoff.
  unfold localSec, zoneOffset, unixSec, nsecOf, Second, Nanosecond.
  cbn [zone_lookup Paris].
  change (1000000000 * 1) with 1000000000.
  replace (((unix - o) * 1000000000 + ns) / 1000000000) with (unix - o)
    by (Z.div_mod_to_equations; lia).
  rewrite (Hw o Ho). cbn [fst]. split; [lia|].
  Z.div_mod_to_equations; lia.
Qed.

Lemma clock_fields loc t :
  0 <= HourOf loc t <= 23 /\ 0 <= MinuteOf loc t <= 59 /\ 0 <= SecondOf loc t <= 59
  /\ 0 <= nsecOf t < 1000000000
  /\ secOfDay loc t = HourOf loc t * 3600 + MinuteOf loc t * 60 + SecondOf loc t.
Proof.
  unfold HourOf, MinuteOf, SecondOf, nsecOf, Second, Nanosecond, secondsPerHour.
  destruct (localSec_split loc t) as [_ Hb]. unfold secondsPerDay in Hb.
  generalize dependent (secOfDay loc t). intros sod Hb.
  change (1000000000 * 1) with 1000000000.
  Z.div_mod_to_equations. lia.
Qed.

Lemma days_from_civil_localDay loc t :
  days_from_civil (YearOf loc t) (MonthOf loc t) (DayOf loc t) = localDay loc t.
Proof. apply days_from_civil_from_days. Qed.

(** From 03:00 local time on, the day before is the previous calendar day at
    the same wall-clock reading. *)
Lemma yesterday_Paris now :
  3 <= HourOf Paris now ->
  localDay Paris (AddDate Paris now 0 0 (-1)) = localDay Paris now - 1.
Proof.
  intros Hh. unfold AddDate. rewrite !Z.add_0_r.
  destruct (clock_fields Paris now) as (Hh' & Hmi & Hs & Hns & _).
  destruct (Date_Paris_reading (YearOf Paris now) (MonthOf Paris now) (DayOf Paris now + -1)
              (HourOf Paris now) (MinuteOf Paris now) (SecondOf Paris now) (nsecOf now))
    as [HL _]; try lia.
  { apply month_range. }
  rewrite days_from_civil_shift, days_from_civil_localDay in HL.
  unfold localDay at 1. rewrite HL.
  generalize dependent (localDay Paris now). intros n _.
  unfold secondsPerDay, secondsPerHour. Z.div_mod_to_equations. lia.
Qed.

Lemma tomorrowAt_Paris_future now h :
  3 <= h <= 23 -> now < AddDate Paris (todayAt Paris now h) 0 0 1.
Proof.
  intros Hh.
  destruct (tomorrowAt_Paris now h Hh) as (Hd & Hs & Hn).
  destruct (localSec_split Paris now) as [HL1 Hb1].
  destruct (localSec_split Paris (AddDate Paris (todayAt Paris now h) 0 0 1)) as [HL2 _].
  rewrite Hd, Hs in HL2.
  generalize dependent (AddDate Paris (todayAt Paris now h) 0 0 1). intros e Hd Hs Hn HL2.
  generalize dependent (localDay Paris now). intros n HL1 Hd HL2.
  unfold secondsPerDay, secondsPerHour in *.
  unfold localSec in HL1, HL2.
  pose proof (zoneOffset_Paris now) as Ho1.
  pose proof (zoneOffset_Paris e) as Ho2.
  apply unixSec_lt; [exact Hn|]. lia.
Qed.

Lemma eqb_empty_false (x : string) : x <> ""%string -> String.eqb x "" = false.
Proof. intros H. destruct (String.eqb_spec x ""); [contradiction | reflexivity]. Qed.

End Cutoffs.

Section ElectricityPolicy.
Context {W : Type} {HW : World W}.
Variable fetchData : Electricity.ElectricitySource -> M W (ElectricityData + string).
Implicit Types (s : Electricity.ElectricitySource) (w : W).

(** Once the data is there, [Fetch] is the choice of an expiry. *)
Lemma Electricity_Fetch_fetched s w w1 w2 data now :
  Electricity.username s <> ""%string -> Electricity.password s <> ""%string ->
  fetchData s w = (inl data, w1) -> time_Now w1 = (now, w2) ->
  Electricity.Fetch fetchData s w =
    (if HourOf (Electricity.loc s) now <? 4 then
       NewResponseUntil (ElectricityPayload data) (todayAt (Electricity.loc s) now 4)
     else if Electricity.hasYesterday data
               (FormatDateOnly (Electricity.loc s) (AddDate (Electricity.loc s) now 0 0 (-1)))
     then NewResponseUntil (ElectricityPayload data)
            (AddDate (Electricity.loc s) (todayAt (Electricity.loc s) now 4) 0 0 1)
     else NewResponse (ElectricityPayload data) Electricity.electricityRetryTTL) w2.
Proof.
  intros Hu Hp Hf Hn. unfold Electricity.Fetch.
  rewrite (eqb_empty_false _ Hu), (eqb_empty_false _ Hp). cbn [orb].
  unfold bind at 1. rewrite Hf. unfold bind at 1. rewrite Hn. reflexivity.
Qed.

Lemma NewResponseUntil_fields (data : Payload) (e : Time) w :
  let r := (NewResponseUntil data e w).1 in
  Error r = ""%string /\ Data r = Some data /\ ExpiresAt r = e.
Proof.
  unfold NewResponseUntil, bind, ret. destruct (time_Now w). cbn. auto.
Qed.
End ElectricityPolicy.

Lemma yesterday_string_Paris now :
  3 <= HourOf Paris now ->
  FormatDateOnly Paris (AddDate Paris now 0 0 (-1)) = formatDate (localDay Paris now - 1).
Proof. intros Hh. unfold FormatDateOnly. rewrite yesterday_Paris by exact Hh. reflexivity. Qed.

Lemma NewResponse_fields {W : Type} {HW : World W} (data : Payload) (ttl : Duration)
    (w w1 w2 : W) (t1 t2 : Time) :
  time_Now w = (t1, w1) -> time_Now w1 = (t2, w2) ->
  NewResponse data ttl w = (mkResponse (Some data) (FormatRFC3339 t1) "" (Add t2 ttl), w2).
Proof. intros H1 H2. unfold NewResponse, bind, ret. rewrite H1, H2. reflexivity. Qed.

Section TempoPolicy.
Context {W : Type} {HW : World W}.
Variable fetchData : Tempo.TempoSource -> M W (list TempoDay + string).

Lemma Tempo_Fetch_fetched (s : Tempo.TempoSource) (w w1 w2 : W) data now :
  Tempo.authToken s <> ""%string ->
  fetchData s w = (inl data, w1) -> time_Now w1 = (now, w2) ->
  Tempo.Fetch fetchData s w =
    (if HourOf (Tempo.loc s) now <? 8 then
       NewResponseUntil (TempoPayload data) (todayAt (Tempo.loc s) now 8)
     else if 11 <=? HourOf (Tempo.loc s) now then
       NewResponseUntil (TempoPayload data)
         (AddDate (Tempo.loc s) (todayAt (Tempo.loc s) now 8) 0 0 1)
     else NewResponse (TempoPayload data) Tempo.tempoRetryTTL) w2.
Proof.
  intros Hu Hf Hn. unfold Tempo.Fetch.
  rewrite (eqb_empty_false _ Hu).
  unfold bind at 1. rewrite Hf. unfold bind at 1. rewrite Hn. reflexivity.
Qed.
End TempoPolicy.











(** X6: from 08:00 to 10:59 local time the tempo success is kept for one hour
    from the moment it is built, in any time zone. *)
Theorem Tempo_Fetch_between_cutoffs (W : Type) (HW : World W)
    (fetchData : Tempo.TempoSource -> M W (list TempoDay + string))
    (s : Tempo.TempoSource) (w w1 w2 w3 w4 : W) (data : list TempoDay)
    (now stamp built : Time) :
  Tempo.authToken s <> ""%string ->
  fetchData s w = (inl data, w1) -> time_Now w1 = (now, w2) ->
  time_Now w2 = (stamp, w3) -> time_Now w3 = (built, w4) ->
  8 <= HourOf (Tempo.loc s) now < 11 ->
  Tempo.Fetch fetchData s w =
    (mkResponse (Some (TempoPayload data)) (FormatRFC3339 stamp) "" (built + Hour), w4).
Proof.
  intros Hu Hf Hn H3 H4 Hh.
  rewrite (Tempo_Fetch_fetched fetchData s w w1 w2 data now Hu Hf Hn).
  replace (HourOf (Tempo.loc s) now <? 8) with false by (symmetry; apply Z.ltb_ge; lia).
  replace (11 <=? HourOf (Tempo.loc s) now) with false by (symmetry; apply Z.leb_gt; lia).
  rewrite (NewResponse_fields _ _ w2 w3 w4 stamp built H3 H4). reflexivity.
Qed.

Lemma Tempo_Fetch_between_cutoffs_witness :
  Tempo.Fetch (answers sample_tempo) tempo_paris (mkClock morning 1) =
    (mkResponse (Some (TempoPayload sample_tempo)) (FormatRFC3339 (morning + 1)) ""
                (morning + 2 + Hour), mkClock (morning + 3) 1).
Proof.
  apply (Tempo_Fetch_between_cutoffs Clock _ (answers sample_tempo) tempo_paris
           (mkClock morning 1) (mkClock morning 1) (mkClock (morning + 1) 1)
           (mkClock (morning + 2) 1) (mkClock (morning + 3) 1) sample_tempo morning).
  - discriminate.
  - reflexivity.
  - reflexivity.
  - reflexivity.
  - reflexivity.
  - vm_compute. split; [discriminate | reflexivity].
Defined.

(** ** The fan-out of [fetchAll] *)

Section FanOut.
Context {W : Type} {HW : World W}.
Implicit Types (p : Pool (W := W)) (g : goroutine (W := W)).

Lemma action_remaining g s res :
  runnable g = true ->
  (remaining (action g s res).1.1 < remaining (g_pc g))%nat.
Proof.
  unfold runnable, action. destruct (g_pc g); intros Hr; try discriminate.
  - destruct (Cache_Get _ s) as [[r|] s']; cbn; lia.
  - destruct (callFetch _ s) as [r s']. destruct (failed r); cbn; lia.
  - destruct (Cache_GetBackup _ s) as [b s']. cbn; lia.
  - destruct (Cache_Set _ _ _ s) as [u s']. cbn; lia.
  - cbn; lia.
Qed.

Lemma sum_list_insert (l : list nat) i x y :
  l !! i = Some x -> (sum_list (<[i := y]> l) + x = sum_list l + y)%nat.
Proof.
  revert i. induction l as [|a l IH]; intros [|i] H; try discriminate.
  - injection H as ->. cbn. lia.
  - specialize (IH i H). change (<[S i:=y]> (a :: l)) with (a :: <[i:=y]> l).
    cbn [sum_list]. lia.
Qed.

Lemma sched_work i p p' :
  sched i p = Some p' -> (work p' < work p)%nat.
Proof.
  unfold sched. destruct (threads p !! i) as [g|] eqn:Hg; [|discriminate].
  destruct (runnable g) eqn:Hr; [|discriminate].
  pose proof (action_remaining g (sys p) (results p) Hr) as Hlt.
  destruct (action g (sys p) (results p)) as [[pc' s'] res']. cbn [fst] in Hlt.
  intros [= <-]. unfold work. cbn [threads].
  rewrite list_fmap_insert. cbn [g_pc].
  pose proof (sum_list_insert ((fun g => remaining (g_pc g)) <$> threads p) i
                (remaining (g_pc g)) (remaining pc')) as Hs.
  rewrite list_lookup_fmap, Hg in Hs. specialize (Hs eq_refl). lia.
Qed.

Lemma steps_work n p p' : steps n p p' -> (work p' + n <= work p)%nat.
Proof.
  induction 1 as [p | n i p p' p'' Hs _ IH]; [lia|].
  apply sched_work in Hs. lia.
Qed.

Lemma work_spawn (sources : gmap string (Source W)) s :
  work (start sources s) = (5 * size sources)%nat.
Proof.
  unfold work, start, spawn. cbn [threads].
  rewrite <- length_map_to_list, <- list_fmap_compose.
  induction (map_to_list sources) as [|kv l IH]; [reflexivity|].
  cbn [fmap list_fmap sum_list length]. cbn in *. lia.
Qed.

Lemma unfinished_runnable (l : list goroutine) :
  Forall (fun g => g_pc g = Finished) l
  \/ exists i g, l !! i = Some g /\ runnable g = true.
Proof.
  induction l as [|g l [IH | (i & g' & Hi & Hr)]].
  - left. constructor.
  - destruct (runnable g) eqn:Hr.
    + right. exists 0%nat, g. split; [reflexivity | exact Hr].
    + left. constructor; [|exact IH].
      unfold runnable in Hr. destruct (g_pc g); try discriminate. reflexivity.
  - right. exists (S i), g'. split; [exact Hi | exact Hr].
Qed.

(** While a goroutine is left unfinished the scheduler can run one. *)
Lemma sched_progress p :
  joined p \/ exists i p', sched i p = Some p'.
Proof.
  destruct (unfinished_runnable (threads p)) as [H | (i & g & Hi & Hr)]; [left; exact H|].
  right. exists i. unfold sched. rewrite Hi, Hr.
  destruct (action g (sys p) (results p)) as [[pc' s'] res']. eexists. reflexivity.
Qed.

(** Every pool can be run to the join. *)
Lemma steps_to_join p : exists n p', steps n p p' /\ joined p'.
Proof.
  remember (work p) as k eqn:Hk. revert p Hk.
  induction k as [k IH] using lt_wf_ind. intros p ->.
  destruct (sched_progress p) as [Hj | (i & p' & Hs)].
  - exists 0%nat, p. split; [constructor | exact Hj].
  - destruct (IH (work p') (sched_work i p p' Hs) p' eq_refl) as (n & p'' & Hst & Hj).
    exists (S n), p''. split; [econstructor; eassumption | exact Hj].
Qed.

(** *** What a pool keeps true *)

Lemma action_results g s res :
  let res' := (action g s res).2 in
  (forall k, is_Some (res !! k) -> is_Some (res' !! k))
  /\ (forall k, is_Some (res' !! k) -> is_Some (res !! k) \/ k = g_name g)
  /\ (runnable g = true -> (action g s res).1.1 = Finished -> is_Some (res' !! g_name g)).
Proof.
  unfold action, runnable. destruct (g_pc g).
  - destruct (Cache_Get _ s) as [[r|] s']; cbn; repeat split; auto; discriminate.
  - destruct (callFetch _ s) as [r s']. destruct (failed r); cbn; repeat split; auto; discriminate.
  - destruct (Cache_GetBackup _ s) as [b s']. cbn; repeat split; auto; discriminate.
  - destruct (Cache_Set _ _ _ s) as [u s']. cbn; repeat split; auto; discriminate.
  - cbn. split; [|split].
    + intros k Hk. destruct (decide (g_name g = k)) as [->|Hne].
      * rewrite lookup_insert_eq. eauto.
      * rewrite lookup_insert_ne by exact Hne. exact Hk.
    + intros k Hk. destruct (decide (g_name g = k)) as [->|Hne]; [right; reflexivity|].
      rewrite lookup_insert_ne in Hk by exact Hne. left. exact Hk.
    + intros _ _. rewrite lookup_insert_eq. eauto.
  - cbn. repeat split; auto; discriminate.
Qed.

Lemma sched_names i p p' : sched i p = Some p' -> names p' = names p.
Proof.
  unfold sched, names. destruct (threads p !! i) as [g|] eqn:Hg; [|discriminate].
  destruct (runnable g); [|discriminate].
  destruct (action g (sys p) (results p)) as [[pc' s'] res'].
  intros [= <-]. cbn [threads]. rewrite list_fmap_insert. cbn [g_name].
  apply list_insert_id. rewrite list_lookup_fmap, Hg. reflexivity.
Qed.

Lemma sched_stored i p p' : sched i p = Some p' -> stored p -> stored p'.
Proof.
  unfold sched, stored. destruct (threads p !! i) as [g|] eqn:Hg; [|discriminate].
  destruct (runnable g) eqn:Hr; [|discriminate].
  destruct (action_results g (sys p) (results p)) as (Hkeep & _ & Hfin).
  destruct (action g (sys p) (results p)) as [[pc' s'] res']. cbn [fst snd] in *.
  intros [= <-] Hst. cbn [threads results].
  apply Forall_insert.
  - eapply Forall_impl; [exact Hst|]. cbn. intros g' Hg' Hf. apply Hkeep, Hg', Hf.
  - cbn. intros Hf. apply Hfin; [exact Hr | exact Hf].
Qed.

Lemma sched_results_named i p p' :
  sched i p = Some p' ->
  (forall k, is_Some (results p !! k) -> k ∈ names p) ->
  forall k, is_Some (results p' !! k) -> k ∈ names p'.
Proof.
  intros Hs Hin k Hk. rewrite (sched_names i p p' Hs).
  unfold sched in Hs. destruct (threads p !! i) as [g|] eqn:Hg; [|discriminate].
  destruct (runnable g) eqn:Hr; [|discriminate].
  destruct (action_results g (sys p) (results p)) as (_ & Hnew & _).
  destruct (action g (sys p) (results p)) as [[pc' s'] res']. cbn [fst snd] in *.
  injection Hs as <-. cbn [results] in Hk.
  destruct (Hnew k Hk) as [Hold | ->]; [apply Hin, Hold|].
  unfold names. apply list_elem_of_fmap. exists g. split; [reflexivity|].
  eapply list_elem_of_lookup_2. exact Hg.
Qed.

Lemma steps_invariant n p p' :
  steps n p p' -> stored p -> (forall k, is_Some (results p !! k) -> k ∈ names p) ->
  names p' = names p /\ stored p' /\ (forall k, is_Some (results p' !! k) -> k ∈ names p').
Proof.
  induction 1 as [p | n i p p' p'' Hs _ IH]; intros Hst Hin; [auto|].
  destruct IH as (Hn & Hst' & Hin').
  - eapply sched_stored; eassumption.
  - eapply sched_results_named; eassumption.
  - split; [|split; assumption]. rewrite Hn. apply (sched_names i p p' Hs).
Qed.

Lemma names_start (sources : gmap string (Source W)) s k :
  k ∈ names (start sources s) <-> is_Some (sources !! k).
Proof.
  unfold names, start, spawn. cbn [threads]. rewrite <- list_fmap_compose.
  rewrite list_elem_of_fmap. split.
  - intros ([k' v] & -> & Hin). apply elem_of_map_to_list in Hin. cbn. eauto.
  - intros [v Hv]. exists (k, v). split; [reflexivity|]. apply elem_of_map_to_list. exact Hv.
Qed.

(** At the join the results are keyed exactly like the sources. *)
Lemma joined_results n (sources : gmap string (Source W)) s p :
  steps n (start sources s) p -> joined p ->
  forall k, is_Some (results p !! k) <-> is_Some (sources !! k).
Proof.
  intros Hsteps Hj k.
  destruct (steps_invariant n _ p Hsteps) as (Hn & Hst & Hin).
  - unfold stored, start, spawn. cbn [threads]. apply Forall_fmap, Forall_forall.
    intros kv _. cbn. discriminate.
  - cbn [start results]. intros k' [v Hv]. rewrite lookup_empty in Hv. discriminate.
  - rewrite <- (names_start sources s k), <- Hn. split; [apply Hin|].
    unfold names. intros (g & -> & Hg)%list_elem_of_fmap.
    unfold stored in Hst. rewrite Forall_forall in Hst. apply (Hst g Hg).
    unfold joined in Hj. rewrite Forall_forall in Hj. apply (Hj g Hg).
Qed.
End FanOut.

Section FanOutMain.
Context {W : Type} {HW : World W}.
Implicit Types (p : Pool (W := W)) (g : goroutine (W := W)).

Lemma run_steps schedule p : exists n, steps n p (run schedule p).
Proof.
  revert p. induction schedule as [|i rest IH]; intros p; cbn [run].
  - exists 0%nat. constructor.
  - destruct (sched i p) as [p'|] eqn:Hs; cbn [default].
    + destruct (IH p') as [n Hn]. exists (S n). econstructor; eassumption.
    + apply IH.
Qed.

Lemma joinedb_joined p : joinedb p = true -> joined p.
Proof.
  unfold joinedb, joined. rewrite forallb_forall, Forall_forall.
  intros H g Hg. apply list_elem_of_In in Hg. specialize (H g Hg).
  unfold runnable in H. destruct (g_pc g); try discriminate. reflexivity.
Qed.

(** A schedule that runs every goroutine to its end is a run of [fetchAll]. *)
Lemma fetchAll_under_sound schedule (sources : gmap string (Source W)) s :
  joined (run schedule (start sources s)) ->
  fetchAll sources s (fetchAll_under schedule sources s).1 (fetchAll_under schedule sources s).2.
Proof.
  intros Hj. destruct (run_steps schedule (start sources s)) as [n Hn].
  exists n, (run schedule (start sources s)). split; [exact Hn|]. split; [exact Hj|].
  unfold fetchAll_under. destruct (assemble _ _). reflexivity.
Qed.

Lemma assemble_fields p s :
  let out := (assemble p s).1 in
  all_Weather out = results p !! "weather"
  /\ all_Transport out = results p !! "transport"
  /\ all_Temperature out = results p !! "temperature"
  /\ all_Electricity out = results p !! "electricity"
  /\ all_Tempo out = results p !! "tempo"
  /\ all_Timestamp out = FormatRFC3339 (time_Now (world s)).1
  /\ cache (assemble p s).2 = cache s /\ fetches (assemble p s).2 = fetches s.
Proof.
  unfold assemble, bind, ret, inWorld. destruct (time_Now (world s)) as [now w]. cbn.
  auto 10.
Qed.
End FanOutMain.

Section Alone.
Context {W : Type} {HW : World W}.
Implicit Types (p : Pool (W := W)) (g : goroutine (W := W)).

Lemma sched_at i p g :
  threads p !! i = Some g -> runnable g = true ->
  sched i p =
    Some (mkPool (action g (sys p) (results p)).1.2 (action g (sys p) (results p)).2
                 (<[i := mkGo (g_name g) (g_src g) (action g (sys p) (results p)).1.1]>
                    (threads p))).
Proof.
  intros Hg Hr. unfold sched. rewrite Hg, Hr.
  destruct (action g (sys p) (results p)) as [[pc' s'] res']. reflexivity.
Qed.

Lemma sched_finished i p name src :
  threads p !! i = Some (mkGo name src Finished) -> sched i p = None.
Proof. intros Hg. unfold sched. rewrite Hg. reflexivity. Qed.

Lemma run_finished i p name src schedule :
  threads p !! i = Some (mkGo name src Finished) ->
  Forall (fun j => j = i) schedule -> run schedule p = p.
Proof.
  intros Hg. induction 1 as [|j rest -> _ IH]; [reflexivity|].
  cbn [run]. rewrite (sched_finished i p name src Hg). exact IH.
Qed.

(** One action of goroutine [i], when it is at [c]. *)
Lemma run_one i p name src c rest :
  threads p !! i = Some (mkGo name src c) -> c <> Finished ->
  run (i :: rest) p =
    run rest (mkPool (action (mkGo name src c) (sys p) (results p)).1.2
                     (action (mkGo name src c) (sys p) (results p)).2
                     (<[i := mkGo name src (action (mkGo name src c) (sys p) (results p)).1.1]>
                        (threads p))).
Proof.
  intros Hg Hc. cbn [run]. rewrite (sched_at i p _ Hg); [reflexivity|].
  unfold runnable. cbn. destruct c; try reflexivity. contradiction.
Qed.
End Alone.

Section AloneThm.
Context {W : Type} {HW : World W}.
Implicit Types (p : Pool (W := W)) (g : goroutine (W := W)).

Lemma insert_twice (l : list (goroutine (W := W))) i x y :
  <[i := x]> (<[i := y]> l) = <[i := x]> l.
Proof. apply list_insert_insert_eq. Qed.

Lemma lookup_inserted (l : list (goroutine (W := W))) i g x :
  l !! i = Some g -> <[i := x]> l !! i = Some x.
Proof. intros H. apply list_lookup_insert_eq. eapply lookup_lt_Some. exact H. Qed.
End AloneThm.

Ltac act i name src Hg :=
  erewrite (run_one i _ name src) by
    (first [exact Hg | cbn [threads]; eapply lookup_inserted; exact Hg | discriminate]);
  unfold action at 1 2 3; cbn [g_pc g_src g_name sys results threads];
  rewrite ?insert_twice.

(** X7: whatever the interleaving, the value [fetchAll] returns for the
    sources of [main] has an entry for each of the five, failed or not, and a
    timestamp read from the clock after the join. *)
Theorem fetchAll_every_source (W : Type) (HW : World W)
    (weather transport temperature electricity tempo : Source W)
    (s s' : Sys W) (out : AllData) :
  fetchAll (main_sources weather transport temperature electricity tempo) s out s' ->
  is_Some (all_Weather out) /\ is_Some (all_Transport out)
  /\ is_Some (all_Temperature out) /\ is_Some (all_Electricity out)
  /\ is_Some (all_Tempo out)
  /\ exists n p,
       steps n (start (main_sources weather transport temperature electricity tempo) s) p
       /\ joined p
       /\ all_Timestamp out = FormatRFC3339 (time_Now (world (sys p))).1
       /\ fetches s' = fetches (sys p).
Proof.
  intros (n & p & Hsteps & Hj & Hout).
  pose proof (joined_results n _ s p Hsteps Hj) as Hkeys.
  destruct (assemble_fields p (sys p)) as (H1 & H2 & H3 & H4 & H5 & H6 & _ & H8).
  rewrite Hout in *. cbn [fst snd] in *.
  rewrite H1, H2, H3, H4, H5.
  repeat (split; [apply Hkeys; unfold main_sources; eexists; reflexivity|]).
  exists n, p. auto.
Qed.

Lemma fetchAll_every_source_witness :
  let out := (fetchAll_under round_robin demo_sources alpha_cold).1 in
  is_Some (all_Weather out) /\ is_Some (all_Transport out)
  /\ is_Some (all_Temperature out) /\ is_Some (all_Electricity out)
  /\ is_Some (all_Tempo out).
Proof.
  cbv zeta.
  destruct (fetchAll_every_source Clock _ demo_weather demo_transport demo_temperature
              demo_electricity demo_tempo alpha_cold
              (fetchAll_under round_robin demo_sources alpha_cold).2
              (fetchAll_under round_robin demo_sources alpha_cold).1)
    as (H1 & H2 & H3 & H4 & H5 & _).
  - apply fetchAll_under_sound, joinedb_joined. vm_compute. reflexivity.
  - auto.
Defined.


(** X9: a goroutine of [fetchAll] that runs without being interleaved does
    what [fetchCached] does, and stores what it returns under its key. *)
Theorem goroutine_alone (W : Type) (HW : World W) (p : Pool (W := W)) (i : nat)
    (name : string) (src : Source W) :
  threads p !! i = Some (mkGo name src AtGet) ->
  run [i; i; i; i; i] p =
    mkPool (fetchCached src (sys p)).2
           (<[name := (fetchCached src (sys p)).1]> (results p))
           (<[i := mkGo name src Finished]> (threads p)).
Proof.
  intros Hg.
  destruct (Cache_Get (Name src) (sys p)) as [[r|] s1] eqn:H1.
  - rewrite (fetchCached_hit src (sys p) r) by (rewrite H1; reflexivity).
    rewrite H1. cbn [fst snd].
    act i name src Hg. rewrite H1. cbn [fst snd].
    act i name src Hg.
    eapply run_finished; [cbn [threads]; eapply lookup_inserted; exact Hg|].
    repeat constructor.
  - destruct (callFetch src s1) as [resp s2] eqn:H2.
    destruct (failed resp) eqn:H3.
    + rewrite (fetchCached_failure src (sys p) s1 s2 resp H1 H2 H3). cbn [fst snd].
      act i name src Hg. rewrite H1. cbn [fst snd].
      act i name src Hg. rewrite H2, H3. cbn [fst snd].
      act i name src Hg.
      destruct (Cache_GetBackup (Name src) s2) as [b s3]. cbn [fst snd].
      act i name src Hg.
      destruct (Cache_Set (Name src) _ (DegradedTTL src) s3) as [u s4]. cbn [fst snd].
      act i name src Hg. reflexivity.
    + rewrite (fetchCached_success src (sys p) s1 s2 resp H1 H2 H3). cbn [fst snd].
      act i name src Hg. rewrite H1. cbn [fst snd].
      act i name src Hg. rewrite H2, H3. cbn [fst snd].
      act i name src Hg.
      destruct (Cache_Set (Name src) _ (DegradedTTL src) s2) as [u s4]. cbn [fst snd].
      act i name src Hg.
      eapply run_finished; [cbn [threads]; eapply lookup_inserted; exact Hg|].
      repeat constructor.
Qed.

Lemma goroutine_alone_witness :
  run [0; 0; 0; 0; 0]%nat alone =
    mkPool (fetchCached alpha_ok alpha_cold).2
           (<["alpha"%string := (fetchCached alpha_ok alpha_cold).1]> ∅)
           [mkGo "alpha" alpha_ok Finished].
Proof. apply (goroutine_alone Clock _ alone 0%nat "alpha" alpha_ok). reflexivity. Defined.

(** ** How calls of [fetchCached] compose *)

Section FetchCachedCompose.
Context {W : Type} {HW : World W}.
Implicit Types (s : Sys W) (key : string) (r resp b : Response) (src : Source W).

Lemma Cache_Set_frame key resp ttl s k :
  k <> key -> items (cache (Cache_Set key resp ttl s).2) !! k = items (cache s) !! k.
Proof. apply Cache_Set_other. Qed.

Lemma fetchCached_other_keys src s k :
  k <> Name src ->
  items (cache (fetchCached src s).2) !! k = items (cache s) !! k.
Proof.
  intros Hk.
  destruct (Cache_Get (Name src) s) as [[r|] s1] eqn:H1.
  - rewrite (fetchCached_hit src s r) by (rewrite H1; reflexivity). cbn [snd].
    destruct (Cache_Get_frame (Name src) s) as [-> _]. reflexivity.
  - pose proof (Cache_Get_frame (Name src) s) as [Hc1 _]. rewrite H1 in Hc1. cbn in Hc1.
    destruct (callFetch src s1) as [resp s2] eqn:H2.
    pose proof (callFetch_frame src s1) as [Hc2 _]. rewrite H2 in Hc2. cbn in Hc2.
    destruct (failed resp) eqn:H3.
    + rewrite (fetchCached_failure src s s1 s2 resp H1 H2 H3). cbn [snd].
      rewrite Cache_Set_other by exact Hk.
      destruct (Cache_GetBackup_frame (Name src) s2) as [-> _]. rewrite Hc2, Hc1. reflexivity.
    + rewrite (fetchCached_success src s s1 s2 resp H1 H2 H3). cbn [snd].
      rewrite Cache_Set_other by exact Hk. rewrite Hc2, Hc1. reflexivity.
Qed.

Lemma fetchCached_fetches src s :
  fetches (fetchCached src s).2 =
    match (Cache_Get (Name src) s).1 with
    | Some _ => fetches s
    | None => Name src :: fetches s
    end.
Proof.
  destruct (Cache_Get (Name src) s) as [[r|] s1] eqn:H1; cbn [fst].
  - rewrite (fetchCached_hit src s r) by (rewrite H1; reflexivity). cbn [snd].
    destruct (Cache_Get_frame (Name src) s) as [_ ->]. reflexivity.
  - pose proof (Cache_Get_frame (Name src) s) as [_ Hf1]. rewrite H1 in Hf1. cbn in Hf1.
    destruct (callFetch src s1) as [resp s2] eqn:H2.
    pose proof (callFetch_frame src s1) as [_ Hf2]. rewrite H2 in Hf2. cbn in Hf2.
    destruct (failed resp) eqn:H3.
    + rewrite (fetchCached_failure src s s1 s2 resp H1 H2 H3). cbn [snd].
      rewrite Cache_Set_fetches.
      destruct (Cache_GetBackup_frame (Name src) s2) as [_ ->]. rewrite Hf2, Hf1. reflexivity.
    + rewrite (fetchCached_success src s s1 s2 resp H1 H2 H3). cbn [snd].
      rewrite Cache_Set_fetches, Hf2, Hf1. reflexivity.
Qed.
End FetchCachedCompose.

(** X10: [fetchCached] asks the source at most once, exactly when the cache
    has no fresh entry for it, and leaves the entries of all other keys as
    they are. *)
Theorem fetchCached_frame (W : Type) (HW : World W) (src : Source W) (s : Sys W) :
  (forall k, k <> Name src ->
     items (cache (fetchCached src s).2) !! k = items (cache s) !! k)
  /\ fetches (fetchCached src s).2 =
       match (Cache_Get (Name src) s).1 with
       | Some _ => fetches s
       | None => Name src :: fetches s
       end.
Proof.
  split; [intros k Hk; apply fetchCached_other_keys; exact Hk | apply fetchCached_fetches].
Qed.

(** X11: after a fetch that succeeded with [r], a later call that misses the
    cache and whose fetch fails with [e] returns the payload and timestamp of
    [r] with the error and expiry of [e] as long as the clock has not passed
    the backup window (the reading at the first [Cache_Set] plus the degraded
    TTL), and [e] itself afterwards. *)
Theorem fetchCached_success_then_failure (W : Type) (HW : World W) (src : Source W)
    (s s1 s2 t t1 t2 : Sys W) (r e : Response) :
  Cache_Get (Name src) s = (None, s1) ->
  callFetch src s1 = (r, s2) ->
  failed r = false ->
  items (cache t) !! Name src = items (cache (fetchCached src s).2) !! Name src ->
  Cache_Get (Name src) t = (None, t1) ->
  callFetch src t1 = (e, t2) ->
  failed e = true ->
  (fetchCached src t).1 =
    if clock t2 <=? Add (clock s2) (DegradedTTL src)
    then {| Data := Data r; Timestamp := Timestamp r; Error := Error e;
            ExpiresAt := ExpiresAt e |}
    else e.
Proof.
  intros H1 H2 H3 Hsame G1 G2 G3.
  rewrite (fetchCached_success src s s1 s2 r H1 H2 H3) in Hsame. cbn [snd] in Hsame.
  rewrite Cache_Set_item, H3 in Hsame.
  rewrite (fetchCached_failure src t t1 t2 e G1 G2 G3). cbn [fst].
  assert (Hb : backupOf t2 (Name src) =
               Some (mkResponse (Data r) (Timestamp r) "" (Add (clock s2) (DegradedTTL src)))).
  { unfold backupOf.
    pose proof (callFetch_frame src t1) as [Hc2 _]. rewrite G2 in Hc2. cbn in Hc2.
    pose proof (Cache_Get_frame (Name src) t) as [Hc1 _]. rewrite G1 in Hc1. cbn in Hc1.
    rewrite Hc2, Hc1, Hsame. reflexivity. }
  destruct (Z.leb_spec (clock t2) (Add (clock s2) (DegradedTTL src))) as [Hle | Hgt].
  - rewrite (Cache_GetBackup_valid _ _ _ Hb) by exact Hle. reflexivity.
  - rewrite (Cache_GetBackup_invalid (Name src) t2); [reflexivity|].
    right. eexists. split; [exact Hb|]. cbn. exact Hgt.
Qed.

Lemma fetchCached_success_then_failure_witness :
  (fetchCached alpha_flaky (later (5 * Minute) (fetchCached alpha_flaky alpha_cold).2)).1 =
    {| Data := Some (OpaquePayload "P1"); Timestamp := "2024-11-01T03:00:00Z";
       Error := "timeout"; ExpiresAt := t0 + 5 * Minute + 2 + Minute |}.
Proof.
  pose (t := later (5 * Minute) (fetchCached alpha_flaky alpha_cold).2).
  rewrite (fetchCached_success_then_failure Clock _ alpha_flaky alpha_cold alpha_cold
             (callFetch alpha_flaky alpha_cold).2 t (Cache_Get "alpha" t).2
             (callFetch alpha_flaky (Cache_Get "alpha" t).2).2
             (callFetch alpha_flaky alpha_cold).1
             (callFetch alpha_flaky (Cache_Get "alpha" t).2).1); reflexivity.
Defined.

(** ** The transport source *)

Module TransportProofs.
Import Transport.

Section TransportFacts.
Context {W : Type} {HW : World W}.
Variable stopMonitoring : TransportSource -> stopInfo -> M W (list Destination + string).
Variable stopPointsDiscovery : TransportSource -> M W (list AnnotatedStopPointRef + string).
Implicit Types (s : TransportSource) (w : W) (id : Z).

Lemma index_Some {A : Type} (l : list A) (i : Z) :
  0 <= i < Z.of_nat (List.length l) -> exists x, index l i = Some x.
Proof.
  intros Hi. unfold index. destruct (Z.ltb_spec i 0); [lia|].
  destruct (l !! Z.to_nat i) as [x|] eqn:Hx; [eauto|].
  apply lookup_ge_None in Hx. lia.
Qed.

Lemma index_range {A : Type} (l : list A) (i : Z) x :
  index l i = Some x -> 0 <= i < Z.of_nat (List.length l).
Proof.
  unfold index. destruct (Z.ltb_spec i 0); [discriminate|].
  intros Hx. apply lookup_lt_Some in Hx. lia.
Qed.

(** Where a stop is configured, the departure cache does not panic, and it
    leaves the configuration of the source alone. *)
Lemma getDepartures_safe id maxAge s w stop :
  index (stops s) id = Some stop ->
  exists got s' w',
    getDepartures stopMonitoring id maxAge (s, w) = Some (got, (s', w'))
    /\ stops s' = stops s /\ ready s' = ready s /\ apiKey s' = apiKey s
    /\ apiURL s' = apiURL s.
Proof.
  intros Hi. unfold getDepartures, bindP, total, self, retP. cbn [fst snd].
  destruct (cache s !! id) as [cached|].
  - cbn. destruct (time_Now w) as [now w1]. cbn.
    destruct (Sub now (fetchedAt cached) <? maxAge).
    + eauto 10.
    + unfold fetchDepartures, bindP, total, self. cbn. rewrite Hi.
      unfold upstream. cbn. destruct (stopMonitoring s stop w1) as [[dests|err] w2].
      * cbn. destruct (time_Now w2) as [t w3]. cbn. eauto 10.
      * eauto 10.
  - unfold fetchDepartures, bindP, total, self. cbn. rewrite Hi.
    unfold upstream. cbn. destruct (stopMonitoring s stop w) as [[dests|err] w2].
    + cbn. destruct (time_Now w2) as [t w3]. cbn. eauto 10.
    + eauto 10.
Qed.

Lemma getStopData_safe id maxAge s w stop :
  index (stops s) id = Some stop ->
  exists got s' w',
    getStopData stopMonitoring id maxAge (s, w) = Some (got, (s', w'))
    /\ stops s' = stops s /\ ready s' = ready s /\ apiKey s' = apiKey s
    /\ apiURL s' = apiURL s.
Proof.
  intros Hi. unfold getStopData, bindP.
  destruct (getDepartures_safe id maxAge s w stop Hi) as (got & s' & w' & -> & Hs & Hr & Hk & Hu).
  unfold total, self. cbn [fst snd]. rewrite Hs, Hi.
  destruct got; unfold retP; eauto 10.
Qed.

Lemma ErrorResponse_with_state (msg : string) (ttl : Duration) s w :
  ErrorResponse msg ttl (s, w) =
    ((ErrorResponse msg ttl w).1, (s, (ErrorResponse msg ttl w).2)).
Proof.
  unfold ErrorResponse, bind, ret. cbn.
  destruct (time_Now w) as [t1 w1]. cbn. destruct (time_Now w1) as [t2 w2]. reflexivity.
Qed.

Lemma NewResponse_with_state (data : Payload) (ttl : Duration) s w :
  NewResponse data ttl (s, w) =
    ((NewResponse data ttl w).1, (s, (NewResponse data ttl w).2)).
Proof.
  unfold NewResponse, bind, ret. cbn.
  destruct (time_Now w) as [t1 w1]. cbn. destruct (time_Now w1) as [t2 w2]. reflexivity.
Qed.

Lemma FetchLive_unconfigured id s w :
  apiKey s = ""%string ->
  FetchLive stopMonitoring id (s, w) =
    Some ((ErrorResponse "transport not configured" Hour w).1,
          (s, (ErrorResponse "transport not configured" Hour w).2)).
Proof.
  intros Hk. unfold FetchLive, bindP, total, self. cbn [fst snd]. rewrite Hk. cbn.
  rewrite ErrorResponse_with_state. reflexivity.
Qed.

Lemma FetchLive_invalid id s w :
  apiKey s <> ""%string ->
  id < 0 \/ Z.of_nat (List.length (stops s)) <= id \/ ready s = false
    \/ (exists stop, index (stops s) id = Some stop /\ stopRef stop = ""%string) ->
  FetchLive stopMonitoring id (s, w) =
    Some ((ErrorResponse "invalid stop" Minute w).1,
          (s, (ErrorResponse "invalid stop" Minute w).2)).
Proof.
  intros Hk Hbad. unfold FetchLive, bindP, total, self. cbn [fst snd].
  rewrite (eqb_empty_false _ Hk).
  destruct ((id <? 0) || (Z.of_nat (List.length (stops s)) <=? id) || negb (ready s)) eqn:Hg.
  - rewrite ErrorResponse_with_state. reflexivity.
  - apply orb_false_elim in Hg as [Hg Hr]. apply orb_false_elim in Hg as [Hlo Hhi].
    apply Z.ltb_ge in Hlo. apply Z.leb_gt in Hhi. apply negb_false_iff in Hr.
    destruct Hbad as [? | [? | [? | (stop & Hi & Hs)]]]; try lia; [congruence|].
    rewrite Hi, Hs. cbn. rewrite ErrorResponse_with_state. reflexivity.
Qed.

Lemma FetchLive_safe id s w :
  exists r s' w', FetchLive stopMonitoring id (s, w) = Some (r, (s', w'))
                  /\ stops s' = stops s /\ ready s' = ready s /\ apiKey s' = apiKey s.
Proof.
  destruct (String.eqb_spec (apiKey s) "") as [Hk | Hk].
  { rewrite (FetchLive_unconfigured id s w Hk). eauto 10. }
  destruct (Z.ltb_spec id 0) as [Hlo | Hlo].
  { rewrite (FetchLive_invalid id s w Hk) by auto. eauto 10. }
  destruct (Z.leb_spec (Z.of_nat (List.length (stops s))) id) as [Hhi | Hhi].
  { rewrite (FetchLive_invalid id s w Hk) by auto. eauto 10. }
  destruct (ready s) eqn:Hr.
  2: { rewrite (FetchLive_invalid id s w Hk) by auto. eauto 10. }
  destruct (index_Some (stops s) id ltac:(lia)) as [stop Hi].
  destruct (String.eqb_spec (stopRef stop) "") as [Hs | Hs].
  { rewrite (FetchLive_invalid id s w Hk) by eauto 10. eauto 10. }
  unfold FetchLive, bindP, total, self. cbn [fst snd].
  rewrite (eqb_empty_false _ Hk), Hr, Hi, (eqb_empty_false _ Hs).
  replace (id <? 0) with false by (symmetry; apply Z.ltb_ge; lia).
  replace (Z.of_nat (List.length (stops s)) <=? id) with false by (symmetry; apply Z.leb_gt; lia).
  cbn [orb negb].
  destruct (getStopData_safe id transportLiveTTL s w stop Hi)
    as (got & s' & w' & -> & Hst & Hre & Hke & _).
  destruct got as [stopData|].
  - rewrite NewResponse_with_state. eauto 10.
  - rewrite ErrorResponse_with_state. eauto 10.
Qed.
End TransportFacts.

Section DepartureCache.
Context {W : Type} {HW : World W}.
Variable stopMonitoring : TransportSource -> stopInfo -> M W (list Destination + string).
Implicit Types (s : TransportSource) (w : W) (id : Z).

(** A fresh entry is served without asking upstream. *)
Lemma getDepartures_hit id maxAge s w cached :
  cache s !! id = Some cached ->
  Sub (time_Now w).1 (fetchedAt cached) < maxAge ->
  getDepartures stopMonitoring id maxAge (s, w) =
    Some (inl (destinations cached), (s, (time_Now w).2)).
Proof.
  intros Hc Hf. unfold getDepartures, bindP, total, self, retP. cbn [fst snd]. rewrite Hc.
  cbn. destruct (time_Now w) as [now w1]. cbn in *.
  replace (Sub now (fetchedAt cached) <? maxAge) with true by (symmetry; apply Z.ltb_lt; exact Hf).
  destruct s; reflexivity.
Qed.

(** What [getDepartures] does when the entry is missing or too old. *)
Lemma getDepartures_miss id maxAge s w w1 stop :
  index (stops s) id = Some stop ->
  (cache s !! id = None /\ w1 = w
   \/ exists cached, cache s !! id = Some cached /\ w1 = (time_Now w).2
                     /\ maxAge <= Sub (time_Now w).1 (fetchedAt cached)) ->
  getDepartures stopMonitoring id maxAge (s, w) =
    match stopMonitoring s stop w1 with
    | (inr err, w2) => Some (inr err, (s, w2))
    | (inl dests, w2) =>
        Some (inl dests,
              (mkTransportSource (apiURL s) (apiKey s) (stops s) (ready s)
                 (<[id := mkDepartureCache dests (time_Now w2).1]> (cache s)),
               (time_Now w2).2))
    end.
Proof.
  intros Hi Hm. unfold getDepartures, bindP, total, self, retP. cbn [fst snd].
  assert (Hfetch : forall w', fetchDepartures stopMonitoring id (s, w') =
            Some ((stopMonitoring s stop w').1, (s, (stopMonitoring s stop w').2))).
  { intros w'. unfold fetchDepartures, bindP, total, self, upstream. cbn [fst snd].
    rewrite Hi. cbn [fst snd]. destruct (stopMonitoring s stop w'). reflexivity. }
  destruct Hm as [[Hc ->] | (cached & Hc & -> & Hold)]; rewrite Hc.
  - rewrite Hfetch. destruct (stopMonitoring s stop w) as [[dests|err] w2]; cbn.
    + destruct (time_Now w2) as [t w3]. reflexivity.
    + reflexivity.
  - cbn. destruct (time_Now w) as [now w1]. cbn in *.
    replace (Sub now (fetchedAt cached) <? maxAge) with false
      by (symmetry; apply Z.ltb_ge; exact Hold).
    rewrite Hfetch. destruct (stopMonitoring s stop w1) as [[dests|err] w2]; cbn.
    + destruct (time_Now w2) as [t w3]. reflexivity.
    + reflexivity.
Qed.

Lemma getDepartures_cases id maxAge s w :
  cache s !! id = None
  \/ (exists cached, cache s !! id = Some cached
        /\ Sub (time_Now w).1 (fetchedAt cached) < maxAge)
  \/ (exists cached, cache s !! id = Some cached
        /\ maxAge <= Sub (time_Now w).1 (fetchedAt cached)).
Proof.
  destruct (cache s !! id) as [cached|]; [|auto].
  destruct (Z.lt_ge_cases (Sub (time_Now w).1 (fetchedAt cached)) maxAge); eauto.
Qed.
End DepartureCache.

Section LiveFacts.
Context {W : Type} {HW : World W}.
Variable stopMonitoring : TransportSource -> stopInfo -> M W (list Destination + string).
Implicit Types (s : TransportSource) (w : W) (id : Z).

(** For a resolved stop of a ready source, [FetchLive] is [getDepartures]
    followed by the construction of the response. *)
Lemma FetchLive_resolved id s w stop :
  apiKey s <> ""%string -> ready s = true ->
  index (stops s) id = Some stop -> stopRef stop <> ""%string ->
  FetchLive stopMonitoring id (s, w) =
    match getDepartures stopMonitoring id transportLiveTTL (s, w) with
    | Some (inl dests, (s', w')) =>
        match index (stops s') id with
        | Some stop' =>
            Some ((NewResponse (StopPayload (mkStopData id (name stop') (line stop')
                                   (color stop') (colorText stop') dests))
                               transportLiveTTL w').1,
                  (s', (NewResponse (StopPayload (mkStopData id (name stop') (line stop')
                                   (color stop') (colorText stop') dests))
                               transportLiveTTL w').2))
        | None => None
        end
    | Some (inr _, (s', w')) =>
        match index (stops s') id with
        | Some _ => Some ((ErrorResponse "fetch failed" Minute w').1,
                          (s', (ErrorResponse "fetch failed" Minute w').2))
        | None => None
        end
    | None => None
    end.
Proof.
  intros Hk Hr Hi Hs.
  pose proof (index_range _ _ _ Hi) as Hrange.
  unfold FetchLive, bindP, total, self. cbn [fst snd].
  rewrite (eqb_empty_false _ Hk), Hr, Hi, (eqb_empty_false _ Hs).
  replace (id <? 0) with false by (symmetry; apply Z.ltb_ge; lia).
  replace (Z.of_nat (List.length (stops s)) <=? id) with false by (symmetry; apply Z.leb_gt; lia).
  cbn [orb negb]. unfold getStopData, bindP, total, self, retP.
  destruct (getDepartures stopMonitoring id transportLiveTTL (s, w))
    as [[[dests|err] [s' w']]|]; [| |reflexivity]; cbn [fst snd].
  - destruct (index (stops s') id) as [stop'|]; [|reflexivity].
    rewrite NewResponse_with_state. reflexivity.
  - destruct (index (stops s') id) as [stop'|]; [|reflexivity].
    rewrite ErrorResponse_with_state. reflexivity.
Qed.
End LiveFacts.

Lemma FetchLive_fresh {W : Type} {HW : World W}
    (stopMonitoring : TransportSource -> stopInfo -> M W (list Destination + string))
    (id : Z) (s : TransportSource) (w : W) (stop : stopInfo) (cached : departureCache) :
  apiKey s <> ""%string -> ready s = true ->
  index (stops s) id = Some stop -> stopRef stop <> ""%string ->
  cache s !! id = Some cached ->
  Sub (time_Now w).1 (fetchedAt cached) < transportLiveTTL ->
  let data := StopPayload (mkStopData id (name stop) (line stop) (color stop)
                                      (colorText stop) (destinations cached)) in
  FetchLive stopMonitoring id (s, w) =
    Some ((NewResponse data transportLiveTTL (time_Now w).2).1,
          (s, (NewResponse data transportLiveTTL (time_Now w).2).2)).
Proof.
  intros Hk Hr Hi Hs Hc Hf. cbv zeta.
  rewrite (FetchLive_resolved stopMonitoring id s w stop Hk Hr Hi Hs).
  rewrite (getDepartures_hit stopMonitoring id transportLiveTTL s w cached Hc Hf).
  rewrite Hi. reflexivity.
Qed.

Section FetchFacts.
Context {W : Type} {HW : World W}.
Variable stopMonitoring : TransportSource -> stopInfo -> M W (list Destination + string).
Variable stopPointsDiscovery : TransportSource -> M W (list AnnotatedStopPointRef + string).
Implicit Types (s : TransportSource) (w : W) (id : Z).

(** What [getDepartures] leaves behind. *)
Lemma getDepartures_result id maxAge s w stop :
  index (stops s) id = Some stop ->
  exists got s' w',
    getDepartures stopMonitoring id maxAge (s, w) = Some (got, (s', w'))
    /\ stops s' = stops s /\ ready s' = ready s /\ apiKey s' = apiKey s
    /\ (forall j, j <> id -> cache s' !! j = cache s !! j)
    /\ match got with
       | inl dests => exists fetched, cache s' !! id = Some (mkDepartureCache dests fetched)
       | inr _ => s' = s
       end.
Proof.
  intros Hi.
  destruct (getDepartures_cases id maxAge s w) as [Hn | [(c & Hc & Hf) | (c & Hc & Ho)]].
  - rewrite (getDepartures_miss stopMonitoring id maxAge s w w stop Hi) by auto.
    destruct (stopMonitoring s stop w) as [[d|err] w2].
    + eexists _, _, _. split; [reflexivity|]. cbn. repeat split; auto.
      * intros j Hj. rewrite lookup_insert_ne by congruence. reflexivity.
      * rewrite lookup_insert_eq. eauto.
    + eexists _, _, _. split; [reflexivity|]. auto 10.
  - rewrite (getDepartures_hit stopMonitoring id maxAge s w c Hc Hf).
    eexists _, _, _. split; [reflexivity|]. repeat split; auto.
    destruct c. eauto.
  - rewrite (getDepartures_miss stopMonitoring id maxAge s w (time_Now w).2 stop Hi)
      by eauto 10.
    destruct (stopMonitoring s stop _) as [[d|err] w2].
    + eexists _, _, _. split; [reflexivity|]. cbn. repeat split; auto.
      * intros j Hj. rewrite lookup_insert_ne by congruence. reflexivity.
      * rewrite lookup_insert_eq. eauto.
    + eexists _, _, _. split; [reflexivity|]. auto 10.
Qed.

Lemma getStopData_result id maxAge s w stop :
  index (stops s) id = Some stop ->
  exists got s' w',
    getStopData stopMonitoring id maxAge (s, w) = Some (got, (s', w'))
    /\ stops s' = stops s /\ ready s' = ready s /\ apiKey s' = apiKey s
    /\ (forall j, j <> id -> cache s' !! j = cache s !! j)
    /\ match got with
       | Some d =>
           exists fetched,
             d = mkStopData id (name stop) (line stop) (color stop) (colorText stop)
                            (sd_Destinations d)
             /\ cache s' !! id = Some (mkDepartureCache (sd_Destinations d) fetched)
       | None => s' = s
       end.
Proof.
  intros Hi.
  destruct (getDepartures_result id maxAge s w stop Hi)
    as (got & s' & w' & Hg & Hst & Hr & Hk & Hother & Hgot).
  unfold getStopData, bindP. rewrite Hg. unfold total, self, retP. cbn [fst snd].
  rewrite Hst, Hi. destruct got as [dests|err].
  - destruct Hgot as [fetched Hf]. eexists _, _, _. split; [reflexivity|].
    repeat split; auto. exists fetched. cbn. auto.
  - eexists _, _, _. split; [reflexivity|]. auto 10.
Qed.

(** The loop of [Fetch]: it does not panic on indices of configured stops,
    keeps the configuration, and what it appends was built from the state it
    leaves. *)
Lemma collect_result ids : forall acc s w,
  Forall (fun i => 0 <= i < Z.of_nat (List.length (stops s))) ids -> NoDup ids ->
  exists new s' w',
    collect stopMonitoring ids acc (s, w) = Some (acc ++ new, (s', w'))
    /\ stops s' = stops s /\ ready s' = ready s /\ apiKey s' = apiKey s
    /\ (forall j, j ∉ ids -> cache s' !! j = cache s !! j)
    /\ Forall (builtFrom s') new
    /\ Forall (fun d => sd_ID d ∈ ids) new.
Proof.
  induction ids as [|i rest IH]; intros acc s w Hrange Hnd.
  - exists [], s, w. cbn. rewrite app_nil_r. repeat split; auto.
  - apply Forall_cons in Hrange as [Hi Hrest]. apply NoDup_cons in Hnd as [Hfresh Hnd].
    destruct (index_Some (stops s) i Hi) as [stop Hstop].
    cbn [collect]. unfold bindP at 1. unfold total, self. cbn [fst snd]. rewrite Hstop.
    destruct (String.eqb_spec (stopRef stop) "") as [Hempty | Href].
    + destruct (IH acc s w Hrest Hnd) as (new & s' & w' & Hc & Hst & Hr & Hk & Hother & Hb & Hin).
      exists new, s', w'. split; [exact Hc|]. repeat split; auto.
      * intros j Hj. apply Hother. intros Hjr. apply Hj. right. exact Hjr.
      * eapply Forall_impl; [exact Hin|]. cbn. intros d Hd. right. exact Hd.
    + destruct (getStopData_result i transportTTL s w stop Hstop)
        as (got & s1 & w1 & Hg & Hst1 & Hr1 & Hk1 & Hother1 & Hgot).
      unfold bindP. rewrite Hg.
      assert (Hrest1 : Forall (fun i => 0 <= i < Z.of_nat (List.length (stops s1))) rest)
        by (rewrite Hst1; exact Hrest).
      destruct (IH (match got with Some d => acc ++ [d] | None => acc end) s1 w1 Hrest1 Hnd)
        as (new & s' & w' & Hc & Hst & Hr & Hk & Hother & Hb & Hin).
      assert (Hkeep : forall j, j ∉ i :: rest -> cache s' !! j = cache s !! j).
      { intros j Hj. rewrite Hother, Hother1; [reflexivity| |].
        - intros ->. apply Hj. left.
        - intros Hjr. apply Hj. right. exact Hjr. }
      assert (Hin' : Forall (fun d => sd_ID d ∈ i :: rest) new).
      { eapply Forall_impl; [exact Hin|]. cbn. intros d Hd. right. exact Hd. }
      destruct got as [d|].
      * destruct Hgot as (fetched & Hd & Hcache).
        exists (d :: new), s', w'. rewrite Hc, <- app_assoc. cbn [app].
        split; [reflexivity|]. split; [congruence|]. split; [congruence|].
        split; [congruence|]. split; [exact Hkeep|]. split.
        -- constructor; [|exact Hb].
           assert (Hid : sd_ID d = i) by (rewrite Hd; reflexivity).
           exists stop, fetched. rewrite Hid, Hst, Hst1.
           split; [exact Hstop|]. split; [exact Href|]. split; [exact Hd|].
           rewrite Hother by exact Hfresh. exact Hcache.
        -- constructor; [|exact Hin']. rewrite Hd. cbn. left.
      * exists new, s', w'. rewrite Hc.
        split; [reflexivity|]. split; [congruence|]. split; [congruence|].
        split; [congruence|]. auto.
Qed.

Lemma indices_range (n : nat) :
  Forall (fun i => 0 <= i < Z.of_nat n) (Z.of_nat <$> seq 0 n) /\ NoDup (Z.of_nat <$> seq 0 n).
Proof.
  split.
  - apply Forall_fmap, Forall_forall. intros i Hi%elem_of_seq. cbn. lia.
  - apply NoDup_fmap; [intros x y; lia | apply NoDup_seq].
Qed.
End FetchFacts.

Section ResolveFacts.
Implicit Types (stop : stopInfo) (a : AnnotatedStopPointRef) (l : apiLine).

Lemma existsb_elem {A : Type} (f : A -> bool) (xs : list A) :
  existsb f xs = true <-> exists x, x ∈ xs /\ f x = true.
Proof.
  rewrite existsb_exists. split; intros (x & Hx & Hf); exists x;
    (split; [apply list_elem_of_In; exact Hx | exact Hf]).
Qed.

Lemma findLine_Some stop destination lines l :
  findLine stop destination lines = Some l ->
  l ∈ lines /\ LineRef l = line stop
  /\ exists dest n, dest ∈ Destinations l /\ n ∈ dest /\ Contains n destination = true.
Proof.
  induction lines as [|l0 rest IH]; [discriminate|]. cbn [findLine].
  destruct (String.eqb_spec (LineRef l0) (line stop)) as [Href | Href]; cbn [negb].
  - destruct (existsb _ (Destinations l0)) eqn:Hd.
    + intros [= <-]. split; [left|]. split; [exact Href|].
      apply existsb_elem in Hd as (dest & Hdest & Hn).
      apply existsb_elem in Hn as (n & Hn & Hc). eauto.
    + intros H. destruct (IH H) as (Hin & ?). split; [right; exact Hin | assumption].
  - intros H. destruct (IH H) as (Hin & ?). split; [right; exact Hin | assumption].
Qed.

Lemma findLine_None stop destination lines l :
  findLine stop destination lines = None -> l ∈ lines -> LineRef l = line stop ->
  forall dest n, dest ∈ Destinations l -> n ∈ dest -> Contains n destination = false.
Proof.
  induction lines as [|l0 rest IH]; intros Hf Hl Href dest n Hdest Hn.
  - inversion Hl.
  - cbn [findLine] in Hf.
    destruct (String.eqb_spec (LineRef l0) (line stop)) as [Href0 | Href0]; cbn [negb] in Hf.
    + destruct (existsb _ (Destinations l0)) eqn:Hd; [discriminate|].
      apply elem_of_cons in Hl as [-> | Hl]; [|eapply IH; eassumption].
      destruct (Contains n destination) eqn:Hc; [|reflexivity].
      assert (Hex : existsb (fun dest => existsb (fun n => Contains n destination) dest)
                            (Destinations l0) = true).
      { apply existsb_elem. exists dest. split; [exact Hdest|].
        apply existsb_elem. exists n. auto. }
      congruence.
    + apply elem_of_cons in Hl as [-> | Hl]; [congruence|]. eapply IH; eassumption.
Qed.

(** [resolveStop] finds a stop and a line that fit whenever there are any,
    and takes the reference and the colours from them; otherwise it changes
    nothing. *)
Lemma resolveStop_result stop destination apiStops :
  (exists a l, a ∈ apiStops /\ fits stop destination a l
     /\ resolveStop stop destination apiStops =
          mkStopInfo (line stop) (name stop) (StopPointRef a)
                     ("#" ++ RouteColor l) ("#" ++ RouteTextColor l))
  \/ ((forall a l, a ∈ apiStops -> ~ fits stop destination a l)
      /\ resolveStop stop destination apiStops = stop).
Proof.
  induction apiStops as [|a rest IH].
  - right. split; [intros a l Ha; inversion Ha | reflexivity].
  - cbn [resolveStop].
    assert (Hskip : (forall l, ~ fits stop destination a l) ->
      (exists a' l, a' ∈ a :: rest /\ fits stop destination a' l
         /\ resolveStop stop destination rest =
              mkStopInfo (line stop) (name stop) (StopPointRef a')
                         ("#" ++ RouteColor l) ("#" ++ RouteTextColor l))
      \/ ((forall a' l, a' ∈ a :: rest -> ~ fits stop destination a' l)
          /\ resolveStop stop destination rest = stop)).
    { intros Hno. destruct IH as [(a' & l & Ha' & Hfit & Heq) | [Hnone Heq]].
      - left. exists a', l. split; [right; exact Ha' | auto].
      - right. split; [|exact Heq].
        intros a' l [-> | Ha']%elem_of_cons; [apply Hno | apply Hnone; exact Ha']. }
    destruct (Contains (StopName a) (name stop)) eqn:Hname; cbn [negb].
    + destruct (findLine stop destination (Lines a)) as [l|] eqn:Hline.
      * left. exists a, l. split; [left|]. split; [|reflexivity].
        destruct (findLine_Some _ _ _ _ Hline) as (Hin & Href & Hdest).
        unfold fits. auto.
      * apply Hskip. intros l (_ & Hin & Href & dest & n & Hdest & Hn & Hc).
        rewrite (findLine_None _ _ _ l Hline Hin Href dest n Hdest Hn) in Hc. discriminate.
    + apply Hskip. intros l (Hc & _). congruence.
Qed.
End ResolveFacts.

Lemma resolveStops_result {W : Type} {HW : World W}
    (stopPointsDiscovery : TransportSource -> M W (list AnnotatedStopPointRef + string))
    (s : TransportSource) (w : W) :
  match stopPointsDiscovery s w with
  | (inr err, w') => resolveStops stopPointsDiscovery (s, w) = (Some err, (s, w'))
  | (inl apiStops, w') =>
      exists s',
        resolveStops stopPointsDiscovery (s, w) = (None, (s', w'))
        /\ ready s' = true /\ apiKey s' = apiKey s /\ cache s' = cache s
        /\ List.length (stops s') = List.length (stops s)
        /\ forall (i : nat) (stop : stopInfo), stops s !! i = Some stop ->
             exists stop',
               stops s' !! i = Some stop'
               /\ line stop' = line stop /\ name stop' = name stop
               /\ ((exists a l, a ∈ apiStops /\ fits stop (stopRef stop) a l
                      /\ stopRef stop' = StopPointRef a
                      /\ color stop' = ("#" ++ RouteColor l)%string
                      /\ colorText stop' = ("#" ++ RouteTextColor l)%string)
                   \/ ((forall a l, a ∈ apiStops -> ~ fits stop (stopRef stop) a l)
                       /\ stopRef stop' = ""%string
                       /\ color stop' = color stop /\ colorText stop' = colorText stop))
  end.
Proof.
  unfold resolveStops, bind, self, upstream, ret. cbn [fst snd].
  destruct (stopPointsDiscovery s w) as [[apiStops|err] w']; [|reflexivity].
  eexists. split; [reflexivity|]. cbn.
  split; [reflexivity|]. split; [reflexivity|]. split; [reflexivity|].
  split; [apply length_fmap|].
  intros i stop Hi. exists (resolved apiStops stop).
  split; [rewrite list_lookup_fmap, Hi; reflexivity|].
  unfold resolved.
  set (cleared := mkStopInfo (line stop) (name stop) "" (color stop) (colorText stop)).
  destruct (resolveStop_result cleared (stopRef stop) apiStops)
    as [(a & l & Ha & Hfit & ->) | [Hnone ->]]; cbn.
  - split; [reflexivity|]. split; [reflexivity|]. left. exists a, l. auto 10.
  - split; [reflexivity|]. split; [reflexivity|]. right. auto.
Qed.

Section FetchThm.
Context {W : Type} {HW : World W}.
Variable stopMonitoring : TransportSource -> stopInfo -> M W (list Destination + string).
Variable stopPointsDiscovery : TransportSource -> M W (list AnnotatedStopPointRef + string).
Implicit Types (s : TransportSource) (w : W) (id : Z).

Lemma length_eqb_false {A : Type} (l : list A) : l <> [] -> (List.length l =? 0)%nat = false.
Proof. destruct l; [contradiction | reflexivity]. Qed.

(** [Fetch] of a configured source, from the state [s0] in which its stops
    are resolved. *)
Lemma Fetch_ready s w s0 w0 :
  apiKey s <> ""%string -> stops s <> [] ->
  (ready s = true /\ s0 = s /\ w0 = w)
  \/ (ready s = false /\ resolveStops stopPointsDiscovery (s, w) = (None, (s0, w0))) ->
  Fetch stopMonitoring stopPointsDiscovery (s, w) =
    match collect stopMonitoring (indices s0) [] (s0, w0) with
    | Some ([], (s', w')) =>
        Some ((ErrorResponse "no departure data" (5 * Minute) w').1,
              (s', (ErrorResponse "no departure data" (5 * Minute) w').2))
    | Some (found, (s', w')) =>
        Some ((NewResponse (TransportPayload found) transportTTL w').1,
              (s', (NewResponse (TransportPayload found) transportTTL w').2))
    | None => None
    end.
Proof.
  intros Hk Hstops Hres.
  assert (Hgo : forall found s' w',
    (match found with
     | [] => total (ErrorResponse "no departure data" (5 * Minute))
     | _ => total (NewResponse (TransportPayload found) transportTTL)
     end) (s', w') =
    match found with
    | [] => Some ((ErrorResponse "no departure data" (5 * Minute) w').1,
                  (s', (ErrorResponse "no departure data" (5 * Minute) w').2))
    | _ => Some ((NewResponse (TransportPayload found) transportTTL w').1,
                 (s', (NewResponse (TransportPayload found) transportTTL w').2))
    end).
  { intros [|d found] s' w'; unfold total.
    - rewrite ErrorResponse_with_state. reflexivity.
    - rewrite NewResponse_with_state. reflexivity. }
  unfold Fetch, bindP, total, self, retP, indices. cbn [fst snd].
  rewrite (eqb_empty_false _ Hk), (length_eqb_false _ Hstops).
  destruct Hres as [(Hr & -> & ->) | (Hr & Hres)]; rewrite Hr; [|rewrite Hres];
    cbn [fst snd];
    (destruct (collect stopMonitoring _ [] _) as [[found [s' w']]|];
       [rewrite Hgo; destruct found; reflexivity | reflexivity]).
Qed.
End FetchThm.

(** X12: [FetchLive] never indexes the stops out of range, whatever the id;
    without an API key it answers "transport not configured" for an hour, and
    with one it answers "invalid stop" for a minute when the id is negative
    or too large, the stops are not resolved yet, or the stop has no
    reference; in both cases the source is left as it is. *)
Theorem FetchLive_total (W : Type) (HW : World W)
    (stopMonitoring : TransportSource -> stopInfo -> M W (list Destination + string))
    (id : Z) (s : TransportSource) (w : W) :
  (exists r s' w', FetchLive stopMonitoring id (s, w) = Some (r, (s', w')))
  /\ (apiKey s = ""%string ->
      FetchLive stopMonitoring id (s, w) =
        Some ((ErrorResponse "transport not configured" Hour w).1,
              (s, (ErrorResponse "transport not configured" Hour w).2)))
  /\ (apiKey s <> ""%string ->
      id < 0 \/ Z.of_nat (List.length (stops s)) <= id \/ ready s = false
        \/ (exists stop, index (stops s) id = Some stop /\ stopRef stop = ""%string) ->
      FetchLive stopMonitoring id (s, w) =
        Some ((ErrorResponse "invalid stop" Minute w).1,
              (s, (ErrorResponse "invalid stop" Minute w).2))).
Proof.
  split; [|split].
  - destruct (FetchLive_safe stopMonitoring id s w) as (r & s' & w' & H & _). eauto.
  - apply FetchLive_unconfigured.
  - apply FetchLive_invalid.
Qed.

(** X13: a live request for a resolved stop whose cached departures are less
    than twenty seconds old is answered from them: no request goes upstream
    and the source is left as it is. *)
Theorem FetchLive_served_from_cache (W : Type) (HW : World W)
    (stopMonitoring : TransportSource -> stopInfo -> M W (list Destination + string))
    (id : Z) (s : TransportSource) (w : W) (stop : stopInfo) (cached : departureCache) :
  apiKey s <> ""%string -> ready s = true ->
  index (stops s) id = Some stop -> stopRef stop <> ""%string ->
  cache s !! id = Some cached ->
  Sub (time_Now w).1 (fetchedAt cached) < transportLiveTTL ->
  let data := StopPayload (mkStopData id (name stop) (line stop) (color stop)
                                      (colorText stop) (destinations cached)) in
  FetchLive stopMonitoring id (s, w) =
    Some ((NewResponse data transportLiveTTL (time_Now w).2).1,
          (s, (NewResponse data transportLiveTTL (time_Now w).2).2)).
Proof. apply FetchLive_fresh. Qed.

Lemma FetchLive_served_from_cache_witness :
  FetchLive cts_down 0 (tram_warm, mkClock (t0 + 10 * Second) 1) =
    Some ((NewResponse (StopPayload homme_de_fer_data) transportLiveTTL
             (mkClock (t0 + 10 * Second + 1) 1)).1,
          (tram_warm, (NewResponse (StopPayload homme_de_fer_data) transportLiveTTL
                         (mkClock (t0 + 10 * Second + 1) 1)).2)).
Proof.
  refine (FetchLive_served_from_cache Clock _ cts_down 0 tram_warm
            (mkClock (t0 + 10 * Second) 1) homme_de_fer
            (mkDepartureCache to_stadium t0) _ _ _ _ _ _).
  - discriminate.
  - reflexivity.
  - reflexivity.
  - discriminate.
  - reflexivity.
  - vm_compute. reflexivity.
Defined.

(** X14: a live request for a resolved stop whose cached departures are
    twenty seconds old or more goes upstream, and when that fails it answers
    "fetch failed" for a minute with no payload: the old departures are not
    served, the failure is not cached and the source is left as it is. *)
Theorem FetchLive_no_fallback (W : Type) (HW : World W)
    (stopMonitoring : TransportSource -> stopInfo -> M W (list Destination + string))
    (id : Z) (s : TransportSource) (w w2 : W) (stop : stopInfo) (cached : departureCache)
    (err : string) :
  apiKey s <> ""%string -> ready s = true ->
  index (stops s) id = Some stop -> stopRef stop <> ""%string ->
  cache s !! id = Some cached ->
  transportLiveTTL <= Sub (time_Now w).1 (fetchedAt cached) ->
  stopMonitoring s stop (time_Now w).2 = (inr err, w2) ->
  exists r w',
    FetchLive stopMonitoring id (s, w) = Some (r, (s, w'))
    /\ Error r = "fetch failed"%string /\ Data r = None
    /\ (r, w') = ErrorResponse "fetch failed" Minute w2.
Proof.
  intros Hk Hr Hi Hs Hc Hold Hup.
  rewrite (FetchLive_resolved stopMonitoring id s w stop Hk Hr Hi Hs).
  rewrite (getDepartures_miss stopMonitoring id transportLiveTTL s w (time_Now w).2 stop Hi)
    by eauto 10.
  rewrite Hup, Hi. eexists _, _. split; [reflexivity|].
  unfold ErrorResponse, bind, ret.
  destruct (time_Now w2) as [t1 w3]. destruct (time_Now w3) as [t2 w4]. cbn. auto.
Qed.

Lemma FetchLive_no_fallback_witness :
  exists r w',
    FetchLive cts_down 0 (tram_warm, mkClock (t0 + 30 * Second) 1) = Some (r, (tram_warm, w'))
    /\ Error r = "fetch failed"%string /\ Data r = None
    /\ (r, w') = ErrorResponse "fetch failed" Minute (mkClock (t0 + 30 * Second + 1) 1).
Proof.
  apply (FetchLive_no_fallback Clock _ cts_down 0 tram_warm (mkClock (t0 + 30 * Second) 1)
           (mkClock (t0 + 30 * Second + 1) 1) homme_de_fer
           (mkDepartureCache to_stadium t0) "timeout").
  - discriminate.
  - reflexivity.
  - reflexivity.
  - discriminate.
  - reflexivity.
  - vm_compute. discriminate.
  - reflexivity.
Defined.

(** X15: [resolveStops] returns the error of the discovery request and
    changes nothing, or marks the source ready and resolves each stop on its
    own: line and name are kept; the stop takes the reference and colours of
    a stop and line of the answer that fit it whenever there is one, and is
    left without reference otherwise. *)
Theorem resolveStops_spec (W : Type) (HW : World W)
    (stopPointsDiscovery : TransportSource -> M W (list AnnotatedStopPointRef + string))
    (s : TransportSource) (w : W) :
  match stopPointsDiscovery s w with
  | (inr err, w') => resolveStops stopPointsDiscovery (s, w) = (Some err, (s, w'))
  | (inl apiStops, w') =>
      exists s',
        resolveStops stopPointsDiscovery (s, w) = (None, (s', w'))
        /\ ready s' = true /\ apiKey s' = apiKey s /\ cache s' = cache s
        /\ List.length (stops s') = List.length (stops s)
        /\ forall (i : nat) (stop : stopInfo), stops s !! i = Some stop ->
             exists stop',
               stops s' !! i = Some stop'
               /\ line stop' = line stop /\ name stop' = name stop
               /\ ((exists a l, a ∈ apiStops /\ fits stop (stopRef stop) a l
                      /\ stopRef stop' = StopPointRef a
                      /\ color stop' = ("#" ++ RouteColor l)%string
                      /\ colorText stop' = ("#" ++ RouteTextColor l)%string)
                   \/ ((forall a l, a ∈ apiStops -> ~ fits stop (stopRef stop) a l)
                       /\ stopRef stop' = ""%string
                       /\ color stop' = color stop /\ colorText stop' = colorText stop))
  end.
Proof. apply resolveStops_result. Qed.

Section FetchThm2.
Context {W : Type} {HW : World W}.
Variable stopMonitoring : TransportSource -> stopInfo -> M W (list Destination + string).
Variable stopPointsDiscovery : TransportSource -> M W (list AnnotatedStopPointRef + string).
Implicit Types (s : TransportSource) (w : W) (id : Z).

Lemma Fetch_unconfigured s w :
  apiKey s = ""%string ->
  Fetch stopMonitoring stopPointsDiscovery (s, w) =
    Some ((ErrorResponse "transport not configured" Hour w).1,
          (s, (ErrorResponse "transport not configured" Hour w).2)).
Proof.
  intros Hk. unfold Fetch, bindP, total, self. cbn [fst snd]. rewrite Hk. cbn.
  rewrite ErrorResponse_with_state. reflexivity.
Qed.

Lemma Fetch_no_stops s w :
  apiKey s <> ""%string -> stops s = [] ->
  Fetch stopMonitoring stopPointsDiscovery (s, w) =
    Some ((ErrorResponse "no stops configured" Hour w).1,
          (s, (ErrorResponse "no stops configured" Hour w).2)).
Proof.
  intros Hk Hs. unfold Fetch, bindP, total, self. cbn [fst snd].
  rewrite (eqb_empty_false _ Hk), Hs. cbn.
  rewrite ErrorResponse_with_state. reflexivity.
Qed.

Lemma Fetch_unresolved s w err w' :
  apiKey s <> ""%string -> stops s <> [] -> ready s = false ->
  stopPointsDiscovery s w = (inr err, w') ->
  Fetch stopMonitoring stopPointsDiscovery (s, w) =
    Some ((ErrorResponse ("resolve: " ++ err) Hour w').1,
          (s, (ErrorResponse ("resolve: " ++ err) Hour w').2)).
Proof.
  intros Hk Hs Hr Hd. unfold Fetch, bindP, total, self. cbn [fst snd].
  rewrite (eqb_empty_false _ Hk), (length_eqb_false _ Hs), Hr.
  pose proof (resolveStops_result stopPointsDiscovery s w) as Hres. rewrite Hd in Hres.
  rewrite Hres. rewrite ErrorResponse_with_state. reflexivity.
Qed.

(** The state in which [Fetch] runs its loop, when it gets there. *)
Lemma Fetch_resolution s w :
  apiKey s <> ""%string -> stops s <> [] ->
  (exists err w', ready s = false /\ stopPointsDiscovery s w = (inr err, w'))
  \/ exists s0 w0,
       ((ready s = true /\ s0 = s /\ w0 = w)
        \/ (ready s = false /\ resolveStops stopPointsDiscovery (s, w) = (None, (s0, w0))))
       /\ ready s0 = true /\ apiKey s0 = apiKey s /\ cache s0 = cache s
       /\ List.length (stops s0) = List.length (stops s)
       /\ (ready s = true -> stops s0 = stops s).
Proof.
  intros Hk Hs. destruct (ready s) eqn:Hr.
  - right. exists s, w. auto 10.
  - pose proof (resolveStops_result stopPointsDiscovery s w) as Hres.
    destruct (stopPointsDiscovery s w) as [[apiStops|err] w'].
    + destruct Hres as (s0 & Hres & Hr0 & Hk0 & Hc0 & Hl0 & _).
      right. exists s0, w'. split; [right; auto|]. repeat split; auto. discriminate.
    + left. eauto.
Qed.
End FetchThm2.

(** X16: [Fetch] of the transport source never indexes the stops out of
    range and keeps their number and the API key; it answers "transport not
    configured" without a key, "no stops configured" without stops, and
    "resolve: ..." when the discovery request fails, each for an hour and
    with the source left as it is; once the source is ready its stops are
    never resolved again. *)
Theorem Transport_Fetch_total (W : Type) (HW : World W)
    (stopMonitoring : TransportSource -> stopInfo -> M W (list Destination + string))
    (stopPointsDiscovery : TransportSource -> M W (list AnnotatedStopPointRef + string))
    (s : TransportSource) (w : W) :
  (exists r s' w',
     Fetch stopMonitoring stopPointsDiscovery (s, w) = Some (r, (s', w'))
     /\ apiKey s' = apiKey s
     /\ List.length (stops s') = List.length (stops s)
     /\ (ready s = true -> stops s' = stops s /\ ready s' = true))
  /\ (apiKey s = ""%string ->
      Fetch stopMonitoring stopPointsDiscovery (s, w) =
        Some ((ErrorResponse "transport not configured" Hour w).1,
              (s, (ErrorResponse "transport not configured" Hour w).2)))
  /\ (apiKey s <> ""%string -> stops s = [] ->
      Fetch stopMonitoring stopPointsDiscovery (s, w) =
        Some ((ErrorResponse "no stops configured" Hour w).1,
              (s, (ErrorResponse "no stops configured" Hour w).2)))
  /\ (forall err w', apiKey s <> ""%string -> stops s <> [] -> ready s = false ->
      stopPointsDiscovery s w = (inr err, w') ->
      Fetch stopMonitoring stopPointsDiscovery (s, w) =
        Some ((ErrorResponse ("resolve: " ++ err) Hour w').1,
              (s, (ErrorResponse ("resolve: " ++ err) Hour w').2))).
Proof.
  split; [|split; [apply Fetch_unconfigured | split; [apply Fetch_no_stops |]]].
  2: { intros err w'. apply Fetch_unresolved. }
  destruct (String.eqb_spec (apiKey s) "") as [Hk | Hk].
  { rewrite (Fetch_unconfigured stopMonitoring stopPointsDiscovery s w Hk). eauto 10. }
  destruct (stops s) as [|st rest] eqn:Hs.
  { rewrite (Fetch_no_stops stopMonitoring stopPointsDiscovery s w Hk Hs).
    eexists _, _, _. split; [reflexivity|]. rewrite Hs. auto. }
  assert (Hne : stops s <> []) by (rewrite Hs; discriminate). rewrite <- Hs.
  destruct (Fetch_resolution stopPointsDiscovery s w Hk Hne)
    as [(err & w' & Hr & Hd) | (s0 & w0 & Hres & Hr0 & Hk0 & Hc0 & Hl0 & Hst0)].
  { rewrite (Fetch_unresolved stopMonitoring stopPointsDiscovery s w err w' Hk Hne Hr Hd).
    eexists _, _, _. split; [reflexivity|]. rewrite Hr. repeat split; auto; discriminate. }
  rewrite (Fetch_ready stopMonitoring stopPointsDiscovery s w s0 w0 Hk Hne Hres).
  destruct (indices_range (List.length (stops s0))) as [Hrange Hnd].
  destruct (collect_result stopMonitoring (indices s0) [] s0 w0 Hrange Hnd)
    as (new & s' & w' & Hc & Hst & Hr & Hk' & _).
  rewrite Hc. cbn [app].
  assert (Hframe : apiKey s' = apiKey s /\ List.length (stops s') = List.length (stops s)
                   /\ (ready s = true -> stops s' = stops s /\ ready s' = true)).
  { split; [congruence|]. split; [congruence|]. intros Ht. split; [|congruence].
    rewrite Hst. apply Hst0, Ht. }
  destruct new; eexists _, _, _; (split; [reflexivity | exact Hframe]).
Qed.

(** X17: a successful [Fetch] returns at least one stop; each stop it returns
    was built from a resolved stop and from the departures now cached for
    it, and a live request for that stop made while those departures are
    less than twenty seconds old returns the same stop data without any
    request upstream. *)
Theorem Transport_Fetch_shares_cache (W : Type) (HW : World W)
    (stopMonitoring : TransportSource -> stopInfo -> M W (list Destination + string))
    (stopPointsDiscovery : TransportSource -> M W (list AnnotatedStopPointRef + string))
    (s s' : TransportSource) (w w' : W) (r : Response) (found : list StopData) :
  Fetch stopMonitoring stopPointsDiscovery (s, w) = Some (r, (s', w')) ->
  Data r = Some (TransportPayload found) ->
  found <> [] /\ ready s' = true
  /\ Forall (builtFrom s') found
  /\ forall (d : StopData) (cached : departureCache) (w2 : W),
       d ∈ found ->
       cache s' !! sd_ID d = Some cached ->
       Sub (time_Now w2).1 (fetchedAt cached) < transportLiveTTL ->
       FetchLive stopMonitoring (sd_ID d) (s', w2) =
         Some ((NewResponse (StopPayload d) transportLiveTTL (time_Now w2).2).1,
               (s', (NewResponse (StopPayload d) transportLiveTTL (time_Now w2).2).2)).
Proof.
  intros Hf Hdata.
  assert (Herr : forall msg ttl w0, Data (ErrorResponse msg ttl w0).1 = None).
  { intros msg ttl w0. unfold ErrorResponse, bind, ret.
    destruct (time_Now w0) as [t1 w1]. destruct (time_Now w1) as [t2 w2]. reflexivity. }
  assert (Hnew : forall data ttl w0, Data (NewResponse data ttl w0).1 = Some data).
  { intros data ttl w0. unfold NewResponse, bind, ret.
    destruct (time_Now w0) as [t1 w1]. destruct (time_Now w1) as [t2 w2]. reflexivity. }
  destruct (String.eqb_spec (apiKey s) "") as [Hk | Hk].
  { rewrite (Fetch_unconfigured stopMonitoring stopPointsDiscovery s w Hk) in Hf.
    injection Hf as <- _ _. rewrite Herr in Hdata. discriminate. }
  destruct (stops s) as [|st rest] eqn:Hs.
  { rewrite (Fetch_no_stops stopMonitoring stopPointsDiscovery s w Hk Hs) in Hf.
    injection Hf as <- _ _. rewrite Herr in Hdata. discriminate. }
  assert (Hne : stops s <> []) by (rewrite Hs; discriminate).
  destruct (Fetch_resolution stopPointsDiscovery s w Hk Hne)
    as [(err & w1 & Hr & Hd) | (s0 & w0 & Hres & Hr0 & Hk0 & Hc0 & Hl0 & Hst0)].
  { rewrite (Fetch_unresolved stopMonitoring stopPointsDiscovery s w err w1 Hk Hne Hr Hd) in Hf.
    injection Hf as <- _ _. rewrite Herr in Hdata. discriminate. }
  rewrite (Fetch_ready stopMonitoring stopPointsDiscovery s w s0 w0 Hk Hne Hres) in Hf.
  destruct (indices_range (List.length (stops s0))) as [Hrange Hnd].
  destruct (collect_result stopMonitoring (indices s0) [] s0 w0 Hrange Hnd)
    as (new & s1 & w1 & Hc & Hst & Hr & Hk' & _ & Hbuilt & _).
  rewrite Hc in Hf. cbn [app] in Hf.
  destruct new as [|d0 new].
  { injection Hf as <- _ _. rewrite Herr in Hdata. discriminate. }
  injection Hf as <- <- _. rewrite Hnew in Hdata. injection Hdata as <-.
  split; [discriminate|]. split; [congruence|]. split; [exact Hbuilt|].
  intros d cached w2 Hd Hcached Hfresh.
  rewrite Forall_forall in Hbuilt.
  destruct (Hbuilt d Hd) as (stop & fetched & Hi & Href & Hshape & Hentry).
  rewrite (FetchLive_fresh stopMonitoring (sd_ID d) s1 w2 stop cached);
    try assumption; [| congruence | congruence].
  rewrite Hentry in Hcached. injection Hcached as <-. cbn [destinations].
  rewrite <- Hshape. reflexivity.
Qed.

Lemma Transport_Fetch_shares_cache_witness :
  FetchLive cts_down 0 (tram_warm, mkClock (t0 + 10 * Second) 1) =
    Some ((NewResponse (StopPayload homme_de_fer_data) transportLiveTTL
             (mkClock (t0 + 10 * Second + 1) 1)).1,
          (tram_warm, (NewResponse (StopPayload homme_de_fer_data) transportLiveTTL
                         (mkClock (t0 + 10 * Second + 1) 1)).2)).
Proof.
  destruct (Transport_Fetch_shares_cache Clock _ cts_up cts_discovery tram_cold tram_warm
              (mkClock t0 1) (mkClock (t0 + 3) 1)
              (mkResponse (Some (TransportPayload [homme_de_fer_data]))
                          "2024-11-01T03:00:00Z" "" (t0 + 2 + transportTTL))
              [homme_de_fer_data]) as (_ & _ & _ & Hlive).
  - vm_compute. reflexivity.
  - reflexivity.
  - apply (Hlive homme_de_fer_data (mkDepartureCache to_stadium t0)
                 (mkClock (t0 + 10 * Second) 1)).
    + left.
    + reflexivity.
    + vm_compute. reflexivity.
Defined.

(** X18: the departures [getDepartures] returns are the ones it leaves in
    the cache of the source under the stop's index, and any later call for
    that stop made before they reach the maximal age asked for returns them
    again without a request upstream. *)
Theorem getDepartures_cached (W : Type) (HW : World W)
    (stopMonitoring : TransportSource -> stopInfo -> M W (list Destination + string))
    (id : Z) (maxAge : Duration) (s s1 : TransportSource) (w w1 : W)
    (dests : list Destination) :
  getDepartures stopMonitoring id maxAge (s, w) = Some (inl dests, (s1, w1)) ->
  exists fetched,
    cache s1 !! id = Some (mkDepartureCache dests fetched)
    /\ forall (maxAge' : Duration) (w2 : W),
         Sub (time_Now w2).1 fetched < maxAge' ->
         getDepartures stopMonitoring id maxAge' (s1, w2) =
           Some (inl dests, (s1, (time_Now w2).2)).
Proof.
  intros Hg.
  assert (Hentry : exists fetched, cache s1 !! id = Some (mkDepartureCache dests fetched)).
  { destruct (index (stops s) id) as [stop|] eqn:Hi.
    - destruct (getDepartures_cases id maxAge s w) as [Hn | [(c & Hc & Hf) | (c & Hc & Ho)]].
      + rewrite (getDepartures_miss stopMonitoring id maxAge s w w stop Hi) in Hg by auto.
        destruct (stopMonitoring s stop w) as [[d|err] w2]; [|discriminate].
        injection Hg as <- <- _. cbn. rewrite lookup_insert_eq. eauto.
      + rewrite (getDepartures_hit stopMonitoring id maxAge s w c Hc Hf) in Hg.
        injection Hg as <- <- _. destruct c. eauto.
      + rewrite (getDepartures_miss stopMonitoring id maxAge s w (time_Now w).2 stop Hi) in Hg
          by eauto 10.
        destruct (stopMonitoring s stop _) as [[d|err] w2]; [|discriminate].
        injection Hg as <- <- _. cbn. rewrite lookup_insert_eq. eauto.
    - destruct (getDepartures_cases id maxAge s w) as [Hn | [(c & Hc & Hf) | (c & Hc & Ho)]].
      + unfold getDepartures, bindP, total, self, retP in Hg. cbn [fst snd] in Hg.
        rewrite Hn in Hg. unfold fetchDepartures, bindP, total, self in Hg. cbn in Hg.
        rewrite Hi in Hg. discriminate.
      + rewrite (getDepartures_hit stopMonitoring id maxAge s w c Hc Hf) in Hg.
        injection Hg as <- <- _. destruct c. eauto.
      + unfold getDepartures, bindP, total, self, retP in Hg. cbn [fst snd] in Hg.
        rewrite Hc in Hg. cbn in Hg. destruct (time_Now w) as [now w']. cbn in *.
        replace (Sub now (fetchedAt c) <? maxAge) with false in Hg
          by (symmetry; apply Z.ltb_ge; exact Ho).
        unfold fetchDepartures, bindP, total, self in Hg. cbn in Hg.
        rewrite Hi in Hg. discriminate. }
  destruct Hentry as [fetched He]. exists fetched. split; [exact He|].
  intros maxAge' w2 Hf.
  apply (getDepartures_hit stopMonitoring id maxAge' s1 w2 _ He Hf).
Qed.

Lemma getDepartures_cached_witness :
  exists fetched,
    cache tram_warm !! 0 = Some (mkDepartureCache to_stadium fetched)
    /\ forall (maxAge' : Duration) (w2 : Clock),
         Sub (time_Now w2).1 fetched < maxAge' ->
         getDepartures cts_down 0 maxAge' (tram_warm, w2) =
           Some (inl to_stadium, (tram_warm, (time_Now w2).2)).
Proof.
  apply (getDepartures_cached Clock _ cts_down 0 transportTTL tram_warm tram_warm
           (mkClock (t0 + 10 * Second) 1) (mkClock (t0 + 10 * Second + 1) 1) to_stadium).
  reflexivity.
Defined.

End TransportProofs.

(** ** The results of [fetchAll] and the cache *)

Section Agreement.
Context {W : Type} {HW : World W}.
Implicit Types (p : Pool (W := W)) (g : goroutine (W := W)) (s : Sys W).

Lemma action_current_other g s res k :
  k <> Name (g_src g) -> currentOf (action g s res).1.2 k = currentOf s k.
Proof.
  intros Hk. unfold currentOf, action. destruct (g_pc g).
  - pose proof (Cache_Get_frame (Name (g_src g)) s) as [Hc _].
    destruct (Cache_Get _ s) as [[r|] s']; cbn in *; rewrite Hc; reflexivity.
  - pose proof (callFetch_frame (g_src g) s) as [Hc _].
    destruct (callFetch _ s) as [r s']. destruct (failed r); cbn in *; rewrite Hc; reflexivity.
  - pose proof (Cache_GetBackup_frame (Name (g_src g)) s) as [Hc _].
    destruct (Cache_GetBackup _ s) as [b s']. cbn in *. rewrite Hc. reflexivity.
  - pose proof (Cache_Set_other (Name (g_src g)) resp (DegradedTTL (g_src g)) s k Hk) as Hc.
    destruct (Cache_Set _ _ _ s) as [u s']. cbn in *. rewrite Hc. reflexivity.
  - reflexivity.
  - reflexivity.
Qed.

Lemma action_results_other g s res n :
  n <> g_name g -> (action g s res).2 !! n = res !! n.
Proof.
  intros Hn. unfold action. destruct (g_pc g).
  - destruct (Cache_Get _ s) as [[r|] s']; reflexivity.
  - destruct (callFetch _ s) as [r s']. destruct (failed r); reflexivity.
  - destruct (Cache_GetBackup _ s) as [b s']. reflexivity.
  - destruct (Cache_Set _ _ _ s) as [u s']. reflexivity.
  - cbn. rewrite lookup_insert_ne by congruence. reflexivity.
  - reflexivity.
Qed.

(** The action of one goroutine leaves the others settled. *)
Lemma action_settled_other g g' s res :
  g_name g' <> g_name g -> Name (g_src g') <> Name (g_src g) ->
  settled s res g' -> settled (action g s res).1.2 (action g s res).2 g'.
Proof.
  intros Hn Hk. unfold settled. destruct (g_pc g'); auto.
  - rewrite action_current_other by exact Hk. auto.
  - rewrite action_current_other by exact Hk.
    rewrite action_results_other by exact Hn. auto.
Qed.

(** And it leaves the goroutine itself settled. *)
Lemma action_settled_self g s res :
  settled s res g ->
  settled (action g s res).1.2 (action g s res).2
          (mkGo (g_name g) (g_src g) (action g s res).1.1).
Proof.
  unfold settled, action. cbn [g_pc g_src g_name]. destruct (g_pc g) eqn:Hpc.
  - intros _. pose proof (Cache_Get_frame (Name (g_src g)) s) as [Hc _].
    pose proof (Cache_Get_current (Name (g_src g)) s) as Hcur.
    destruct (Cache_Get _ s) as [[r|] s']; cbn in *; [|exact I].
    unfold currentOf in *. rewrite Hc. apply Hcur. reflexivity.
  - intros _. destruct (callFetch _ s) as [r s']. destruct (failed r); exact I.
  - intros _. destruct (Cache_GetBackup _ s) as [b s']. exact I.
  - intros _.
    pose proof (Cache_Set_item (Name (g_src g)) resp (DegradedTTL (g_src g)) s) as Hi.
    destruct (Cache_Set _ _ _ s) as [u s']. cbn in *. unfold currentOf. rewrite Hi. reflexivity.
  - intros Hcur. cbn. exists resp. rewrite lookup_insert_eq. auto.
  - intros H. exact H.
Qed.

Lemma sched_apart i p p' : sched i p = Some p' -> apart (threads p) -> apart (threads p').
Proof.
  unfold sched. destruct (threads p !! i) as [g|] eqn:Hg; [|discriminate].
  destruct (runnable g); [|discriminate].
  destruct (action g (sys p) (results p)) as [[pc' s'] res'].
  intros [= <-] Hap. cbn [threads]. intros j k gj gk Hj Hk Hjk.
  assert (Hlook : forall m gm, <[i := mkGo (g_name g) (g_src g) pc']> (threads p) !! m = Some gm ->
            exists gm0, threads p !! m = Some gm0 /\ g_name gm = g_name gm0
                        /\ g_src gm = g_src gm0).
  { intros m gm Hm. destruct (decide (i = m)) as [<- | Hne].
    - rewrite list_lookup_insert_eq in Hm by (eapply lookup_lt_Some; exact Hg).
      injection Hm as <-. exists g. auto.
    - rewrite list_lookup_insert_ne in Hm by exact Hne. exists gm. auto. }
  destruct (Hlook j gj Hj) as (gj0 & Hj0 & -> & ->).
  destruct (Hlook k gk Hk) as (gk0 & Hk0 & -> & ->).
  apply (Hap j k gj0 gk0 Hj0 Hk0 Hjk).
Qed.

Lemma sched_settled i p p' :
  sched i p = Some p' -> apart (threads p) ->
  Forall (settled (sys p) (results p)) (threads p) ->
  Forall (settled (sys p') (results p')) (threads p').
Proof.
  unfold sched. destruct (threads p !! i) as [g|] eqn:Hg; [|discriminate].
  destruct (runnable g); [|discriminate].
  pose proof (action_settled_self g (sys p) (results p)) as Hself.
  pose proof (fun g' => action_settled_other g g' (sys p) (results p)) as Hother.
  destruct (action g (sys p) (results p)) as [[pc' s'] res']. cbn [fst snd] in *.
  intros [= <-] Hap Hall. cbn [threads sys results].
  rewrite Forall_lookup in Hall. apply Forall_lookup. intros j gj Hj.
  destruct (decide (i = j)) as [<- | Hne].
  - rewrite list_lookup_insert_eq in Hj by (eapply lookup_lt_Some; exact Hg).
    injection Hj as <-. apply Hself. apply (Hall i g Hg).
  - rewrite list_lookup_insert_ne in Hj by exact Hne.
    destruct (Hap j i gj g Hj Hg ltac:(congruence)) as [Hn Hk].
    apply Hother; [exact Hn | exact Hk | apply (Hall j gj Hj)].
Qed.

Lemma steps_settled n p p' :
  steps n p p' -> apart (threads p) ->
  Forall (settled (sys p) (results p)) (threads p) ->
  Forall (settled (sys p') (results p')) (threads p').
Proof.
  induction 1 as [p | n i p p' p'' Hs _ IH]; intros Hap Hall; [exact Hall|].
  apply IH; [eapply sched_apart | eapply sched_settled]; eassumption.
Qed.

Lemma steps_sources n p p' :
  steps n p p' ->
  (fun g => (g_name g, g_src g)) <$> threads p' = (fun g => (g_name g, g_src g)) <$> threads p.
Proof.
  induction 1 as [p | n i p p' p'' Hs _ IH]; [reflexivity|]. rewrite IH.
  unfold sched in Hs. destruct (threads p !! i) as [g|] eqn:Hg; [|discriminate].
  destruct (runnable g); [|discriminate].
  destruct (action g (sys p) (results p)) as [[pc' s'] res'].
  injection Hs as <-. cbn [threads]. rewrite list_fmap_insert. cbn [g_name g_src].
  apply list_insert_id. rewrite list_lookup_fmap, Hg. reflexivity.
Qed.

Lemma apart_spawn (sources : gmap string (Source W)) :
  (forall k1 k2 src1 src2, sources !! k1 = Some src1 -> sources !! k2 = Some src2 ->
     Name src1 = Name src2 -> k1 = k2) ->
  apart (spawn sources).
Proof.
  intros Hdist i j g g' Hi Hj Hij. unfold spawn in *.
  rewrite list_lookup_fmap in Hi, Hj.
  destruct (map_to_list sources !! i) as [[k1 src1]|] eqn:Hi'; [|discriminate].
  destruct (map_to_list sources !! j) as [[k2 src2]|] eqn:Hj'; [|discriminate].
  injection Hi as <-. injection Hj as <-. cbn.
  assert (Hk : k1 <> k2).
  { intros ->. apply Hij.
    pose proof (NoDup_fst_map_to_list sources) as Hnd.
    eapply NoDup_lookup; [exact Hnd | |];
      rewrite list_lookup_fmap; [rewrite Hi' | rewrite Hj']; reflexivity. }
  split; [exact Hk|]. intros Hname. apply Hk.
  apply (Hdist k1 k2 src1 src2); [| |exact Hname];
    apply elem_of_map_to_list; eapply list_elem_of_lookup_2; eassumption.
Qed.

(** At the join the results are the current entries of the cache. *)
Lemma joined_agree n (sources : gmap string (Source W)) s p :
  (forall k1 k2 src1 src2, sources !! k1 = Some src1 -> sources !! k2 = Some src2 ->
     Name src1 = Name src2 -> k1 = k2) ->
  steps n (start sources s) p -> joined p ->
  forall k src, sources !! k = Some src ->
    exists r, results p !! k = Some r /\ currentOf (sys p) (Name src) = Some r.
Proof.
  intros Hdist Hsteps Hj k src Hk.
  pose proof (steps_settled n _ p Hsteps (apart_spawn sources Hdist)) as Hall.
  pose proof (steps_sources n _ p Hsteps) as Hsrc.
  assert (Hin : (k, src) ∈ (fun g => (g_name g, g_src g)) <$> threads p).
  { rewrite Hsrc. unfold start, spawn. cbn [threads]. rewrite <- list_fmap_compose.
    apply list_elem_of_fmap. exists (k, src). split; [reflexivity|].
    apply elem_of_map_to_list. exact Hk. }
  apply list_elem_of_fmap in Hin as (g & Hg & Hgin).
  injection Hg as -> ->.
  assert (Hset : settled (sys p) (results p) g).
  { assert (Hall' : Forall (settled (sys p) (results p)) (threads p)).
    { apply Hall. unfold start, spawn. cbn [threads sys results].
      apply Forall_fmap, Forall_forall. intros kv _. exact I. }
    rewrite Forall_forall in Hall'. apply Hall'. exact Hgin. }
  unfold joined in Hj. rewrite Forall_forall in Hj. specialize (Hj g Hgin).
  unfold settled in Hset. rewrite Hj in Hset. exact Hset.
Qed.
End Agreement.

Section AgreementMain.
Context {W : Type} {HW : World W}.
Variables weather transport temperature electricity tempo : Source W.

Lemma main_sources_lookup k src :
  main_sources weather transport temperature electricity tempo !! k = Some src ->
  (k = "weather"%string /\ src = weather) \/ (k = "transport"%string /\ src = transport)
  \/ (k = "temperature"%string /\ src = temperature)
  \/ (k = "electricity"%string /\ src = electricity)
  \/ (k = "tempo"%string /\ src = tempo).
Proof.
  unfold main_sources. intros H.
  repeat (apply lookup_insert_Some in H as [[<- <-] | [_ H]]; [auto 10|]).
  rewrite lookup_empty in H. discriminate.
Qed.

Lemma main_sources_apart :
  NoDup [Name weather; Name transport; Name temperature; Name electricity; Name tempo] ->
  forall k1 k2 src1 src2,
    main_sources weather transport temperature electricity tempo !! k1 = Some src1 ->
    main_sources weather transport temperature electricity tempo !! k2 = Some src2 ->
    Name src1 = Name src2 -> k1 = k2.
Proof.
  intros Hnd k1 k2 src1 src2 H1 H2 Hname.
  assert (Hdist : Name weather <> Name transport /\ Name weather <> Name temperature
                  /\ Name weather <> Name electricity /\ Name weather <> Name tempo
                  /\ Name transport <> Name temperature /\ Name transport <> Name electricity
                  /\ Name transport <> Name tempo /\ Name temperature <> Name electricity
                  /\ Name temperature <> Name tempo /\ Name electricity <> Name tempo).
  { apply NoDup_cons in Hnd as [Hw Hnd]. apply NoDup_cons in Hnd as [Ht Hnd].
    apply NoDup_cons in Hnd as [Hte Hnd]. apply NoDup_cons in Hnd as [He _].
    repeat split; intros Heq;
      first [ solve [apply Hw; rewrite Heq, ?elem_of_cons; auto 10]
            | solve [apply Ht; rewrite Heq, ?elem_of_cons; auto 10]
            | solve [apply Hte; rewrite Heq, ?elem_of_cons; auto 10]
            | solve [apply He; rewrite Heq, ?elem_of_cons; auto 10] ]. }
  clear Hnd.
  apply main_sources_lookup in H1, H2.
  destruct H1 as [[Hk1 Hs1] | [[Hk1 Hs1] | [[Hk1 Hs1] | [[Hk1 Hs1] | [Hk1 Hs1]]]]];
    destruct H2 as [[Hk2 Hs2] | [[Hk2 Hs2] | [[Hk2 Hs2] | [[Hk2 Hs2] | [Hk2 Hs2]]]]];
    rewrite Hk1, Hk2; try reflexivity; exfalso; rewrite Hs1, Hs2 in Hname;
    intuition congruence.
Qed.
End AgreementMain.

(** X19: when the five sources of [main] have different names, whatever the
    interleaving, each entry of the value [fetchAll] returns is the current
    entry of the cache under the name of its source at the join: concurrent
    fetches of different sources do not overwrite one another. *)
Theorem fetchAll_agrees_with_cache (W : Type) (HW : World W)
    (weather transport temperature electricity tempo : Source W)
    (s s' : Sys W) (out : AllData) :
  NoDup [Name weather; Name transport; Name temperature; Name electricity; Name tempo] ->
  fetchAll (main_sources weather transport temperature electricity tempo) s out s' ->
  is_Some (all_Weather out)
  /\ all_Weather out = currentOf s' (Name weather)
  /\ all_Transport out = currentOf s' (Name transport)
  /\ all_Temperature out = currentOf s' (Name temperature)
  /\ all_Electricity out = currentOf s' (Name electricity)
  /\ all_Tempo out = currentOf s' (Name tempo).
Proof.
  intros Hnd (n & p & Hsteps & Hj & Hout).
  pose proof (joined_agree n _ s p
                (main_sources_apart weather transport temperature electricity tempo Hnd)
                Hsteps Hj) as Hagree.
  destruct (assemble_fields p (sys p)) as (H1 & H2 & H3 & H4 & H5 & _ & Hc & _).
  rewrite Hout in *. cbn [fst snd] in *.
  assert (Hcur : forall k, currentOf s' k = currentOf (sys p) k)
    by (intros k; unfold currentOf; rewrite Hc; reflexivity).
  rewrite H1, H2, H3, H4, H5, !Hcur.
  destruct (Hagree "weather"%string weather eq_refl) as (r1 & -> & ->).
  destruct (Hagree "transport"%string transport eq_refl) as (r2 & -> & ->).
  destruct (Hagree "temperature"%string temperature eq_refl) as (r3 & -> & ->).
  destruct (Hagree "electricity"%string electricity eq_refl) as (r4 & -> & ->).
  destruct (Hagree "tempo"%string tempo eq_refl) as (r5 & -> & ->).
  eauto 10.
Qed.

Lemma fetchAll_agrees_with_cache_witness :
  let done := fetchAll_under round_robin demo_sources alpha_cold in
  all_Transport done.1 = currentOf done.2 "transport"
  /\ all_Tempo done.1 = currentOf done.2 "tempo".
Proof.
  cbv zeta.
  destruct (fetchAll_agrees_with_cache Clock _ demo_weather demo_transport demo_temperature
              demo_electricity demo_tempo alpha_cold
              (fetchAll_under round_robin demo_sources alpha_cold).2
              (fetchAll_under round_robin demo_sources alpha_cold).1)
    as (_ & _ & H2 & _ & _ & H5).
  - cbn. apply (bool_decide_unpack (NoDup _)). vm_compute. exact I.
  - apply fetchAll_under_sound, joinedb_joined. vm_compute. reflexivity.
  - split; [exact H2 | exact H5].
Defined.

(** ** The live endpoint *)

Section LiveEndpointFacts.
Context {W : Type} {HW : World W}.
Variable stopMonitoring : Transport.TransportSource -> Transport.stopInfo -> M W (list Destination + string).

Lemma liveHandler_result (id : Z) (s : Sys (Transport.TransportSource * W)) :
  exists r ts w,
    Transport.FetchLive stopMonitoring id (world s) = Some (r, (ts, w))
    /\ liveHandler stopMonitoring id s = Some (r, mkSys (cache s) (ts, w) (fetches s)).
Proof.
  destruct (world s) as [ts0 w0] eqn:Hw.
  destruct (TransportProofs.FetchLive_safe stopMonitoring id ts0 w0) as (r & ts & w & Hf & _).
  exists r, ts, w. split; [exact Hf|]. unfold liveHandler. rewrite Hw, Hf. reflexivity.
Qed.

Lemma liveEndpoint_invalid (idStr : string) (s : Sys (Transport.TransportSource * W)) :
  Atoi idStr = None ->
  liveEndpoint stopMonitoring idStr s =
    Some ((ErrorResponse "invalid id" Minute (world s).2).1,
          mkSys (cache s) ((world s).1, (ErrorResponse "invalid id" Minute (world s).2).2)
                (fetches s)).
Proof.
  intros Ha. unfold liveEndpoint. rewrite Ha. unfold total, inWorld.
  destruct (world s) as [ts w]. rewrite TransportProofs.ErrorResponse_with_state. reflexivity.
Qed.
End LiveEndpointFacts.

(** X20: the handler of [/api/transport/live] answers every query string
    without a run-time panic; a string that [strconv.Atoi] rejects gets
    "invalid id" for a minute and changes nothing; and the handler neither
    reads nor writes the response cache of the core: its answer does not
    depend on it, and cache and fetch log are left as they are. *)
Theorem liveEndpoint_total (W : Type) (HW : World W)
    (stopMonitoring : Transport.TransportSource -> Transport.stopInfo -> M W (list Destination + string))
    (idStr : string) (s : Sys (Transport.TransportSource * W)) :
  (exists r s',
     liveEndpoint stopMonitoring idStr s = Some (r, s')
     /\ cache s' = cache s /\ fetches s' = fetches s)
  /\ (Atoi idStr = None ->
      liveEndpoint stopMonitoring idStr s =
        Some ((ErrorResponse "invalid id" Minute (world s).2).1,
              mkSys (cache s)
                    ((world s).1, (ErrorResponse "invalid id" Minute (world s).2).2)
                    (fetches s)))
  /\ (forall (c : Cache) (log : list string),
        fst <$> liveEndpoint stopMonitoring idStr (mkSys c (world s) log)
        = fst <$> liveEndpoint stopMonitoring idStr s).
Proof.
  split; [|split; [apply liveEndpoint_invalid|]].
  - destruct (Atoi idStr) as [id|] eqn:Ha.
    + destruct (liveHandler_result stopMonitoring id s) as (r & ts & w & _ & Hl).
      unfold liveEndpoint. rewrite Ha, Hl. eauto.
    + rewrite (liveEndpoint_invalid stopMonitoring idStr s Ha). eauto.
  - intros c log. destruct (Atoi idStr) as [id|] eqn:Ha.
    + unfold liveEndpoint. rewrite Ha.
      destruct (liveHandler_result stopMonitoring id s) as (r & ts & w & Hf & Hl).
      destruct (liveHandler_result stopMonitoring id (mkSys c (world s) log))
        as (r' & ts' & w' & Hf' & Hl').
      cbn [world] in Hf'. rewrite Hf in Hf'. injection Hf' as <- <- <-.
      rewrite Hl, Hl'. reflexivity.
    + rewrite !(liveEndpoint_invalid stopMonitoring idStr _ Ha). reflexivity.
Qed.

(** ** The order of strings *)

Section StringOrder.

Lemma String_compare_refl (a : string) : String.compare a a = Eq.
Proof.
  induction a as [|c a IH]; [reflexivity|]. cbn.
  unfold Ascii.compare. rewrite N.compare_refl. exact IH.
Qed.

Lemma String_compare_lt_trans (a b c : string) :
  String.compare a b = Lt -> String.compare b c = Lt -> String.compare a c = Lt.
Proof.
  revert b c. induction a as [|x a IH]; intros [|y b] [|z c]; cbn; try congruence.
  unfold Ascii.compare.
  destruct (N.compare_spec (N_of_ascii x) (N_of_ascii y)) as [Hxy|Hxy|Hxy];
    destruct (N.compare_spec (N_of_ascii y) (N_of_ascii z)) as [Hyz|Hyz|Hyz];
    try congruence; intros Hab Hbc.
  - rewrite Hxy, Hyz, N.compare_refl. eauto.
  - rewrite Hxy. apply N.compare_lt_iff in Hyz. now rewrite Hyz.
  - rewrite <- Hyz. apply N.compare_lt_iff in Hxy. now rewrite Hxy.
  - assert (H : (N_of_ascii x < N_of_ascii z)%N) by lia.
    apply N.compare_lt_iff in H. now rewrite H.
Qed.

Lemma String_leb_iff (a b : string) :
  String.leb a b = true <-> String.compare a b = Lt \/ a = b.
Proof.
  unfold String.leb. destruct (String.compare a b) eqn:E.
  - apply String.compare_eq_iff in E. tauto.
  - tauto.
  - split; [discriminate|]. intros [?| ->]; [discriminate|].
    rewrite String_compare_refl in E. discriminate.
Qed.

Lemma String_ltb_iff (a b : string) : String.ltb a b = true <-> String.compare a b = Lt.
Proof. unfold String.ltb. destruct (String.compare a b); split; congruence. Qed.

#[export] Instance Strings_le_trans : Transitive Strings.le.
Proof.
  intros a b c. unfold Strings.le. rewrite !String_leb_iff.
  intros [Hab| ->] [Hbc| ->]; eauto using String_compare_lt_trans.
Qed.

#[export] Instance Strings_le_total : Total Strings.le.
Proof. intros a b. apply String.leb_total. Qed.

#[export] Instance Strings_le_antisymm : AntiSymm eq Strings.le.
Proof. intros a b. apply String.leb_antisym. Qed.

Lemma Strings_lt_le_ne (a b : string) : Strings.lt a b <-> Strings.le a b /\ a <> b.
Proof.
  unfold Strings.lt, Strings.le. rewrite String_ltb_iff, String_leb_iff. split.
  - intros H. split; [tauto|]. intros ->. rewrite String_compare_refl in H. discriminate.
  - intros [[?|?] ?]; congruence.
Qed.

Lemma Strings_lt_le (a b : string) : Strings.lt a b -> Strings.le a b.
Proof. rewrite Strings_lt_le_ne. tauto. Qed.

Lemma sortStrings_sorted (keys : list string) :
  StronglySorted Strings.le (Strings.sortStrings keys).
Proof. apply StronglySorted_merge_sort; apply _. Qed.

Lemma sortStrings_perm (keys : list string) : Strings.sortStrings keys ≡ₚ keys.
Proof. apply merge_sort_Permutation. Qed.

Lemma sortStrings_unique (l1 l2 : list string) :
  l1 ≡ₚ l2 -> Strings.sortStrings l1 = Strings.sortStrings l2.
Proof.
  intros H. apply (StronglySorted_unique Strings.le); auto using sortStrings_sorted.
  now rewrite !sortStrings_perm.
Qed.

Lemma sorted_strict (l : list string) :
  NoDup l -> StronglySorted Strings.le l -> StronglySorted Strings.lt l.
Proof.
  induction 2 as [|a l Hs IH Hall]; constructor.
  - apply IH. now apply NoDup_cons in H as [_ ?].
  - apply NoDup_cons in H as [Ha _].
    rewrite Forall_forall in *. intros x Hx. apply Strings_lt_le_ne. split; [auto|].
    intros ->. exact (Ha Hx).
Qed.

End StringOrder.
(** ** source_electricity.go: aggregateConsumption *)

Section AggregateFacts.
Import Consumptions.
Context {float64 : Type} (toInt : float64 -> Z).

Ltac by_tariff t :=
  unfold assign, tariffOf;
  repeat (match goal with
          | |- context [String.eqb t ?s] =>
              destruct (String.eqb_spec t s) as [->|?]
          end; cbn; try reflexivity; try congruence).

Lemma cons_Date_assign (t : string) (v : Z) (c : Consumption) :
  cons_Date (assign t v c) = cons_Date c.
Proof. by_tariff t. Qed.

Lemma tariffOf_assign (T t : string) (v : Z) (c : Consumption) :
  T ∈ tariffs ->
  tariffOf (assign t v c) T = if String.eqb t T then Some v else tariffOf c T.
Proof.
  unfold tariffs. rewrite !elem_of_cons, elem_of_nil.
  intros [->|[->|[->|[->|[->|[->|[->|[->|[]]]]]]]]]; by_tariff t.
Qed.

Lemma Consumption_ext (c1 c2 : Consumption) :
  cons_Date c1 = cons_Date c2 ->
  (forall T, T ∈ tariffs -> tariffOf c1 T = tariffOf c2 T) ->
  c1 = c2.
Proof.
  intros Hd H. destruct c1, c2. cbn in Hd. subst.
  f_equal.
  - apply (H "HC"%string); unfold tariffs; rewrite !elem_of_cons; tauto.
  - apply (H "HP"%string); unfold tariffs; rewrite !elem_of_cons; tauto.
  - apply (H "BCHC"%string); unfold tariffs; rewrite !elem_of_cons; tauto.
  - apply (H "BCHP"%string); unfold tariffs; rewrite !elem_of_cons; tauto.
  - apply (H "BUHC"%string); unfold tariffs; rewrite !elem_of_cons; tauto.
  - apply (H "BUHP"%string); unfold tariffs; rewrite !elem_of_cons; tauto.
  - apply (H "RHC"%string); unfold tariffs; rewrite !elem_of_cons; tauto.
  - apply (H "RHP"%string); unfold tariffs; rewrite !elem_of_cons; tauto.
Qed.

Lemma fill_Date (l : list (string * float64)) (c : Consumption) :
  cons_Date (fill float64 toInt l c) = cons_Date c.
Proof.
  revert c. induction l as [|[t x] l IH]; intros c; [reflexivity|].
  change (fill float64 toInt ((t, x) :: l) c)
    with (fill float64 toInt l (if toInt x =? 0 then c else assign t (toInt x) c)).
  rewrite IH. destruct (toInt x =? 0); [reflexivity|apply cons_Date_assign].
Qed.

Lemma fill_tariff (l : list (string * float64)) (c : Consumption) (T : string) :
  T ∈ tariffs -> NoDup l.*1 ->
  tariffOf (fill float64 toInt l c) T =
  match (list_to_map l : gmap string float64) !! T with
  | Some x => if toInt x =? 0 then tariffOf c T else Some (toInt x)
  | None => tariffOf c T
  end.
Proof.
  intros HT. revert c. induction l as [|[t x] l IH]; intros c Hnd; [reflexivity|].
  cbn in Hnd. apply NoDup_cons in Hnd as [Hnotin Hnd].
  change (fill float64 toInt ((t, x) :: l) c)
    with (fill float64 toInt l (if toInt x =? 0 then c else assign t (toInt x) c)).
  rewrite (IH _ Hnd). cbn [list_to_map foldr]. cbn.
  destruct (decide (t = T)) as [->|Hne].
  - rewrite lookup_insert_eq.
    rewrite (not_elem_of_list_to_map_1 _ _ Hnotin).
    destruct (toInt x =? 0); [reflexivity|].
    rewrite (tariffOf_assign _ _ _ _ HT), String.eqb_refl. reflexivity.
  - rewrite (lookup_insert_ne _ _ _ _ Hne).
    assert (Hstep : tariffOf (if toInt x =? 0 then c else assign t (toInt x) c) T
                    = tariffOf c T).
    { destruct (toInt x =? 0); [reflexivity|].
      rewrite (tariffOf_assign _ _ _ _ HT).
      destruct (String.eqb_spec t T); [contradiction|reflexivity]. }
    rewrite Hstep. reflexivity.
Qed.

Lemma fill_point (l : list (string * float64)) (inner : gmap string float64)
    (k T : string) :
  l ≡ₚ map_to_list inner -> T ∈ tariffs ->
  tariffOf (fill float64 toInt l
              (mkConsumption k None None None None None None None None)) T
  = rounded toInt inner T.
Proof.
  intros Hl HT. rewrite (fill_tariff _ _ _ HT).
  - rewrite <- (list_to_map_flip inner l) by (symmetry; exact Hl).
    unfold rounded. destruct (inner !! T) as [x|]; cbn.
    + replace (tariffOf _ T) with (@None Z); [reflexivity|].
      unfold tariffOf. repeat case_match; reflexivity.
    + unfold tariffOf. repeat case_match; reflexivity.
  - rewrite Hl. apply NoDup_fst_map_to_list.
Qed.

Context (order : forall A : Type, gmap string A -> list (string * A)).
Hypothesis Horder : ranges order.

(** The keys in ascending order, whatever the order of [range]. *)
Lemma keys_sorted (m : gmap string (gmap string float64)) :
  Strings.sortStrings (order _ m).*1 = Strings.sortStrings (map_to_list m).*1.
Proof. apply sortStrings_unique. now rewrite (Horder _ m). Qed.

Lemma keys_length (m : gmap string (gmap string float64)) :
  List.length (Strings.sortStrings (map_to_list m).*1) = size m.
Proof.
  rewrite (Permutation_length (sortStrings_perm _)), length_fmap.
  apply length_map_to_list.
Qed.

Lemma keys_strict (m : gmap string (gmap string float64)) :
  StronglySorted Strings.lt (Strings.sortStrings (map_to_list m).*1).
Proof.
  apply sorted_strict; [|apply sortStrings_sorted].
  rewrite sortStrings_perm. apply NoDup_fst_map_to_list.
Qed.

Lemma keys_elem (m : gmap string (gmap string float64)) (k : string) :
  k ∈ Strings.sortStrings (map_to_list m).*1 <-> is_Some (m !! k).
Proof.
  rewrite sortStrings_perm, list_elem_of_fmap. split.
  - intros ([k' x] & -> & Hin). apply elem_of_map_to_list in Hin. eauto.
  - intros [x Hx]. exists (k, x). split; [reflexivity|].
    now apply elem_of_map_to_list.
Qed.

(** The dates [aggregateConsumption] keeps. *)
Lemma aggregate_unfold (m : gmap string (gmap string float64)) (limit : Z) :
  aggregateConsumption float64 toInt order m limit =
  if limit <? 0 then None
  else Some ((fun k => fill float64 toInt (order _ (default ∅ (m !! k)))
                         (mkConsumption k None None None None None None None None))
               <$> drop (size m - Z.to_nat limit)
                        (Strings.sortStrings (map_to_list m).*1)).
Proof.
  unfold aggregateConsumption. rewrite keys_sorted.
  set (keys := Strings.sortStrings (map_to_list m).*1).
  assert (Hlen : List.length keys = size m) by apply keys_length.
  rewrite Hlen.
  destruct (Z.ltb_spec limit (Z.of_nat (size m))) as [Hlt|Hge].
  - destruct (Z.ltb_spec limit 0); [reflexivity|].
    do 3 f_equal. lia.
  - destruct (Z.ltb_spec limit 0); [lia|].
    replace (size m - Z.to_nat limit)%nat with 0%nat by lia. reflexivity.
Qed.

Lemma aggregate_result (m : gmap string (gmap string float64)) (limit : Z) :
  0 <= limit ->
  exists l,
    aggregateConsumption float64 toInt order m limit = Some l
    /\ cons_Date <$> l = drop (size m - Z.to_nat limit)
                              (Strings.sortStrings (map_to_list m).*1)
    /\ Forall (fun c => exists inner, m !! cons_Date c = Some inner
                 /\ forall T, T ∈ tariffs -> tariffOf c T = rounded toInt inner T) l.
Proof.
  intros Hlimit. rewrite aggregate_unfold.
  destruct (Z.ltb_spec limit 0); [lia|].
  eexists. split; [reflexivity|]. split.
  - rewrite <- list_fmap_compose. erewrite list_fmap_ext; [apply list_fmap_id|].
    intros i k _. cbn. apply fill_Date.
  - apply Forall_fmap, Forall_forall. intros k Hk. cbn.
    apply subseteq_drop in Hk.
    apply keys_elem in Hk as [inner Hinner].
    exists inner. rewrite fill_Date. cbn. split; [exact Hinner|].
    intros T HT. rewrite Hinner. cbn. apply fill_point; [apply Horder|exact HT].
Qed.

End AggregateFacts.
Section AggregateSpec.
Import Consumptions.
Context {float64 : Type} (toInt : float64 -> Z).

Lemma sorted_by_date (l : list Consumption) :
  StronglySorted Strings.lt (cons_Date <$> l) -> StronglySorted Consumptions.by_date l.
Proof.
  induction l as [|c l IH]; cbn; intros H; [constructor|].
  apply StronglySorted_inv in H as [Hs Hall]. constructor; [auto|].
  rewrite Forall_fmap in Hall. exact Hall.
Qed.

Lemma points_unique (m : gmap string (gmap string float64)) (l l' : list Consumption) :
  cons_Date <$> l = cons_Date <$> l' ->
  Forall (fun c => exists inner, m !! cons_Date c = Some inner
            /\ forall T, T ∈ tariffs -> tariffOf c T = rounded toInt inner T) l ->
  Forall (fun c => exists inner, m !! cons_Date c = Some inner
            /\ forall T, T ∈ tariffs -> tariffOf c T = rounded toInt inner T) l' ->
  l = l'.
Proof.
  revert l'. induction l as [|c l IH]; intros [|c' l']; cbn; try congruence.
  intros [= Hd Hrest] Hl Hl'.
  apply Forall_cons in Hl as [(inner & Hin & Hc) Hl].
  apply Forall_cons in Hl' as [(inner' & Hin' & Hc') Hl'].
  f_equal; [|auto].
  apply Consumption_ext; [exact Hd|]. intros T HT.
  rewrite (Hc T HT), (Hc' T HT). congruence.
Qed.

Lemma last_drop {A : Type} (n : nat) (l : list A) :
  (n < List.length l)%nat -> last (drop n l) = last l.
Proof.
  intros Hn. rewrite <- (take_drop n l) at 2. rewrite last_app.
  destruct (last (drop n l)) eqn:E; [reflexivity|].
  apply last_None in E. apply (f_equal List.length) in E.
  rewrite length_drop in E. cbn in E. lia.
Qed.

Lemma aggregate_properties
    (order : forall A : Type, gmap string A -> list (string * A))
    (m : gmap string (gmap string float64)) (limit : Z) :
  ranges order -> 0 <= limit ->
  exists l,
    aggregateConsumption float64 toInt order m limit = Some l
    /\ List.length l = (size m `min` Z.to_nat limit)%nat
    /\ StronglySorted Consumptions.by_date l
    /\ (forall k, is_Some (m !! k) ->
          k ∈ cons_Date <$> l \/ Forall (fun c => Strings.lt k (cons_Date c)) l)
    /\ Forall (fun c => exists inner, m !! cons_Date c = Some inner
                 /\ forall T, T ∈ tariffs -> tariffOf c T = rounded toInt inner T) l
    /\ (0 < limit -> forall y,
          match last l with
          | Some c => String.leb y (cons_Date c)
          | None => false
          end = true
          <-> exists k, is_Some (m !! k) /\ Strings.le y k).
Proof.
  intros Horder Hlimit.
  destruct (aggregate_result toInt order Horder m limit Hlimit) as (l & Hl & Hdates & Hpoints).
  exists l. split; [exact Hl|].
  pose proof (keys_length m) as Hlen.
  pose proof (keys_strict m) as Hsorted.
  pose proof (keys_elem m) as Helem.
  set (keys := Strings.sortStrings (map_to_list m).*1) in *.
  split; [|split; [|split; [|split]]].
  - rewrite <- (length_fmap cons_Date), Hdates, length_drop. lia.
  - apply sorted_by_date. rewrite Hdates.
    rewrite <- (take_drop (size m - Z.to_nat limit) keys) in Hsorted.
    eapply StronglySorted_app_1_r, Hsorted.
  - intros k Hk. apply Helem in Hk.
    rewrite <- (take_drop (size m - Z.to_nat limit) keys) in Hk, Hsorted.
    apply elem_of_app in Hk as [Hk|Hk]; [right|left; now rewrite Hdates].
    assert (H : Forall (Strings.lt k) (cons_Date <$> l)).
    { rewrite Hdates. apply Forall_forall. intros k' Hk'.
      eapply StronglySorted_app_1_elem_of; eauto. }
    rewrite Forall_fmap in H. exact H.
  - exact Hpoints.
  - intros Hpos y.
    assert (Hlast : last (cons_Date <$> l) = last keys).
    { rewrite Hdates. destruct (decide (size m = 0%nat)) as [Hz|Hnz].
      - rewrite Hz. reflexivity.
      - apply last_drop. lia. }
    rewrite fmap_last in Hlast.
    destruct (last l) as [c|] eqn:Ec; cbn in Hlast.
    + symmetry in Hlast. apply last_Some in Hlast as [front Hkeys].
      split.
      * intros Hy. exists (cons_Date c). split; [|exact Hy].
        apply Helem. rewrite Hkeys. apply elem_of_app. right. apply elem_of_cons. now left.
      * intros (k & Hk & Hyk). apply Helem in Hk.
        change (Strings.le y (cons_Date c)). etransitivity; [exact Hyk|].
        rewrite Hkeys in Hk, Hsorted. apply elem_of_app in Hk as [Hk|Hk].
        -- apply Strings_lt_le. eapply StronglySorted_app_1_elem_of; eauto.
           apply elem_of_cons. now left.
        -- apply elem_of_cons in Hk as [->|Hk]; [|now apply elem_of_nil in Hk].
           apply String_leb_iff. now right.
    + split; [discriminate|]. intros (k & Hk & _). apply Helem in Hk.
      symmetry in Hlast. apply last_None in Hlast. rewrite Hlast in Hk.
      now apply elem_of_nil in Hk.
Qed.

End AggregateSpec.

(** X21: [aggregateConsumption] panics exactly for a negative limit.
    Otherwise, in whatever order [range] goes through the maps, it returns the
    same list: one point per key for the [min(len(m), limit)] greatest keys,
    in strictly ascending order of date; every other key of the map is
    smaller than all the dates kept; and for each of the eight tariffs a
    point shows the reading of its date rounded by [int(value + 0.5)], and
    nothing when that is 0 or the tariff has no reading. *)
Theorem aggregateConsumption_spec (float64 : Type) (toInt : float64 -> Z)
    (order order' : forall A : Type, gmap string A -> list (string * A))
    (m : gmap string (gmap string float64)) (limit : Z) :
  Consumptions.ranges order -> Consumptions.ranges order' ->
  (Consumptions.aggregateConsumption float64 toInt order m limit = None <-> limit < 0)
  /\ (0 <= limit -> exists l,
        Consumptions.aggregateConsumption float64 toInt order m limit = Some l
        /\ Consumptions.aggregateConsumption float64 toInt order' m limit = Some l
        /\ List.length l = (size m `min` Z.to_nat limit)%nat
        /\ StronglySorted Consumptions.by_date l
        /\ (forall k, is_Some (m !! k) ->
              k ∈ cons_Date <$> l \/ Forall (fun c => Strings.lt k (cons_Date c)) l)
        /\ Forall (fun c => exists inner, m !! cons_Date c = Some inner
                     /\ forall T, T ∈ Consumptions.tariffs ->
                          Consumptions.tariffOf c T = Consumptions.rounded toInt inner T) l).
Proof.
  intros Horder Horder'. split.
  - rewrite (aggregate_unfold toInt order Horder).
    destruct (Z.ltb_spec limit 0); split; intros; try lia; try discriminate; reflexivity.
  - intros Hlimit.
    destruct (aggregate_properties toInt order m limit Horder Hlimit)
      as (l & Hl & Hlen & Hsorted & Hlatest & Hpoints & _).
    destruct (aggregate_result toInt order Horder m limit Hlimit) as (l1 & Hl1 & Hd1 & _).
    destruct (aggregate_result toInt order' Horder' m limit Hlimit) as (l' & Hl' & Hd' & Hp').
    assert (l1 = l) by congruence. subst l1.
    exists l. repeat (split; [assumption|]). split; [|split; [|split; [|split]]]; try assumption.
    rewrite Hl'. f_equal. symmetry.
    apply (points_unique toInt m); [congruence|assumption|assumption].
Qed.

Lemma aggregateConsumption_spec_witness :
  Consumptions.aggregateConsumption Z whole backwards sample_readings 2
  = Consumptions.aggregateConsumption Z whole forwards sample_readings 2.
Proof.
  destruct (aggregateConsumption_spec Z whole forwards backwards sample_readings 2)
    as [_ H].
  - intros A m. reflexivity.
  - intros A m. apply reverse_Permutation.
  - destruct (H ltac:(lia)) as (l & H1 & H2 & _). rewrite H1, H2. reflexivity.
Defined.
(** ** source_electricity.go: parseConsumption *)

Section ParseFacts.
Import Consumptions.
Context {float64 : Type}.

Lemma put_dom (key tariff : string) (v : float64)
    (m : gmap string (gmap string float64)) (k : string) :
  is_Some (put float64 key tariff v m !! k) <-> is_Some (m !! k) \/ k = key.
Proof.
  unfold put. rewrite lookup_insert_is_Some. split.
  - intros [->|[_ ?]]; auto.
  - intros [H| ->]; [|auto]. destruct (decide (key = k)); auto.
Qed.

Lemma journee_dom (tariff : string) (daily : gmap string (gmap string float64))
    (c : journaliere float64) (k : string) :
  is_Some (journee float64 tariff daily c !! k) <-> is_Some (daily !! k) \/ k ∈ dateOf c.
Proof.
  unfold journee, dateOf. destruct (j_Consommation c) as [v|].
  - destruct (Strings.Split (j_Date c) "/") as [|d [|m [|y [|? ?]]]];
      rewrite ?put_dom, ?elem_of_nil, ?elem_of_cons, ?elem_of_nil; tauto.
  - rewrite elem_of_nil. tauto.
Qed.

Lemma journees_dom (tariff : string) (cs : list (journaliere float64))
    (daily : gmap string (gmap string float64)) (k : string) :
  is_Some (foldl (journee float64 tariff) daily cs !! k)
  <-> is_Some (daily !! k) \/ k ∈ cs ≫= dateOf.
Proof.
  revert daily. induction cs as [|c cs IH]; intros daily; cbn.
  - rewrite elem_of_nil. tauto.
  - rewrite IH, journee_dom, elem_of_app. tauto.
Qed.

Lemma releve_dom (acc : gmap string (gmap string float64) * gmap string (gmap string float64))
    (p : poste float64) (k : string) :
  is_Some ((releve float64 acc p).1 !! k) <-> is_Some (acc.1 !! k) \/ k ∈ datesOf p.
Proof.
  unfold releve, datesOf. destruct (String.eqb (Mnemo p) ""); cbn.
  - rewrite elem_of_nil. tauto.
  - apply journees_dom.
Qed.

Lemma releves_dom (ps : list (poste float64))
    (acc : gmap string (gmap string float64) * gmap string (gmap string float64))
    (k : string) :
  is_Some ((foldl (releve float64) acc ps).1 !! k)
  <-> is_Some (acc.1 !! k) \/ k ∈ ps ≫= datesOf.
Proof.
  revert acc. induction ps as [|p ps IH]; intros acc; cbn.
  - rewrite elem_of_nil. tauto.
  - rewrite IH, releve_dom, elem_of_app. tauto.
Qed.

Lemma contracts_dom (contracts : list (consumptionPeriod float64))
    (acc : gmap string (gmap string float64) * gmap string (gmap string float64))
    (k : string) :
  is_Some ((foldl (fun acc contract => foldl (releve float64) acc contract) acc contracts).1 !! k)
  <-> is_Some (acc.1 !! k) \/ k ∈ contracts ≫= (fun contract => contract ≫= datesOf).
Proof.
  revert acc. induction contracts as [|c cs IH]; intros acc; cbn.
  - rewrite elem_of_nil. tauto.
  - rewrite IH, releves_dom, elem_of_app. tauto.
Qed.

Lemma gather_dom (contracts : list (consumptionPeriod float64)) (k : string) :
  is_Some ((gather float64 contracts).1 !! k) <-> k ∈ readingDates contracts.
Proof.
  unfold gather. rewrite contracts_dom. cbn. rewrite lookup_empty.
  split; [intros [[? H]|H]; [discriminate|exact H]|auto].
Qed.

End ParseFacts.

(** X22: [parseConsumption] never panics.  In whatever order [range] goes
    through the maps, it returns at most 14 daily and 2 monthly points, each
    list in strictly ascending order of date; the daily points are those of
    the greatest dates among the daily readings that have a named tariff, a
    value and a date of three parts; and [hasYesterday], which [Fetch] asks
    of the last daily point only, holds exactly when one of these readings
    has a date from [yesterday] on. *)
Theorem parseConsumption_spec (float64 : Type) (toInt : float64 -> Z)
    (order : forall A : Type, gmap string A -> list (string * A))
    (contracts : list (Consumptions.consumptionPeriod float64)) :
  Consumptions.ranges order ->
  exists data,
    Consumptions.parseConsumption float64 toInt order contracts = Some data
    /\ (List.length (Days data) <= 14)%nat
    /\ (List.length (Months data) <= 2)%nat
    /\ StronglySorted Consumptions.by_date (Days data)
    /\ StronglySorted Consumptions.by_date (Months data)
    /\ (forall date, date ∈ cons_Date <$> Days data ->
          date ∈ Consumptions.readingDates contracts)
    /\ (forall date, date ∈ Consumptions.readingDates contracts ->
          date ∈ cons_Date <$> Days data
          \/ Forall (fun c => Strings.lt date (cons_Date c)) (Days data))
    /\ (forall yesterday,
          Electricity.hasYesterday data yesterday = true
          <-> exists date, date ∈ Consumptions.readingDates contracts
                /\ Strings.le yesterday date).
Proof.
  intros Horder. unfold Consumptions.parseConsumption.
  destruct (aggregate_properties toInt order (Consumptions.gather float64 contracts).1 14
              Horder ltac:(lia))
    as (days & -> & Hlen & Hsorted & Hlatest & Hpoints & Hlast).
  destruct (aggregate_properties toInt order (Consumptions.gather float64 contracts).2 2
              Horder ltac:(lia))
    as (months & -> & Hlen' & Hsorted' & _).
  eexists. split; [reflexivity|]. cbn [Days Months].
  split; [lia|]. split; [lia|]. split; [exact Hsorted|]. split; [exact Hsorted'|].
  split; [|split].
  - intros date Hdate. apply gather_dom.
    apply list_elem_of_fmap in Hdate as (c & -> & Hc).
    rewrite Forall_forall in Hpoints. destruct (Hpoints c Hc) as (inner & Hin & _).
    eauto.
  - intros date Hdate. apply Hlatest, gather_dom, Hdate.
  - intros yesterday. unfold Electricity.hasYesterday. cbn [Days].
    rewrite (Hlast ltac:(lia) yesterday). split.
    + intros (k & Hk & Hle). exists k. split; [now apply gather_dom|exact Hle].
    + intros (k & Hk & Hle). exists k. split; [now apply gather_dom|exact Hle].
Qed.

Lemma parseConsumption_spec_witness :
  exists data,
    Consumptions.parseConsumption Z whole forwards sample_contracts = Some data
    /\ Electricity.hasYesterday data "2024-03-01" = true
    /\ Electricity.hasYesterday data "2024-03-02" = false.
Proof.
  destruct (parseConsumption_spec Z whole forwards sample_contracts)
    as (data & H & _ & _ & _ & _ & _ & _ & Hy).
  - intros A m. reflexivity.
  - exists data. split; [exact H|]. split.
    + apply Hy. exists "2024-03-01"%string. split; [|reflexivity].
      apply (bool_decide_unpack (_ ∈ _)). vm_compute. exact I.
    + destruct (Electricity.hasYesterday data "2024-03-02") eqn:E; [|reflexivity].
      apply Hy in E as (date & Hdate & Hle). exfalso.
      assert (Hd : Consumptions.readingDates sample_contracts
                   = ["2024-03-01"; "2024-02-29"]%string) by (vm_compute; reflexivity).
      rewrite Hd in Hdate.
      rewrite !elem_of_cons, elem_of_nil in Hdate.
      destruct Hdate as [->|[->|[]]]; vm_compute in Hle; discriminate.
Defined.

(** ** The configuration of the transport source *)

Module TransportConfigProofs.
Import TransportConfig.

Lemma append_String (c : ascii) (a b : string) :
  (String c a ++ b)%string = String c (a ++ b)%string.
Proof. reflexivity. Qed.

Lemma hasByte_app (c : ascii) (a b : string) :
  hasByte c (a ++ b)%string = hasByte c a || hasByte c b.
Proof.
  induction a as [|x a IH]; [reflexivity|].
  rewrite append_String. cbn [hasByte].
  rewrite IH. destruct (Ascii.eqb x c); reflexivity.
Qed.

Lemma Split_single (s : string) (sep : ascii) :
  hasByte sep s = false -> Strings.Split s sep = [s].
Proof.
  induction s as [|x s IH]; [reflexivity|]. cbn [hasByte Strings.Split].
  intros H. apply orb_false_iff in H as [Hx Hs].
  rewrite Hx, (IH Hs). reflexivity.
Qed.

Lemma Split_app (s rest : string) (sep : ascii) :
  hasByte sep s = false ->
  Strings.Split (s ++ String sep rest)%string sep = s :: Strings.Split rest sep.
Proof.
  induction s as [|x s IH].
  - intros _. change (Strings.Split (String sep rest) sep = EmptyString :: Strings.Split rest sep).
    cbn [Strings.Split]. now rewrite Ascii.eqb_refl.
  - rewrite append_String. cbn [hasByte Strings.Split].
    intros H. apply orb_false_iff in H as [Hx Hs].
    rewrite Hx, (IH Hs). reflexivity.
Qed.

Lemma cut_app (a b : string) (sep : ascii) :
  hasByte sep a = false -> Strings.cut (a ++ String sep b)%string sep = Some (a, b).
Proof.
  induction a as [|x a IH].
  - intros _. change (Strings.cut (String sep b) sep = Some (EmptyString, b)).
    cbn [Strings.cut]. now rewrite Ascii.eqb_refl.
  - rewrite append_String. cbn [hasByte Strings.cut].
    intros H. apply orb_false_iff in H as [Hx Ha].
    rewrite Hx, (IH Ha). reflexivity.
Qed.

Lemma SplitN_body (e : entry) :
  hasByte "," (e_line e) = false -> hasByte "," (e_name e) = false ->
  Strings.SplitN (body e) "," 3 = [e_line e; e_name e; e_destination e].
Proof.
  intros Hl Hn. unfold body.
  change (Strings.SplitN ?s "," 3)
    with (match Strings.cut s "," with
          | None => [s]
          | Some (a, b) =>
              a :: match Strings.cut b "," with
                   | None => [b]
                   | Some (a', b') => [a'; b']
                   end
          end).
  assert (Hc : forall r, ("," ++ r)%string = String "," r) by reflexivity.
  rewrite !Hc, (cut_app _ _ _ Hl), (cut_app _ _ _ Hn). reflexivity.
Qed.

Lemma asciiSpace_ASCII (c : ascii) :
  Strings.asciiSpace c = true -> Strings.isASCII c = true.
Proof.
  unfold Strings.asciiSpace, Strings.isASCII. intros H.
  apply N.ltb_lt. apply orb_true_iff in H as [H|H].
  - apply andb_true_iff in H as [_ H]. apply N.leb_le in H. lia.
  - apply N.eqb_eq in H. lia.
Qed.

Lemma blank_no_semicolon (s : string) : blank s = true -> hasByte ";" s = false.
Proof.
  induction s as [|x s IH]; [reflexivity|]. cbn [blank hasByte].
  intros H. apply andb_true_iff in H as [Hx Hs]. rewrite (IH Hs), orb_false_r.
  destruct (Ascii.eqb_spec x ";") as [->|]; [discriminate|reflexivity].
Qed.

Section Trim.
Variable TrimFunc_IsSpace : string -> string.
Variable TrimRightFunc_IsSpace : string -> string.

Lemma TrimSpace_blank (pre s : string) :
  blank pre = true ->
  Strings.TrimSpace TrimFunc_IsSpace TrimRightFunc_IsSpace (pre ++ s)%string
  = Strings.TrimSpace TrimFunc_IsSpace TrimRightFunc_IsSpace s.
Proof.
  induction pre as [|x pre IH]; cbn [blank]; [reflexivity|].
  intros H. apply andb_true_iff in H as [Hx Hpre].
  rewrite append_String. cbn [Strings.TrimSpace].
  rewrite (asciiSpace_ASCII _ Hx), Hx. cbn. exact (IH Hpre).
Qed.

Lemma list_ascii_app (a b : string) :
  list_ascii_of_string (a ++ b)%string
  = (list_ascii_of_string a ++ list_ascii_of_string b)%list.
Proof.
  induction a as [|x a IH]; [reflexivity|].
  rewrite append_String. cbn [list_ascii_of_string]. now rewrite IH.
Qed.

Lemma trimEnd_blank (post : string) (bytes : list ascii) :
  blank post = true ->
  Strings.trimEnd TrimRightFunc_IsSpace (rev (list_ascii_of_string post) ++ bytes)%list
  = Strings.trimEnd TrimRightFunc_IsSpace bytes.
Proof.
  revert bytes. induction post as [|x post IH]; intros bytes; cbn [blank]; [reflexivity|].
  intros H. apply andb_true_iff in H as [Hx Hpost].
  cbn [list_ascii_of_string rev]. rewrite <- app_assoc. rewrite (IH _ Hpost).
  cbn. rewrite (asciiSpace_ASCII _ Hx), Hx. reflexivity.
Qed.

Lemma trimEnd_solid (s : string) :
  lastSolid s = true ->
  Strings.trimEnd TrimRightFunc_IsSpace (rev (list_ascii_of_string s)) = s.
Proof.
  unfold lastSolid. destruct (rev (list_ascii_of_string s)) as [|c front] eqn:E;
    [discriminate|].
  intros Hc. apply andb_true_iff in Hc as [Hascii Hspace].
  apply negb_true_iff in Hspace.
  cbn [Strings.trimEnd]. rewrite Hascii, Hspace. cbn [negb].
  rewrite <- E, rev_involutive. apply string_of_list_ascii_of_string.
Qed.

Lemma TrimSpace_render (e : entry) :
  blank (e_before e) = true -> blank (e_after e) = true ->
  firstSolid (body e) = true -> lastSolid (body e) = true ->
  Strings.TrimSpace TrimFunc_IsSpace TrimRightFunc_IsSpace (render e) = body e.
Proof.
  intros Hpre Hpost Hfirst Hlast. unfold render.
  rewrite (TrimSpace_blank _ _ Hpre).
  destruct (body e) as [|c r] eqn:Ebody; [discriminate|].
  cbn [firstSolid] in Hfirst. apply andb_true_iff in Hfirst as [Hascii Hspace].
  apply negb_true_iff in Hspace.
  rewrite append_String. cbn [Strings.TrimSpace]. rewrite Hascii, Hspace. cbn [negb].
  rewrite <- append_String, list_ascii_app, rev_app_distr.
  rewrite (trimEnd_blank _ _ Hpost). apply trimEnd_solid, Hlast.
Qed.

Lemma wellFormed_fields (e : entry) :
  wellFormed e = true ->
  blank (e_before e) = true /\ blank (e_after e) = true
  /\ hasByte "," (e_line e) = false /\ hasByte ";" (e_line e) = false
  /\ hasByte "," (e_name e) = false /\ hasByte ";" (e_name e) = false
  /\ hasByte ";" (e_destination e) = false
  /\ firstSolid (body e) = true /\ lastSolid (body e) = true.
Proof.
  unfold wellFormed. rewrite !andb_true_iff, !negb_true_iff. tauto.
Qed.

Lemma render_no_semicolon (e : entry) :
  wellFormed e = true -> hasByte ";" (render e) = false.
Proof.
  intros H. apply wellFormed_fields in H
    as (Hpre & Hpost & _ & Hl & _ & Hn & Hd & _ & _).
  unfold render, body. rewrite !hasByte_app.
  rewrite (blank_no_semicolon _ Hpre), (blank_no_semicolon _ Hpost), Hl, Hn, Hd.
  reflexivity.
Qed.

Lemma addStop_render (stops : list Transport.stopInfo) (e : entry) :
  wellFormed e = true ->
  addStop TrimFunc_IsSpace TrimRightFunc_IsSpace stops (render e) = stops ++ [stopOf e].
Proof.
  intros H. apply wellFormed_fields in H
    as (Hpre & Hpost & Hl & _ & Hn & _ & _ & Hfirst & Hlast).
  unfold addStop. rewrite (TrimSpace_render _ Hpre Hpost Hfirst Hlast).
  rewrite (SplitN_body _ Hl Hn). reflexivity.
Qed.

Lemma addStops_render (entries : list entry) (stops : list Transport.stopInfo) :
  Forall (fun e => wellFormed e = true) entries ->
  foldl (addStop TrimFunc_IsSpace TrimRightFunc_IsSpace) stops (render <$> entries)
  = stops ++ (stopOf <$> entries).
Proof.
  intros H. revert stops. induction H as [|e entries He _ IH]; intros stops; cbn.
  - now rewrite app_nil_r.
  - rewrite (addStop_render _ _ He), IH, <- app_assoc. reflexivity.
Qed.

Lemma Split_Join (entries : list entry) :
  Forall (fun e => wellFormed e = true) entries -> entries <> [] ->
  Strings.Split (Strings.Join (render <$> entries) ";") ";" = render <$> entries.
Proof.
  induction 1 as [|e entries He Hall IH]; [congruence|]. intros _.
  destruct entries as [|e' entries].
  - cbn. apply Split_single, render_no_semicolon, He.
  - change (Strings.Join (render <$> e :: e' :: entries) ";")
      with (render e ++ String ";" (Strings.Join (render <$> e' :: entries) ";"))%string.
    rewrite (Split_app _ _ _ (render_no_semicolon _ He)), IH by congruence.
    reflexivity.
Qed.

End Trim.

(** X23: the stops of a configuration are read back as they were written.
    For entries [line,name,destination] joined by [;], each with ASCII blanks
    around it, a line and a name without [,] and [;], a destination without
    [;] (it may contain [,]) and a first and a last byte that are ASCII,
    [NewTransportSource] yields one stop per entry, in order, with the
    destination kept in [stopRef] for the resolution, no colours, an empty
    cache and [ready] unset; the Unicode path of [TrimSpace] is not taken. *)
Theorem NewTransportSource_round_trip
    (TrimFunc_IsSpace TrimRightFunc_IsSpace : string -> string)
    (url key : string) (entries : list entry) :
  Forall (fun e => wellFormed e = true) entries ->
  NewTransportSource TrimFunc_IsSpace TrimRightFunc_IsSpace
    (mkConfig url key (Strings.Join (render <$> entries) ";"))
  = Transport.mkTransportSource url key (stopOf <$> entries) false ∅.
Proof.
  intros H. unfold NewTransportSource. cbn [TransportAPIURL TransportAPIKey TransportStops].
  f_equal. destruct entries as [|e entries]; [reflexivity|].
  rewrite Split_Join by (auto; congruence).
  exact (addStops_render _ _ _ [] H).
Qed.

Lemma NewTransportSource_round_trip_witness :
  Transport.stops
    (NewTransportSource (fun s => s) (fun s => s)
       (mkConfig "https://api" "key"
          "A,Homme de Fer,Parc des Sports; C1,Gare Centrale,Neuhof, Rodolphe Reuss "))
  = [Transport.mkStopInfo "A" "Homme de Fer" "Parc des Sports" "" "";
     Transport.mkStopInfo "C1" "Gare Centrale" "Neuhof, Rodolphe Reuss" "" ""].
Proof.
  change "A,Homme de Fer,Parc des Sports; C1,Gare Centrale,Neuhof, Rodolphe Reuss "%string
    with (Strings.Join (render <$> sample_entries) ";").
  rewrite (NewTransportSource_round_trip (fun s => s) (fun s => s)
             "https://api" "key" sample_entries).
  - reflexivity.
  - apply Forall_forall. intros e He.
    unfold sample_entries in He. rewrite !elem_of_cons, elem_of_nil in He.
    destruct He as [->|[->|[]]]; vm_compute; reflexivity.
Defined.

End TransportConfigProofs.

(** ** source_electricity.go: authentication *)

Module ElectricityAuthProofs.
Import ElectricityAuth.

Section Facts.
Context {W : Type} {HW : World W}.
Variable generatePKCE : M W (string * string).
Variable login : M W (string + string).
Variable authorize : string -> string -> M W (string + string).
Variable postToken : string -> string -> M W (tokenResponse + string).
Variable getServicePoints : string -> M W (list string + string).
Variable fetchConsumption : session -> M W (ElectricityData + string).

Lemma token_nonempty (a b : string) : (a ++ " " ++ b)%string <> EmptyString.
Proof. destruct a; discriminate. Qed.

Lemma eqb_empty (s : string) : String.eqb s "" = false <-> s <> EmptyString.
Proof. destruct (String.eqb_spec s ""); split; congruence. Qed.

Lemma exchangeToken_cases (code verifier : string) (s : session) (w : W) :
  let out := exchangeToken postToken code verifier (s, w) in
  match out.1 with
  | None => accessToken out.2.1 <> EmptyString
            /\ servicePointID out.2.1 = servicePointID s
  | Some _ => out.2.1 = s
  end.
Proof.
  unfold exchangeToken, bind, upstream, self, put, ret. cbn [fst snd].
  destruct (postToken code verifier w) as [[resp|err] w1]; cbn [fst snd]; [|reflexivity].
  destruct (String.eqb (tr_Error resp) ""); cbn [negb fst snd]; [|reflexivity].
  unfold time_Now, World_with_state. cbn [fst snd].
  destruct (@time_Now W HW w1) as [now w2]. cbn [fst snd accessToken servicePointID].
  split; [apply token_nonempty|reflexivity].
Qed.

Lemma fetchServicePoint_cases (s : session) (w : W) :
  let out := fetchServicePoint getServicePoints (s, w) in
  accessToken out.2.1 = accessToken s
  /\ match out.1 with
     | None => True
     | Some _ => out.2.1 = s
     end.
Proof.
  unfold fetchServicePoint, bind, upstream, self, put, ret. cbn [fst snd].
  destruct (getServicePoints (accessToken s) w) as [[[|id ids]|err] w1];
    cbn [fst snd accessToken]; auto.
Qed.

(** What is left of [ensureAuth] when the token is not used again. *)
Lemma signIn_cases (s : session) (w : W) :
  forall out,
  out = signIn generatePKCE login authorize postToken getServicePoints (s, w) ->
  (out.1 = None -> accessToken out.2.1 <> EmptyString)
  /\ (servicePointID s <> EmptyString -> servicePointID out.2.1 = servicePointID s)
  /\ (forall err, out.1 = Some err ->
        exists cause, err = ("login: " ++ cause)%string
                   \/ err = ("authorize: " ++ cause)%string
                   \/ err = ("token: " ++ cause)%string
                   \/ err = ("service point: " ++ cause)%string).
Proof.
  intros out Hout. unfold signIn, bind, ret in Hout.
  unfold upstream at 1 in Hout. cbn [fst snd] in Hout.
  destruct (generatePKCE w) as [pkce wa]. cbn [fst snd] in Hout.
  unfold upstream at 1 in Hout. cbn [fst snd] in Hout.
  destruct (login wa) as [[cookie|err] wb]; cbn [fst snd] in Hout.
  2: { subst out. cbn [fst snd]. split; [discriminate|]. split; [reflexivity|].
       intros ? [= <-]. eauto 6. }
  unfold upstream at 1 in Hout. cbn [fst snd] in Hout.
  destruct (authorize cookie pkce.2 wb) as [[code|err] wc]; cbn [fst snd] in Hout.
  2: { subst out. cbn [fst snd]. split; [discriminate|]. split; [reflexivity|].
       intros ? [= <-]. eauto 6. }
  pose proof (exchangeToken_cases code pkce.1 s wc) as Hx. cbn zeta in Hx.
  destruct (exchangeToken postToken code pkce.1 (s, wc)) as [[err|] [s1 wd]];
    cbn [fst snd] in Hx, Hout.
  { subst s1 out. cbn [fst snd]. split; [discriminate|]. split; [reflexivity|].
    intros ? [= <-]. eauto 6. }
  destruct Hx as [Htok Hsp].
  unfold time_Now at 1, World_with_state in Hout. cbn [fst snd] in Hout.
  destruct (@time_Now W HW wd) as [now1 we]. unfold self in Hout. cbn [fst snd] in Hout.
  destruct (String.eqb_spec (servicePointID s1) "") as [Hempty|Hknown]; cbn [fst snd] in Hout.
  2: { subst out. cbn [fst snd]. split; [intros _; exact Htok|].
       split; [intros _; exact Hsp|]. intros ? [=]. }
  pose proof (fetchServicePoint_cases s1 we) as Hy. cbn zeta in Hy.
  destruct (fetchServicePoint getServicePoints (s1, we)) as [[err|] [s2 wf]];
    cbn [fst snd] in Hy, Hout; destruct Hy as [Hacc Hrest]; subst out; cbn [fst snd].
  - subst s2. split; [discriminate|]. split; [intros _; exact Hsp|].
    intros ? [= <-]. eauto 6.
  - split; [intros _; congruence|]. split; [intros Hs; congruence|]. intros ? [=].
Qed.

Lemma ensureAuth_unfold (s : session) (w : W) :
  ensureAuth generatePKCE login authorize postToken getServicePoints (s, w) =
  if String.eqb (accessToken s) "" then
    signIn generatePKCE login authorize postToken getServicePoints (s, w)
  else if Before (Add (time_Now w).1 (5 * Minute)) (tokenExpiry s) then
    (None, (s, (time_Now w).2))
  else signIn generatePKCE login authorize postToken getServicePoints (s, (time_Now w).2).
Proof.
  unfold ensureAuth. unfold bind at 1, self at 1. cbn [fst snd].
  destruct (String.eqb (accessToken s) ""); cbn [negb].
  - reflexivity.
  - unfold bind at 1 2. unfold time_Now at 1, World_with_state. cbn [fst snd].
    destruct (@time_Now W HW w) as [now0 w0]. cbn [fst snd]. unfold ret at 1.
    destruct (Before (Add now0 (5 * Minute)) (tokenExpiry s)); reflexivity.
Qed.

(** The token is used again, without a request, while it has more than
    five minutes left. *)
Lemma ensureAuth_reuse (s : session) (w : W) :
  accessToken s <> EmptyString ->
  Before (Add (time_Now w).1 (5 * Minute)) (tokenExpiry s) = true ->
  ensureAuth generatePKCE login authorize postToken getServicePoints (s, w)
  = (None, (s, (time_Now w).2)).
Proof.
  intros Htoken Hvalid. apply eqb_empty in Htoken.
  rewrite ensureAuth_unfold, Htoken, Hvalid. reflexivity.
Qed.

End Facts.

(** X24: what [ensureAuth] keeps.  When it returns [nil] the source has an
    access token; a service point that is known is never replaced; an error
    is one of the four steps' errors under its prefix; and while the token
    has more than five minutes left it returns [nil] at once, with no request
    and the source unchanged. *)
Theorem ensureAuth_spec (W : Type) (HW : World W)
    (generatePKCE : M W (string * string)) (login : M W (string + string))
    (authorize : string -> string -> M W (string + string))
    (postToken : string -> string -> M W (tokenResponse + string))
    (getServicePoints : string -> M W (list string + string))
    (s : session) (w : W) :
  let out := ensureAuth generatePKCE login authorize postToken getServicePoints (s, w) in
  (out.1 = None -> accessToken out.2.1 <> EmptyString)
  /\ (servicePointID s <> EmptyString -> servicePointID out.2.1 = servicePointID s)
  /\ (forall err, out.1 = Some err ->
        exists cause, err = ("login: " ++ cause)%string
                   \/ err = ("authorize: " ++ cause)%string
                   \/ err = ("token: " ++ cause)%string
                   \/ err = ("service point: " ++ cause)%string)
  /\ (accessToken s <> EmptyString ->
      Before (Add (time_Now w).1 (5 * Minute)) (tokenExpiry s) = true ->
      out = (None, (s, (time_Now w).2))).
Proof.
  intros out.
  assert (Hreuse : accessToken s <> EmptyString ->
            Before (Add (time_Now w).1 (5 * Minute)) (tokenExpiry s) = true ->
            out = (None, (s, (time_Now w).2))) by apply ensureAuth_reuse.
  split; [|split; [|split]]; [| | |exact Hreuse].
  all: clear Hreuse; subst out; rewrite ensureAuth_unfold.
  all: destruct (String.eqb_spec (accessToken s) "") as [He|Hne];
       [|destruct (Before (Add (time_Now w).1 (5 * Minute)) (tokenExpiry s));
         [cbn [fst snd]; first [ intros _; exact Hne | reflexivity | intros ? [=] ]|]].
  all: match goal with
       | |- context [signIn ?g ?l ?a ?p ?q (?s0, ?w0)] =>
           destruct (signIn_cases g l a p q s0 w0 _ eq_refl) as (H1 & H2 & H3)
       end; first [exact H1 | exact H2 | exact H3].
Qed.



End ElectricityAuthProofs.
(** ** The Tempo calendar request *)

Module TempoDataProofs.
Import TempoData.

Lemma substring_length (n : nat) (s : string) :
  (n <= String.length s)%nat -> String.length (substring 0 n s) = n.
Proof.
  revert s. induction n as [|n IH]; intros [|c s]; cbn; intros H; try lia.
  rewrite IH; [reflexivity|lia].
Qed.

Lemma first10_Some (s : string) :
  (10 <= String.length s)%nat ->
  exists date, first10 s = Some date
    /\ String.length date = 10%nat /\ String.prefix date s = true.
Proof.
  intros H. unfold first10.
  destruct (Nat.ltb_spec (String.length s) 10) as [Hlt|_]; [lia|].
  eexists. split; [reflexivity|].
  pose proof (substring_length 10 s H) as Hlen. split; [exact Hlen|].
  apply String.prefix_correct. rewrite Hlen. reflexivity.
Qed.

Lemma first10_None (s : string) :
  (String.length s < 10)%nat -> first10 s = None.
Proof.
  intros H. unfold first10.
  destruct (Nat.ltb_spec (String.length s) 10); [reflexivity|lia].
Qed.

Section Days.
Variable ToLower : string -> string.

Lemma days_short (values : list calendarValue) (data : list TempoDay) :
  Exists (fun v => (String.length (StartDate v) < 10)%nat) values ->
  days ToLower values data = None.
Proof.
  intros H. revert data. induction H as [v rest Hv|v rest _ IH]; intros data; cbn.
  - now rewrite (first10_None _ Hv).
  - destruct (first10 (StartDate v)); [apply IH|reflexivity].
Qed.

Lemma days_long (values : list calendarValue) (data : list TempoDay) :
  Forall (fun v => (10 <= String.length (StartDate v))%nat) values ->
  exists more, days ToLower values data = Some (data ++ more)
    /\ Forall2 (dayOf ToLower) values more.
Proof.
  intros H. revert data. induction H as [|v rest Hv _ IH]; intros data; cbn.
  - exists []. rewrite app_nil_r. split; [reflexivity|constructor].
  - destruct (first10_Some _ Hv) as (date & -> & Hlen & Hpre).
    destruct (IH (data ++ [mkTempoDay date (ToLower (Value v))])) as (more & -> & Hmore).
    exists (mkTempoDay date (ToLower (Value v)) :: more). rewrite <- app_assoc.
    split; [reflexivity|]. constructor; [|exact Hmore].
    unfold dayOf. cbn. auto.
Qed.

End Days.

(** X26: [fetchData] of the tempo source.  A failed sign-in gives
    ["auth: " + err] and no calendar request; a failed request gives its
    error, an empty calendar gives "no tempo data"; a calendar in which some
    [start_date] has fewer than ten bytes makes [fetchData] panic
    ([StartDate[:10]]); otherwise there is one day per value, in order, whose
    date is the first ten bytes of the [start_date] and whose colour is the
    value in lower case, and the list is not empty. *)
Theorem Tempo_fetchData_spec (W : Type) (HW : World W)
    (authenticate : Tempo.TempoSource -> M W (string + string))
    (getCalendars :
       Tempo.TempoSource -> Time -> Time -> string -> M W (list calendarValue + string))
    (ToLower : string -> string) (s : Tempo.TempoSource) (w : W) :
  let run := fetchData authenticate getCalendars ToLower s w in
  let signed := authenticate s w in
  match signed.1 with
  | inr err => run = Some (inr ("auth: " ++ err)%string, signed.2)
  | inl token =>
      let now := (time_Now signed.2).1 in
      let today :=
        Date (YearOf (Tempo.loc s) now) (MonthOf (Tempo.loc s) now)
             (DayOf (Tempo.loc s) now) 0 0 0 0 (Tempo.loc s) in
      let got :=
        getCalendars s today (AddDate (Tempo.loc s) today 0 0 2) token
                     (time_Now signed.2).2 in
      match got.1 with
      | inr err => run = Some (inr err, got.2)
      | inl values =>
          (values = [] -> run = Some (inr "no tempo data"%string, got.2))
          /\ (Exists (fun v => (String.length (StartDate v) < 10)%nat) values ->
              run = None)
          /\ (values <> [] ->
              Forall (fun v => (10 <= String.length (StartDate v))%nat) values ->
              exists data, run = Some (inl data, got.2)
                /\ data <> [] /\ Forall2 (dayOf ToLower) values data)
      end
  end.
Proof.
  intros run signed. subst run. unfold fetchData, bindP, total, retP.
  subst signed. destruct (authenticate s w) as [[token|err] w1]; cbn [fst snd]; [|reflexivity].
  destruct (@time_Now W HW w1) as [now w2]. cbn [fst snd].
  destruct (getCalendars s _ _ token w2) as [[values|err] w3]; cbn [fst snd]; [|reflexivity].
  split; [|split].
  - intros ->. reflexivity.
  - intros Hshort. destruct values as [|v rest]; [inversion Hshort|].
    cbn [List.length Nat.eqb]. now rewrite (days_short ToLower _ _ Hshort).
  - intros Hne Hlong. destruct values as [|v rest]; [congruence|].
    cbn [List.length Nat.eqb].
    destruct (days_long ToLower _ [] Hlong) as (data & -> & Hdata).
    exists data. cbn [app]. split; [reflexivity|]. split; [|exact Hdata].
    inversion Hdata. discriminate.
Qed.

End TempoDataProofs.
